(** * Astro generator of Mitosis: a shallow embedding and its properties

    The development follows [generators/astro/generator.ts] in its later,
    more complete revision (the one with [analyzeHydrationNeeds]); of the
    earlier revision, [Module Legacy] has the binding processor, the
    hydration test, the class collector, the printer of style objects and the
    node renderer.

    Conventions of the embedding:
    - a JavaScript string is the list of its UTF-16 code units ([N]);
    - a JavaScript object that is enumerated ([Object.entries], [for..in]) is
      an association list in enumeration order;
    - a function that mutates component objects or the shared options
      object, or writes to the console, or may throw, runs in the monad [M]:
      a state monad over a heap of component objects, the [cssInJs] map and
      the console, whose results are [completion]s;
    - the helpers that the generator imports from other modules of the
      package ([getRefs], [checkIsEvent], [babelTransformExpression], ...)
      and the library functions ([kebabCase], [camelCase], [hash]) are the
      fields of the class [Collaborators]; every general statement holds for
      arbitrary collaborators.

    The first part of the file has the definitions, the second part the
    properties: those that the spec states, then further ones. *)

From Stdlib Require Import String Ascii DecimalString.
From Stdlib Require Import List NArith Bool Lia Arith.
Import ListNotations.

(* ------------------------------------------------------------------ *)
(** * Strings *)

Definition jsstring := list N.

(** Code units of an ASCII literal. *)
Definition js (s : string) : jsstring :=
  map N_of_ascii (list_ascii_of_string s).
Arguments js s : simpl never.

Fixpoint jseqb (a b : jsstring) : bool :=
  match a, b with
  | [], [] => true
  | x :: a', y :: b' => (x =? y)%N && jseqb a' b'
  | _, _ => false
  end.

(** [\w] of a regular expression without the [u] and [i] flags. *)
Definition isWordChar (c : N) : bool :=
  ((48 <=? c) && (c <=? 57) || (65 <=? c) && (c <=? 90) || (c =? 95)
   || (97 <=? c) && (c <=? 122))%N.

(** WhiteSpace and LineTerminator code units, as removed by
    [String.prototype.trim]. *)
Definition isWhiteSpace (c : N) : bool :=
  ((9 <=? c) && (c <=? 13) || (c =? 32) || (c =? 160) || (c =? 5760)
   || (8192 <=? c) && (c <=? 8202) || (c =? 8232) || (c =? 8233)
   || (c =? 8239) || (c =? 8287) || (c =? 12288) || (c =? 65279))%N.

Fixpoint dropWhile (f : N -> bool) (s : jsstring) : jsstring :=
  match s with
  | [] => []
  | c :: s' => if f c then dropWhile f s' else s
  end.

(** [s.trim()] *)
Definition trim (s : jsstring) : jsstring :=
  rev (dropWhile isWhiteSpace (rev (dropWhile isWhiteSpace s))).

(** Truthiness of a string: non-empty. *)
Definition truthy (s : jsstring) : bool :=
  match s with [] => false | _ :: _ => true end.

(** [s.startsWith(p)] *)
Fixpoint startsWith (p s : jsstring) : bool :=
  match p, s with
  | [], _ => true
  | a :: p', b :: s' => (a =? b)%N && startsWith p' s'
  | _ :: _, [] => false
  end.

(** [s.endsWith(p)] *)
Definition endsWith (p s : jsstring) : bool :=
  startsWith (rev p) (rev s).

(** [s.includes(p)] *)
Fixpoint includes (p s : jsstring) : bool :=
  startsWith p s ||
  match s with
  | [] => false
  | _ :: s' => includes p s'
  end.

(** [xs.join(sep)] *)
Fixpoint join (sep : jsstring) (xs : list jsstring) : jsstring :=
  match xs with
  | [] => []
  | [x] => x
  | x :: xs' => x ++ sep ++ join sep xs'
  end.

(** [`${n}`] for a non-negative integer. *)
Definition ofNat (n : nat) : jsstring :=
  js (NilZero.string_of_uint (Nat.to_uint n)).

(* ------------------------------------------------------------------ *)
(** * The two substitutions of [processBinding]

    [code.replace(/\b<container>\.(\w+)/g, '$1')] and
    [code.replace(/\b<container>\.(\w+)/g, '<container>.$1')], for a
    container name that starts with a word character. *)

Fixpoint stripPrefix (p s : jsstring) : option jsstring :=
  match p, s with
  | [], _ => Some s
  | a :: p', b :: s' => if (a =? b)%N then stripPrefix p' s' else None
  | _ :: _, [] => None
  end.

(** Longest prefix of [\w] characters, and what follows it. *)
Fixpoint spanWord (s : jsstring) : jsstring * jsstring :=
  match s with
  | [] => ([], [])
  | c :: s' =>
      if isWordChar c
      then let (w, rest) := spanWord s' in (c :: w, rest)
      else ([], s)
  end.

(** A match of [<container>\.(\w+)] at the head of [s]: the text captured by
    the group (greedy, so the whole run of word characters), and the text
    after the match. *)
Definition matchRef (container s : jsstring) : option (jsstring * jsstring) :=
  match stripPrefix (container ++ js ".") s with
  | Some t =>
      match spanWord t with
      | ([], _) => None
      | (name, rest) => Some (name, rest)
      end
  | None => None
  end.

(** The global replace scans from left to right; matches do not overlap.
    [prevWord] tells whether the code unit before the current position is a
    word character: since the pattern starts with a word character, [\b]
    holds exactly when it is not (or at the start of the text).  After a match
    the scan resumes right behind the captured name, hence after a word
    character.  [keep] selects the replacement: ['<container>.$1'] when set,
    ['$1'] otherwise.  The fuel bounds the number of steps; the length of the
    text always suffices. *)
Fixpoint replaceRefsFrom (fuel : nat) (container : jsstring) (keep : bool)
    (prevWord : bool) (s : jsstring) : jsstring :=
  match fuel with
  | O => s
  | S fuel' =>
      match s with
      | [] => []
      | c :: s' =>
          match (if prevWord then None else matchRef container s) with
          | Some (name, rest) =>
              (if keep then container ++ js "." else []) ++ name
              ++ replaceRefsFrom fuel' container keep true rest
          | None => c :: replaceRefsFrom fuel' container keep (isWordChar c) s'
          end
      end
  end.

Definition replaceRefs (container : jsstring) (keep : bool) (s : jsstring)
  : jsstring :=
  replaceRefsFrom (length s) container keep false s.

(* ------------------------------------------------------------------ *)
(** * The intermediate representation *)

Inductive BindingType := single | spread.

(** A binding.  An absent [code] is the empty string: every use in the
    generator goes through [?.code?.trim()], [?.code] or [|| ''], which do
    not tell the two apart.  [arguments] is optional. *)
Record Binding := {
  code : jsstring;
  arguments : option (list jsstring);
  type : BindingType;
  async : bool
}.

(** [node.scope] of a [For] node; the generator hands it to
    [getForArguments] only. *)
Record ForScope := {
  forName : option jsstring;
  indexName : option jsstring;
  collectionName : option jsstring
}.

(** A node.  [properties] and [bindings] are in enumeration order;
    [metaElse] is [meta.else]. *)
#[warnings="-register-all"]
Inductive MitosisNode : Type :=
  MkNode (name : jsstring)
         (properties : list (jsstring * jsstring))
         (bindings : list (jsstring * Binding))
         (children : list MitosisNode)
         (metaElse : option MitosisNode)
         (scope : ForScope).

Definition name (n : MitosisNode) := let (x, _, _, _, _, _) := n in x.
Definition properties (n : MitosisNode) := let (_, x, _, _, _, _) := n in x.
Definition bindings (n : MitosisNode) := let (_, _, x, _, _, _) := n in x.
Definition children (n : MitosisNode) := let (_, _, _, x, _, _) := n in x.
Definition metaElse (n : MitosisNode) := let (_, _, _, _, x, _) := n in x.
Definition scope (n : MitosisNode) := let (_, _, _, _, _, x) := n in x.

Record Hook := { hookCode : jsstring }.

Record Hooks := {
  onInit : option Hook;
  onMount : list Hook;
  onUpdate : option (list Hook)
}.

Record PropDef := {
  propertyType : option jsstring;
  optional : option bool
}.

Record MitosisComponent := {
  state : list (jsstring * jsstring);
  props : list (jsstring * PropDef);
  hooks : Hooks;
  componentChildren : list MitosisNode;
  propsTypeRef : option jsstring;
  (* imports, meta, context and the other fields, which the generator only
     hands to its collaborators *)
  others : jsstring
}.

(** Property access [o.key] on an enumerated object. *)
Fixpoint lookup {A : Type} (key : jsstring) (o : list (jsstring * A)) : option A :=
  match o with
  | [] => None
  | (k, v) :: o' => if jseqb k key then Some v else lookup key o'
  end.

(** [node.properties.key] with [undefined] read as the empty string. *)
Definition prop (node : MitosisNode) (key : jsstring) : jsstring :=
  match lookup key (properties node) with Some v => v | None => [] end.

(** [node.bindings.key?.code] with [undefined] read as the empty string. *)
Definition bindingCode (node : MitosisNode) (key : jsstring) : jsstring :=
  match lookup key (bindings node) with Some b => code b | None => [] end.

(* ------------------------------------------------------------------ *)
(** * Effects *)

(** Outcome of a call: a value, or a thrown error. *)
Inductive completion (A : Type) : Type :=
| Normal (a : A)
| Throw (error : jsstring).
Arguments Normal {A} a.
Arguments Throw {A} error.

(** What the generator mutates: the component objects (a reference to a
    component is its index in [heap]), the [cssInJs] map of the shared options
    object (insertion-ordered, possibly absent) and the console. *)
Record World := {
  heap : list MitosisComponent;
  cssInJs : option (list (jsstring * jsstring));
  console : list jsstring
}.

Definition M (A : Type) : Type := World -> completion A * World.

Definition ret {A} (a : A) : M A := fun w => (Normal a, w).

Definition bind {A B} (c : M A) (k : A -> M B) : M B :=
  fun w =>
    match c w with
    | (Normal a, w') => k a w'
    | (Throw e, w') => (Throw e, w')
    end.

(** [try { body } catch (error) { handler }] *)
Definition tryCatch {A} (body : M A) (handler : jsstring -> M A) : M A :=
  fun w =>
    match body w with
    | (Normal a, w') => (Normal a, w')
    | (Throw e, w') => handler e w'
    end.

(** A call of a collaborator that may throw. *)
Definition call {A} (r : completion A) : M A := fun w => (r, w).

(** [console.warn(message, error)] *)
Definition consoleWarn (message error : jsstring) : M unit :=
  fun w => (Normal tt,
            {| heap := heap w;
               cssInJs := cssInJs w;
               console := console w ++ [message ++ js " " ++ error] |}).

(** [Map.prototype.set]: an existing key keeps its place. *)
Fixpoint mapSet (k v : jsstring) (m : list (jsstring * jsstring))
  : list (jsstring * jsstring) :=
  match m with
  | [] => [(k, v)]
  | (k', v') :: m' => if jseqb k' k then (k, v) :: m' else (k', v') :: mapSet k v m'
  end.

(** [if (!options.cssInJs) options.cssInJs = new Map(); options.cssInJs.set(k, v)] *)
Definition cssInJsSet (k v : jsstring) : M unit :=
  fun w => (Normal tt,
            {| heap := heap w;
               cssInJs := Some (mapSet k v (match cssInJs w with Some m => m | None => [] end));
               console := console w |}).

(** A reference to a component object. *)
Definition ref := nat.

(** Reading through a reference. *)
Definition deref (r : ref) : M MitosisComponent :=
  fun w =>
    match nth_error (heap w) r with
    | Some v => (Normal v, w)
    | None => (Throw (js "TypeError"), w)
    end.

Fixpoint writeAt (r : ref) (v : MitosisComponent) (h : list MitosisComponent)
  : list MitosisComponent :=
  match h, r with
  | [], _ => []
  | _ :: h', O => v :: h'
  | x :: h', S r' => x :: writeAt r' v h'
  end.

(** In-place mutation of the object behind a reference. *)
Definition assign (r : ref) (v : MitosisComponent) : M unit :=
  fun w => (Normal tt,
            {| heap := writeAt r v (heap w);
               cssInJs := cssInJs w;
               console := console w |}).

(** A new object. *)
Definition alloc (v : MitosisComponent) : M ref :=
  fun w => (Normal (length (heap w)),
            {| heap := heap w ++ [v];
               cssInJs := cssInJs w;
               console := console w |}).

(** [options.cssInJs = m], at the creation of the options object. *)
Definition cssInJsInit (m : option (list (jsstring * jsstring))) : M unit :=
  fun w => (Normal tt,
            {| heap := heap w; cssInJs := m; console := console w |}).

Definition cssInJsGet : M (option (list (jsstring * jsstring))) :=
  fun w => (Normal (cssInJs w), w).

Declare Scope m_scope.
Delimit Scope m_scope with M.
Notation "x <- c1 ;; c2" := (bind c1 (fun x => c2))
  (at level 61, c1 at next level, right associativity) : m_scope.
Notation "c1 ;; c2" := (bind c1 (fun _ => c2))
  (at level 61, right associativity) : m_scope.
Local Open Scope m_scope.

(* ------------------------------------------------------------------ *)
(** * Options and constants *)

(** The context tag of [processBinding]: ['frontmatter'] or ['template']. *)
Inductive Context := Frontmatter | Template.

(** The fields of the options object that the generator reads; an absent
    field is [None].  A plugin is known by its name. *)
Record ToAstroOptions := {
  clientDirective : option jsstring;
  typescript : option bool;
  prettier : option bool;
  plugins : option (list jsstring);
  explicitImportFileExtension : option bool
}.

Definition CLIENT_DIRECTIVES_load := js "client:load".
Definition CLIENT_DIRECTIVES_idle := js "client:idle".

Definition INTERACTIVE_EVENTS : list jsstring := map js
  [ "onClick"; "onChange"; "onInput"; "onSubmit"; "onFocus"; "onBlur";
    "onMouseOver"; "onMouseOut"; "onMouseEnter"; "onMouseLeave";
    "onKeyDown"; "onKeyUp"; "onKeyPress"; "onScroll"; "onResize";
    "onLoad"; "onError"; "onAbort"; "onCanPlay"; "onCanPlayThrough";
    "onDurationChange"; "onEmptied"; "onEnded"; "onLoadedData";
    "onLoadedMetadata"; "onLoadStart"; "onPause"; "onPlay";
    "onPlaying"; "onProgress"; "onRateChange"; "onSeeked";
    "onSeeking"; "onStalled"; "onSuspend"; "onTimeUpdate";
    "onVolumeChange"; "onWaiting"; "onWheel" ]%string.

(** [set.has(key)] *)
Definition has (set : list jsstring) (key : jsstring) : bool :=
  existsb (jseqb key) set.

Definition nl : jsstring := [10%N].
(** The double quote. *)
Definition quote : jsstring := [34%N].

(* ------------------------------------------------------------------ *)
(** * Collaborators

    Functions that the generator imports: helpers of the package whose
    sources are elsewhere, and library functions.  [babelTransformExpression]
    takes the context in place of the visitor object, which the generator
    builds from the context alone; it may throw. *)

Class Collaborators := {
  babelTransformExpression : jsstring -> Context -> completion jsstring;
  checkIsEvent : jsstring -> bool;
  filterEmptyTextNodes : MitosisNode -> bool;
  checkIsForNode : MitosisNode -> bool;
  getForArguments : MitosisNode -> list jsstring;
  getRefs : MitosisComponent -> list jsstring;
  SELF_CLOSING_HTML_TAGS : list jsstring;
  hash : jsstring -> jsstring;
  kebabCase : jsstring -> jsstring;
  camelCase : jsstring -> jsstring;
  (* collaborators of [componentToAstro] *)
  initializeOptions : MitosisComponent -> ToAstroOptions -> ToAstroOptions;
  hasProps : MitosisComponent -> bool;
  hashComponent : MitosisComponent -> jsstring;
  renderPreComponent : MitosisComponent -> option bool -> jsstring;
  (* [collectCss(json, {prefix})]: the style rules, and [json] as the call
     leaves it *)
  collectCss : MitosisComponent -> jsstring -> jsstring * MitosisComponent;
  (* [stripMetaProperties(json)]: [json] as the call leaves it *)
  stripMetaProperties : MitosisComponent -> MitosisComponent;
  (* the JSON hooks of the plugins: the argument as the hooks leave it, and
     the component they return when it is another object *)
  runPreJsonPlugins :
    list jsstring -> MitosisComponent -> MitosisComponent * option MitosisComponent;
  runPostJsonPlugins :
    list jsstring -> MitosisComponent -> MitosisComponent * option MitosisComponent;
  runPreCodePlugins : list jsstring -> MitosisComponent -> jsstring -> jsstring;
  runPostCodePlugins : list jsstring -> MitosisComponent -> jsstring -> jsstring;
  (* [new Function(source)()] followed by [Object.entries], values printed *)
  evalObjectEntries : jsstring -> completion (list (jsstring * jsstring))
}.

Section Generator.

Context {collaborators : Collaborators}.

(* ------------------------------------------------------------------ *)
(** * analyzeHydrationNeeds *)

Record HydrationAnalysis := {
  needsHydration : bool;
  reason : list jsstring;
  suggestedDirective : jsstring
}.

(** The inner function of [analyzeHydrationNeeds]; the pair is the closure's
    [hasInteractiveEvents] and [reasons]. *)
Fixpoint checkNodeForInteractivity (node : MitosisNode)
    (st : bool * list jsstring) : bool * list jsstring :=
  match node with
  | MkNode nodeName _ nodeBindings nodeChildren _ _ =>
      match find (fun kv => has INTERACTIVE_EVENTS (fst kv)) nodeBindings with
      | Some (key, _) =>
          (true,
           snd st ++ [js "Found interactive event: " ++ key ++ js " on " ++ nodeName])
      | None =>
          fold_left (fun st' child => checkNodeForInteractivity child st')
                    nodeChildren st
      end
  end.

Definition analyzeHydrationNeeds (json : MitosisComponent) : HydrationAnalysis :=
  let reasons : list jsstring := [] in
  let needs := false in
  let refs := getRefs json in
  let '(needs, reasons) :=
    if (0 <? length refs)%nat
    then (true, reasons ++ [js "Component uses " ++ ofNat (length refs)
                            ++ js " ref(s): " ++ join (js ", ") refs])
    else (needs, reasons) in
  let '(needs, reasons) :=
    if (0 <? length (onMount (hooks json)))%nat
    then (true, reasons ++ [js "Component has " ++ ofNat (length (onMount (hooks json)))
                            ++ js " onMount hook(s)"])
    else (needs, reasons) in
  let '(needs, reasons) :=
    match onUpdate (hooks json) with
    | Some updates =>
        (true, reasons ++ [js "Component has " ++ ofNat (length updates)
                           ++ js " onUpdate hook(s)"])
    | None => (needs, reasons)
    end in
  let '(hasInteractiveEvents, reasons) :=
    fold_left (fun st child => checkNodeForInteractivity child st)
              (componentChildren json) (false, reasons) in
  let needs := if hasInteractiveEvents then true else needs in
  let directive := CLIENT_DIRECTIVES_load in
  let directive :=
    if hasInteractiveEvents && negb (0 <? length refs)%nat
    then CLIENT_DIRECTIVES_idle else directive in
  let directive :=
    if existsb (fun r => includes (js "onMount") r) reasons
    then CLIENT_DIRECTIVES_load else directive in
  {| needsHydration := needs; reason := reasons; suggestedDirective := directive |}.

(* ------------------------------------------------------------------ *)
(** * processBinding *)

Definition substituteRefs (context : Context) (code : jsstring) : jsstring :=
  match context with
  | Template =>
      replaceRefs (js "props") false (replaceRefs (js "state") false code)
  | Frontmatter =>
      replaceRefs (js "props") true (replaceRefs (js "state") false code)
  end.

Definition processBinding (code : jsstring) (context : Context) : M jsstring :=
  if negb (truthy (trim code)) then ret []
  else
    tryCatch
      (let processed := substituteRefs context code in
       processed <- call (babelTransformExpression processed context) ;;
       ret processed)
      (fun error =>
         consoleWarn (js "Astro: Failed to process binding " ++ quote ++ code
                      ++ quote ++ js ":") error ;;
         ret code).

(* ------------------------------------------------------------------ *)
(** * collectClassString *)

Definition collectClassString (node : MitosisNode) : M jsstring :=
  let classes : list jsstring := [] in
  let classes :=
    if truthy (trim (prop node (js "class")))
    then classes ++ [quote ++ trim (prop node (js "class")) ++ quote]
    else classes in
  let classes :=
    if truthy (trim (prop node (js "className")))
    then classes ++ [quote ++ trim (prop node (js "className")) ++ quote]
    else classes in
  classes <-
    (if truthy (trim (bindingCode node (js "class")))
     then processedCode <- processBinding (bindingCode node (js "class")) Template ;;
          ret (classes ++ [js "(" ++ processedCode ++ js ")"])
     else ret classes) ;;
  classes <-
    (if truthy (trim (bindingCode node (js "className")))
     then processedCode <- processBinding (bindingCode node (js "className")) Template ;;
          ret (classes ++ [js "(" ++ processedCode ++ js ")"])
     else ret classes) ;;
  classes <-
    (if truthy (trim (bindingCode node (js "css")))
     then
       let cssHash := hash (bindingCode node (js "css")) in
       let scopedClassName :=
         kebabCase (if truthy (name node) then name node else js "element")
         ++ js "-" ++ cssHash in
       let classes := classes ++ [quote ++ scopedClassName ++ quote] in
       cssInJsSet scopedClassName (bindingCode node (js "css")) ;;
       ret classes
     else ret classes) ;;
  if (length classes =? 0)%nat then ret []
  else if (length classes =? 1)%nat
          && startsWith quote (nth 0 classes [])
          && endsWith quote (nth 0 classes [])
  then ret (js "class=" ++ nth 0 classes [])
  else
    let classExpression :=
      js "{[" ++ join (js ", ") classes ++ js "].filter(Boolean).join(' ')}" in
    ret (js "class=" ++ classExpression).

(* ------------------------------------------------------------------ *)
(** * blockToAstro *)

(** [for (const x of xs) { acc = step(acc, x) }] *)
Fixpoint forEachM {A X : Type} (step : A -> X -> M A) (xs : list X) (acc : A) : M A :=
  match xs with
  | [] => ret acc
  | x :: xs' => acc' <- step acc x ;; forEachM step xs' acc'
  end.

(** Body of the loop over the static properties. *)
Definition staticProperty (elementString : jsstring) (kv : jsstring * jsstring)
  : jsstring :=
  let '(key, value) := kv in
  if jseqb key (js "class") || jseqb key (js "className") || jseqb key (js "_text")
  then elementString
  else elementString ++ js " " ++ key ++ js "=" ++ quote ++ value ++ quote.

(** Body of the loop over the bindings; the accumulator is [elementString]
    and [needsClientDirective]. *)
Definition dynamicBinding (node : MitosisNode) (acc : jsstring * bool)
    (kv : jsstring * Binding) : M (jsstring * bool) :=
  let '(elementString, needsClientDirective) := acc in
  let '(key, binding) := kv in
  if negb (truthy (trim (code binding))) then ret acc
  else if jseqb key (js "class") || jseqb key (js "className")
          || jseqb key (js "css") || jseqb key (js "_text")
  then ret acc
  else
    let bindingArgs :=
      match arguments binding with Some a => a | None => [js "event"] end in
    match type binding with
    | spread =>
        spreadCode <- processBinding (code binding) Template ;;
        ret (elementString ++ js " {...(" ++ spreadCode ++ js ")}",
             needsClientDirective)
    | single =>
        if jseqb key (js "ref") then
          let refName := camelCase (code binding) in
          ret (elementString ++ js " bind:this={" ++ refName ++ js "}", true)
        else if checkIsEvent key then
          let eventName :=
            if jseqb key (js "onChange") && jseqb (name node) (js "input")
            then js "onInput" else key in
          handlerCode <- processBinding (code binding) Template ;;
          ret (elementString ++ js " " ++ eventName ++ js "={"
               ++ (if async binding then js "async " else [])
               ++ js "(" ++ join (js ",") bindingArgs ++ js ") => "
               ++ handlerCode ++ js "}",
               if has INTERACTIVE_EVENTS key then true else needsClientDirective)
        else if jseqb key (js "innerHTML") then
          htmlCode <- processBinding (code binding) Template ;;
          ret (elementString ++ js " set:html={" ++ htmlCode ++ js "}",
               needsClientDirective)
        else if jseqb key (js "style") then
          styleCode <- processBinding (code binding) Template ;;
          ret (elementString ++ js " style={" ++ styleCode ++ js "}",
               needsClientDirective)
        else
          attrCode <- processBinding (code binding) Template ;;
          ret (elementString ++ js " " ++ key ++ js "={" ++ attrCode ++ js "}",
               needsClientDirective)
    end.

(** The plain-element case of [blockToAstro] from the tag name up to the
    client directive: everything before the test for self-closing tags. *)
Definition elementStart (options : ToAstroOptions) (node : MitosisNode)
  : M jsstring :=
  let elementString := js "<" ++ name node in
  classAttr <- collectClassString node ;;
  let elementString :=
    if truthy classAttr then elementString ++ js " " ++ classAttr
    else elementString in
  let elementString := fold_left staticProperty (properties node) elementString in
  let needsClientDirective := false in
  r <- forEachM (dynamicBinding node) (bindings node)
                (elementString, needsClientDirective) ;;
  let '(elementString, needsClientDirective) := r in
  let disabled :=
    match clientDirective options with
    | Some d => jseqb d (js "none")
    | None => false
    end in
  if needsClientDirective && negb disabled then
    let directive :=
      match clientDirective options with
      | Some d => if truthy d then d else CLIENT_DIRECTIVES_idle
      | None => CLIENT_DIRECTIVES_idle
      end in
    ret (elementString ++ js " " ++ directive)
  else ret elementString.

(** The body of [blockToAstro].  The two recursive uses are passed in:
    [renderedChildren] is
    [node.children.filter(filterEmptyTextNodes).map(child => blockToAstro(child, options))]
    and [renderedElse] is [blockToAstro(node.meta.else, options)], when there
    is an else branch. *)
Definition blockToAstroBody (options : ToAstroOptions) (node : MitosisNode)
    (renderedChildren : M (list jsstring)) (renderedElse : option (M jsstring))
  : M jsstring :=
  (* Handle text nodes *)
  if truthy (prop node (js "_text")) then ret (prop node (js "_text"))
  else if truthy (bindingCode node (js "_text")) then
    processedCode <- processBinding (bindingCode node (js "_text")) Template ;;
    ret (js "{" ++ processedCode ++ js "}")
  (* Handle Fragment - render children without wrapper *)
  else if jseqb (name node) (js "Fragment") then
    rs <- renderedChildren ;;
    ret (join nl rs)
  (* Handle For loops - convert to Astro map syntax *)
  else if checkIsForNode node then
    let forArgs := getForArguments node in
    let itemName := nth 0 forArgs (js "undefined") in
    let indexName := nth 1 forArgs [] in
    eachCode <- processBinding (bindingCode node (js "each")) Template ;;
    rs <- renderedChildren ;;
    let childrenContent := join nl rs in
    ret (js "{" ++ eachCode ++ js ".map((" ++ itemName
         ++ (if truthy indexName then js ", " ++ indexName else [])
         ++ js ") => (" ++ nl ++ js "      " ++ childrenContent ++ nl
         ++ js "    ))}")
  (* Handle Show conditionals - convert to ternary *)
  else if jseqb (name node) (js "Show") then
    whenCode <- processBinding (bindingCode node (js "when")) Template ;;
    rs <- renderedChildren ;;
    let childrenContent := join nl rs in
    elseContent <-
      match renderedElse with
      | Some rendered => rendered
      | None => ret (js "null")
      end ;;
    ret (js "{" ++ whenCode ++ js " ? (" ++ nl ++ js "      "
         ++ childrenContent ++ nl ++ js "    ) : (" ++ elseContent ++ js ")}")
  (* Handle regular elements *)
  else
    elementString <- elementStart options node ;;
    (* Handle self-closing tags *)
    if has SELF_CLOSING_HTML_TAGS (name node) then ret (elementString ++ js " />")
    else
      let elementString := elementString ++ js ">" in
      (* Handle children *)
      elementString <-
        (if truthy (bindingCode node (js "innerHTML")) then
           htmlCode <- processBinding (bindingCode node (js "innerHTML")) Template ;;
           ret (elementString ++ js "{" ++ htmlCode ++ js "}")
         else if (0 <? length (children node))%nat then
           rs <- renderedChildren ;;
           ret (elementString ++ join nl rs)
         else ret elementString) ;;
      ret (elementString ++ js "</" ++ name node ++ js ">").

Fixpoint blockToAstro (options : ToAstroOptions) (node : MitosisNode) {struct node}
  : M jsstring :=
  match node with
  | MkNode _ _ _ nodeChildren nodeMetaElse _ =>
      blockToAstroBody options node
        ((fix renderChildren (cs : list MitosisNode) : M (list jsstring) :=
            match cs with
            | [] => ret []
            | child :: cs' =>
                if filterEmptyTextNodes child
                then r <- blockToAstro options child ;;
                     rs <- renderChildren cs' ;;
                     ret (r :: rs)
                else renderChildren cs'
            end) nodeChildren)
        (match nodeMetaElse with
         | Some elseNode => Some (blockToAstro options elseNode)
         | None => None
         end)
  end.

(** [children.filter(filterEmptyTextNodes).map(child => blockToAstro(child,
    options))], the local function of [blockToAstro] on its own. *)
Definition renderChildren (options : ToAstroOptions)
  : list MitosisNode -> M (list jsstring) :=
  fix renderChildren (cs : list MitosisNode) : M (list jsstring) :=
    match cs with
    | [] => ret []
    | child :: cs' =>
        if filterEmptyTextNodes child
        then r <- blockToAstro options child ;;
             rs <- renderChildren cs' ;;
             ret (r :: rs)
        else renderChildren cs'
    end.

(* ------------------------------------------------------------------ *)
(** * cssObjectToString *)

Definition isOpener (c : N) : bool := ((c =? 40) || (c =? 123))%N.
Definition isCloser (c : N) : bool := ((c =? 41) || (c =? 125))%N.

(** A match of [^\s*[\(\{]\s*] at the start of the text: what follows it. *)
Definition matchOpen (s : jsstring) : option jsstring :=
  match dropWhile isWhiteSpace s with
  | c :: t => if isOpener c then Some (dropWhile isWhiteSpace t) else None
  | [] => None
  end.

(** Does the whole text match [\s*[\)\}]\s*$]? *)
Definition matchClose (s : jsstring) : bool :=
  match dropWhile isWhiteSpace s with
  | c :: t => isCloser c && forallb isWhiteSpace t
  | [] => false
  end.

(** The text before the leftmost match of [\s*[\)\}]\s*$]. *)
Fixpoint dropClose (s : jsstring) : jsstring :=
  if matchClose s then []
  else match s with
       | [] => []
       | c :: s' => c :: dropClose s'
       end.

(** [cssCode.replace(/^\s*[\(\{]\s*|\s*[\)\}]\s*$/g, '')] *)
Definition cleanCss (cssCode : jsstring) : jsstring :=
  match matchOpen cssCode with
  | Some t => dropClose t
  | None => dropClose cssCode
  end.

Definition cssObjectToString (cssCode : jsstring) : M jsstring :=
  tryCatch
    (let cleaned := cleanCss cssCode in
     cssObj <- call (evalObjectEntries (js "return {" ++ cleaned ++ js "}")) ;;
     ret (fold_left
            (fun cssString '(property, value) =>
               cssString ++ js "  " ++ kebabCase property ++ js ": " ++ value
               ++ js ";" ++ nl)
            cssObj []))
    (fun _ =>
       consoleWarn (js "Could not parse CSS-in-JS object:") cssCode ;;
       ret (js "  /* Generated from: " ++ cssCode ++ js " */" ++ nl)).

(* ------------------------------------------------------------------ *)
(** * componentToAstro *)

(** Modelled from the spec: [fastClone], whose source is elsewhere in the
    package, "supplies a deep, independent copy of a Component; no shared
    mutable state with the caller's original". *)
Definition fastClone (component : ref) : M ref :=
  v <- deref component ;;
  alloc v.

(** A call [json = run({ json, plugins })] of a JSON hook runner. *)
Definition runJsonPlugins
    (run : MitosisComponent -> MitosisComponent * option MitosisComponent)
    (json : ref) : M ref :=
  v <- deref json ;;
  let '(v', returned) := run v in
  assign json v' ;;
  match returned with
  | Some other => alloc other
  | None => ret json
  end.

(** Does the text match [/^\s*\([^)]*\)\s*=>/i]? *)
Definition arrowHead (code : jsstring) : bool :=
  match dropWhile isWhiteSpace code with
  | c :: t =>
      (c =? 40)%N &&
      match dropWhile (fun x => negb (x =? 41)%N) t with
      | _ :: t' => startsWith (js "=>") (dropWhile isWhiteSpace t')
      | [] => false
      end
  | [] => false
  end.

(** A match of [\s*<] at the head of the text: what follows it. *)
Definition matchGap (s : jsstring) : option jsstring :=
  match dropWhile isWhiteSpace s with
  | c :: t => if (c =? 60)%N then Some t else None
  | [] => None
  end.

(** [output.replace(/>\s*</g, '>\n<')]; the length of the text is fuel
    enough. *)
Fixpoint formatFrom (fuel : nat) (s : jsstring) : jsstring :=
  match fuel with
  | O => s
  | S fuel' =>
      match s with
      | [] => []
      | c :: s' =>
          match (if (c =? 62)%N then matchGap s' else None) with
          | Some rest => js ">" ++ nl ++ js "<" ++ formatFrom fuel' rest
          | None => c :: formatFrom fuel' s'
          end
      end
  end.

Definition format (output : jsstring) : jsstring :=
  formatFrom (length output) output.

Definition componentToAstro (userOptions : ToAstroOptions) (component : ref)
  : M jsstring :=
  (* Clone and initialize *)
  json <- fastClone component ;;
  original <- deref component ;;
  let defaults :=
    {| typescript :=
         match typescript userOptions with Some b => Some b | None => Some true end;
       clientDirective :=
         match clientDirective userOptions with
         | Some d => Some d
         | None => Some CLIENT_DIRECTIVES_idle
         end;
       prettier := prettier userOptions;
       plugins := plugins userOptions;
       explicitImportFileExtension := explicitImportFileExtension userOptions |} in
  let options := initializeOptions original defaults in
  cssInJsInit (Some []) ;;
  (* Run pre-JSON plugins *)
  json <- match plugins options with
          | Some ps => runJsonPlugins (runPreJsonPlugins ps) json
          | None => ret json
          end ;;
  (* Analyze component characteristics *)
  v <- deref json ;;
  let hydrationAnalysis := analyzeHydrationNeeds v in
  let hasState := (0 <? length (state v))%nat in
  let componentHasProps := hasProps v in
  let refs := getRefs v in
  (* Collect CSS with proper prefix *)
  let '(css, v') := collectCss v (hashComponent v) in
  assign json v' ;;
  (* Run post-JSON plugins *)
  json <- match plugins options with
          | Some ps => runJsonPlugins (runPostJsonPlugins ps) json
          | None => ret json
          end ;;
  v <- deref json ;;
  assign json (stripMetaProperties v) ;;
  v <- deref json ;;
  (* Generate frontmatter section *)
  let frontmatter : jsstring := [] in
  let imports := renderPreComponent v (explicitImportFileExtension options) in
  let frontmatter :=
    if truthy (trim imports) then frontmatter ++ imports ++ nl ++ nl
    else frontmatter in
  let frontmatter :=
    if match typescript options with Some b => b | None => false end
       && componentHasProps
    then
      let propsType :=
        match propsTypeRef v with
        | Some t => if truthy t then t else js "Props"
        | None => js "Props"
        end in
      frontmatter ++ js "interface " ++ propsType ++ js " {" ++ nl
      ++ (if (0 <? length (props v))%nat
          then fold_left
                 (fun acc '(propName, propDef) =>
                    let propType :=
                      match propertyType propDef with
                      | Some t => if truthy t then t else js "any"
                      | None => js "any"
                      end in
                    let opt :=
                      match optional propDef with
                      | Some false => []
                      | _ => js "?"
                      end in
                    acc ++ js "  " ++ propName ++ opt ++ js ": " ++ propType
                    ++ js ";" ++ nl)
                 (props v) []
          else js "  [key: string]: any;" ++ nl)
      ++ js "}" ++ nl ++ nl
      ++ js "const props = Astro.props as " ++ propsType ++ js ";" ++ nl
    else if componentHasProps
    then frontmatter ++ js "const props = Astro.props;" ++ nl
    else frontmatter in
  (* Add state declarations *)
  frontmatter <-
    (if hasState then
       forEachM
         (fun frontmatter '(key, stateCode) =>
            if negb (truthy stateCode) then ret frontmatter
            else
              processedCode <- processBinding stateCode Frontmatter ;;
              let isFunction :=
                includes (js "function") stateCode
                || includes (js "=>") stateCode
                || arrowHead stateCode in
              if isFunction
              then ret (frontmatter ++ js "const " ++ key ++ js " = "
                        ++ processedCode ++ js ";" ++ nl)
              else ret (frontmatter ++ js "let " ++ key ++ js " = "
                        ++ processedCode ++ js ";" ++ nl))
         (state v) (frontmatter ++ nl ++ js "// Component state" ++ nl)
     else ret frontmatter) ;;
  (* Add refs *)
  let frontmatter :=
    if (0 <? length refs)%nat
    then fold_left
           (fun acc r => acc ++ js "let " ++ camelCase r ++ js ";" ++ nl)
           refs (frontmatter ++ nl ++ js "// Component refs" ++ nl)
    else frontmatter in
  (* Add initialization hooks *)
  frontmatter <-
    match onInit (hooks v) with
    | Some init =>
        if truthy (hookCode init) then
          processed <- processBinding (hookCode init) Frontmatter ;;
          ret (frontmatter ++ nl ++ js "// Component initialization" ++ nl
               ++ processed ++ nl)
        else ret frontmatter
    | None => ret frontmatter
    end ;;
  (* Generate template *)
  rendered <- forEachM
                (fun acc child =>
                   if filterEmptyTextNodes child
                   then r <- blockToAstro options child ;; ret (acc ++ [r])
                   else ret acc)
                (componentChildren v) [] ;;
  let template := join nl rendered in
  (* Generate client-side script for hydration *)
  clientScript <-
    (if needsHydration hydrationAnalysis then
       let clientScript := nl ++ js "<script>" ++ nl in
       clientScript <-
         (if (0 <? length (onMount (hooks v)))%nat then
            forEachM
              (fun acc hook =>
                 processed <- processBinding (hookCode hook) Template ;;
                 ret (acc ++ js "  " ++ processed ++ js ";" ++ nl))
              (onMount (hooks v)) (clientScript ++ js "  // Mount hooks" ++ nl)
          else ret clientScript) ;;
       clientScript <-
         match onUpdate (hooks v) with
         | Some updates =>
             forEachM
               (fun acc hook =>
                  processed <- processBinding (hookCode hook) Template ;;
                  ret (acc ++ js "  " ++ processed ++ js ";" ++ nl))
               updates (clientScript ++ js "  // Update hooks" ++ nl)
         | None => ret clientScript
         end ;;
       ret (clientScript ++ js "</script>")
     else ret []) ;;
  (* Generate styles *)
  let styles : jsstring := [] in
  let styles := if truthy (trim css) then styles ++ css else styles in
  collected <- cssInJsGet ;;
  styles <-
    match collected with
    | Some entries =>
        forEachM
          (fun styles '(className, cssCode) =>
             cssString <- cssObjectToString cssCode ;;
             if truthy (trim cssString)
             then ret (styles ++ js "." ++ className ++ js " {" ++ nl
                       ++ cssString ++ js "}" ++ nl ++ nl)
             else ret styles)
          entries styles
    | None => ret styles
    end ;;
  let styles :=
    if truthy (trim styles)
    then nl ++ js "<style>" ++ nl ++ trim styles ++ nl ++ js "</style>"
    else styles in
  (* Assemble final output *)
  let output : jsstring := [] in
  let output :=
    if truthy (trim frontmatter)
    then output ++ js "---" ++ nl ++ trim frontmatter ++ nl ++ js "---" ++ nl ++ nl
    else output in
  let output := output ++ template in
  let output := output ++ clientScript in
  let output := output ++ styles in
  (* Run code plugins *)
  v <- deref json ;;
  let output :=
    match plugins options with
    | Some ps => runPreCodePlugins ps v output
    | None => output
    end in
  (* Format output *)
  let output :=
    match prettier options with
    | Some false => output
    | _ => format output
    end in
  let output :=
    match plugins options with
    | Some ps => runPostCodePlugins ps v output
    | None => output
    end in
  ret output.

(* ------------------------------------------------------------------ *)
(** * What the statements say of the generator's results *)

(** The text that [processBinding] answers with, and the world it leaves. *)
Definition processBindingText (code : jsstring) (context : Context) : jsstring :=
  if negb (truthy (trim code)) then []
  else match babelTransformExpression (substituteRefs context code) context with
       | Normal processed => processed
       | Throw _ => code
       end.

Definition processBindingWorld (code : jsstring) (context : Context) (w : World)
  : World :=
  if negb (truthy (trim code)) then w
  else match babelTransformExpression (substituteRefs context code) context with
       | Normal _ => w
       | Throw error =>
           {| heap := heap w; cssInJs := cssInJs w;
              console := console w
                         ++ [(js "Astro: Failed to process binding " ++ quote
                              ++ code ++ quote ++ js ":") ++ js " " ++ error] |}
       end.

(** The entries that the spec has [collectClassString] collect, in order: the
    literal [class], the literal [className], the processed [class] binding,
    the processed [className] binding, the scoped class of the style-object
    binding; blank sources contribute nothing. *)
Definition classEntries (node : MitosisNode) : list jsstring :=
  (if truthy (trim (prop node (js "class")))
   then [quote ++ trim (prop node (js "class")) ++ quote] else [])
  ++ (if truthy (trim (prop node (js "className")))
      then [quote ++ trim (prop node (js "className")) ++ quote] else [])
  ++ (if truthy (trim (bindingCode node (js "class")))
      then [js "(" ++ processBindingText (bindingCode node (js "class")) Template
            ++ js ")"] else [])
  ++ (if truthy (trim (bindingCode node (js "className")))
      then [js "(" ++ processBindingText (bindingCode node (js "className")) Template
            ++ js ")"] else [])
  ++ (if truthy (trim (bindingCode node (js "css")))
      then [quote
            ++ (kebabCase (if truthy (name node) then name node else js "element")
                ++ js "-" ++ hash (bindingCode node (js "css")))
            ++ quote] else []).

(** The filtered-join expression over the entries. *)
Definition filterJoin (entries : list jsstring) : jsstring :=
  js "class={[" ++ join (js ", ") entries ++ js "].filter(Boolean).join(' ')}".

(** The final choice of [collectClassString] among nothing, the direct form
    and the expression form. *)
Definition classAttribute (classes : list jsstring) : jsstring :=
  if (length classes =? 0)%nat then []
  else if (length classes =? 1)%nat
          && startsWith quote (nth 0 classes [])
          && endsWith quote (nth 0 classes [])
  then js "class=" ++ nth 0 classes []
  else filterJoin classes.

(** The marker that [blockToAstro] appends: the configured directive, or
    [client:idle]. *)
Definition directiveOf (options : ToAstroOptions) : jsstring :=
  match clientDirective options with
  | Some d => if truthy d then d else CLIENT_DIRECTIVES_idle
  | None => CLIENT_DIRECTIVES_idle
  end.

End Generator.

(* ------------------------------------------------------------------ *)
(** * The earlier revision *)

Module Legacy.

(** [processBinding] of the earlier revision: the same two substitutions,
    nothing else; its try block cannot throw. *)
Definition processBinding (code : jsstring) (context : Context) : jsstring :=
  match context with
  | Template =>
      replaceRefs (js "props") false (replaceRefs (js "state") false code)
  | Frontmatter =>
      replaceRefs (js "props") true (replaceRefs (js "state") false code)
  end.

(** The other functions of the earlier revision, up to the node renderer.
    A binding that is present has a string as its [code], as its type says;
    the processor gets [undefined] only where the binding itself is
    missing. *)

Section Earlier.

Context {collaborators : Collaborators}.

(** [String.prototype.toLowerCase], a library function. *)
Variable toLowerCase : jsstring -> jsstring.

(** [babelTransformExpression] with the visitor of the earlier revision's
    [style] case, which turns every named key of an object literal into a
    hyphenated string literal; it may throw. *)
Variable transformStyle : jsstring -> completion jsstring.

Definition HYDRATION_EVENTS : list jsstring := map js
  [ "onClick"; "onChange"; "onInput"; "onSubmit"; "onFocus"; "onBlur";
    "onMouseOver"; "onMouseOut"; "onKeyDown"; "onKeyUp"; "onScroll" ]%string.

(** The inner function of [needsHydration]. *)
Fixpoint checkNodeForEvents (node : MitosisNode) : bool :=
  match node with
  | MkNode _ _ nodeBindings nodeChildren _ _ =>
      if existsb (fun kv => checkIsEvent (fst kv)) nodeBindings then true
      else existsb checkNodeForEvents nodeChildren
  end.

Definition needsHydration (json : MitosisComponent) : bool :=
  let needsClient := false in
  let refs := getRefs json in
  let needsClient := if (0 <? length refs)%nat then true else needsClient in
  let needsClient :=
    if (0 <? length (onMount (hooks json)))%nat then true else needsClient in
  let needsClient :=
    match onUpdate (hooks json) with Some _ => true | None => needsClient end in
  let needsClient :=
    if existsb checkNodeForEvents (componentChildren json) then true
    else needsClient in
  needsClient.

(** [collectClassString] of the earlier revision: nothing is trimmed, the
    code of a binding is pushed as it is, and the result has no [class=] in
    front. *)
Definition collectClassString (json : MitosisNode) : M jsstring :=
  let classes : list jsstring := [] in
  let classes :=
    if truthy (prop json (js "class"))
    then classes ++ [quote ++ prop json (js "class") ++ quote]
    else classes in
  let classes :=
    if truthy (prop json (js "className"))
    then classes ++ [quote ++ prop json (js "className") ++ quote]
    else classes in
  let classes :=
    if truthy (bindingCode json (js "class"))
    then classes ++ [processBinding (bindingCode json (js "class")) Template]
    else classes in
  let classes :=
    if truthy (bindingCode json (js "className"))
    then classes
         ++ [processBinding (bindingCode json (js "className")) Template]
    else classes in
  classes <-
    (if truthy (bindingCode json (js "css"))
     then
       let cssHash := hash (bindingCode json (js "css")) in
       let scopedClassName := name json ++ js "-" ++ cssHash in
       let classes := classes ++ [quote ++ scopedClassName ++ quote] in
       cssInJsSet scopedClassName (bindingCode json (js "css")) ;;
       ret classes
     else ret classes) ;;
  if (length classes =? 0)%nat then ret []
  else if (length classes =? 1)%nat
          && startsWith quote (nth 0 classes [])
          && endsWith quote (nth 0 classes [])
  then ret (nth 0 classes [])
  else ret (js "{[" ++ join (js ", ") classes ++ js "].filter(Boolean).join(' ')}").

(** [property.replace(/([A-Z])/g, '-$1')] *)
Fixpoint hyphenate (s : jsstring) : jsstring :=
  match s with
  | [] => []
  | c :: s' =>
      if ((65 <=? c) && (c <=? 90))%N then 45%N :: c :: hyphenate s'
      else c :: hyphenate s'
  end.

Definition cssObjectToString (cssCode : jsstring) : M jsstring :=
  tryCatch
    (cssObj <- call (evalObjectEntries (js "return " ++ cssCode)) ;;
     ret (fold_left
            (fun cssString '(property, value) =>
               let cssProperty := toLowerCase (hyphenate property) in
               cssString ++ js "  " ++ cssProperty ++ js ": " ++ value
               ++ js ";" ++ nl)
            cssObj []))
    (fun _ =>
       consoleWarn (js "Could not parse CSS-in-JS:") cssCode ;;
       ret []).

(** [processBinding(options.component, binding?.code as string, 'template')]
    inside a template literal.  Without the binding the code is [undefined]:
    [undefined.replace] throws inside the try block, the catch block prints a
    line on the console and returns [undefined], and the template literal
    prints it as such. *)
Definition processBindingOf (b : option Binding) : M jsstring :=
  match b with
  | Some b => ret (processBinding (code b) Template)
  | None =>
      consoleWarn (js "Astro: could not process binding") (js "undefined") ;;
      ret (js "undefined")
  end.

(** Body of the loop over the properties. *)
Definition staticProperty (str : jsstring) (kv : jsstring * jsstring) : jsstring :=
  let '(key, value) := kv in
  if jseqb key (js "class") || jseqb key (js "className") then str
  else str ++ js " " ++ key ++ js "=" ++ quote ++ value ++ quote.

(** Body of the loop over the bindings; the accumulator is [str] and
    [hasClientDirective]. *)
Definition dynamicBinding (json : MitosisNode) (acc : jsstring * bool)
    (kv : jsstring * Binding) : M (jsstring * bool) :=
  let '(str, hasClientDirective) := acc in
  let '(key, binding) := kv in
  if jseqb key (js "class") || jseqb key (js "className") || jseqb key (js "css")
  then ret acc
  else
    let cusArgs :=
      match arguments binding with Some a => a | None => [js "event"] end in
    if negb (truthy (code binding)) then ret acc
    else
      match type binding with
      | spread =>
          ret (str ++ js " {...(" ++ processBinding (code binding) Template
               ++ js ")}",
               hasClientDirective)
      | single =>
          if jseqb key (js "ref") then
            ret (str ++ js " bind:this={" ++ camelCase (code binding) ++ js "}", true)
          else if checkIsEvent key then
            let useKey :=
              if jseqb key (js "onChange") && jseqb (name json) (js "input")
              then js "onInput" else key in
            let asyncKeyword := if async binding then js "async " else [] in
            ret (str ++ js " " ++ useKey ++ js "={" ++ asyncKeyword
                 ++ js "(" ++ join (js ",") cusArgs ++ js ") => "
                 ++ processBinding (code binding) Template ++ js "}",
                 if has HYDRATION_EVENTS key then true else hasClientDirective)
          else if jseqb key (js "innerHTML") then
            ret (str ++ js " set:html={"
                 ++ processBinding (code binding) Template ++ js "}",
                 hasClientDirective)
          else if jseqb key (js "style") then
            styleCode <- call (transformStyle (code binding)) ;;
            ret (str ++ js " style={" ++ processBinding styleCode Template
                 ++ js "}",
                 hasClientDirective)
          else
            ret (str ++ js " " ++ key ++ js "={"
                 ++ processBinding (code binding) Template ++ js "}",
                 hasClientDirective)
      end.

(** The plain-element case of [blockToAstro] from the tag name up to the
    client directive. *)
Definition elementStart (options : ToAstroOptions) (json : MitosisNode)
  : M jsstring :=
  let str := js "<" ++ name json in
  classString <- collectClassString json ;;
  let str :=
    if truthy classString then str ++ js " class=" ++ classString else str in
  let str := fold_left staticProperty (properties json) str in
  let hasClientDirective := false in
  r <- forEachM (dynamicBinding json) (bindings json) (str, hasClientDirective) ;;
  let '(str, hasClientDirective) := r in
  let disabled :=
    match clientDirective options with
    | Some d => jseqb d (js "none")
    | None => false
    end in
  if hasClientDirective && negb disabled then
    let directive :=
      match clientDirective options with
      | Some d => if truthy d then d else js "client:load"
      | None => js "client:load"
      end in
    ret (str ++ js " " ++ directive)
  else ret str.

(** The body of [blockToAstro].  The recursive uses are passed in:
    [allChildren] is [json.children.map(child => blockToAstro(child, options))],
    [renderedChildren] the same after [.filter(filterEmptyTextNodes)], and
    [renderedElse] is [blockToAstro(json.meta.else, options)], when there is
    an else branch. *)
Definition blockToAstroBody (options : ToAstroOptions) (json : MitosisNode)
    (allChildren renderedChildren : M (list jsstring))
    (renderedElse : option (M jsstring)) : M jsstring :=
  if truthy (prop json (js "_text")) then ret (prop json (js "_text"))
  else if truthy (bindingCode json (js "_text")) then
    ret (js "{" ++ processBinding (bindingCode json (js "_text")) Template
         ++ js "}")
  else if jseqb (name json) (js "Fragment") then
    rs <- allChildren ;;
    ret (join nl rs)
  else if checkIsForNode json then
    let forArguments := getForArguments json in
    let itemName := nth 0 forArguments (js "undefined") in
    let indexName := nth 1 forArguments [] in
    eachCode <- processBindingOf (lookup (js "each") (bindings json)) ;;
    rs <- renderedChildren ;;
    ret (js "{" ++ eachCode ++ js ".map((" ++ itemName
         ++ (if truthy indexName then js ", " ++ indexName else [])
         ++ js ") => (" ++ nl ++ js "      " ++ join nl rs ++ nl
         ++ js "    ))}")
  else if jseqb (name json) (js "Show") then
    whenCode <- processBindingOf (lookup (js "when") (bindings json)) ;;
    elseBlock <-
      match renderedElse with
      | Some rendered => rendered
      | None => ret []
      end ;;
    rs <- renderedChildren ;;
    ret (js "{" ++ whenCode ++ js " ? (" ++ nl ++ js "      " ++ join nl rs ++ nl
         ++ js "    ) : "
         ++ (if truthy elseBlock then js "(" ++ elseBlock ++ js ")" else js "null")
         ++ js "}")
  else
    str <- elementStart options json ;;
    if has SELF_CLOSING_HTML_TAGS (name json) then ret (str ++ js " />")
    else
      let str := str ++ js ">" in
      str <-
        (if truthy (bindingCode json (js "innerHTML")) then
           ret (str ++ js "{"
                ++ processBinding (bindingCode json (js "innerHTML")) Template
                ++ js "}")
         else
           rs <- renderedChildren ;;
           ret (str ++ join nl rs)) ;;
      ret (str ++ js "</" ++ name json ++ js ">").

Fixpoint blockToAstro (options : ToAstroOptions) (json : MitosisNode) {struct json}
  : M jsstring :=
  match json with
  | MkNode _ _ _ nodeChildren nodeMetaElse _ =>
      blockToAstroBody options json
        ((fix renderAll (cs : list MitosisNode) : M (list jsstring) :=
            match cs with
            | [] => ret []
            | child :: cs' =>
                r <- blockToAstro options child ;;
                rs <- renderAll cs' ;;
                ret (r :: rs)
            end) nodeChildren)
        ((fix renderChildren (cs : list MitosisNode) : M (list jsstring) :=
            match cs with
            | [] => ret []
            | child :: cs' =>
                if filterEmptyTextNodes child
                then r <- blockToAstro options child ;;
                     rs <- renderChildren cs' ;;
                     ret (r :: rs)
                else renderChildren cs'
            end) nodeChildren)
        (match nodeMetaElse with
         | Some elseNode => Some (blockToAstro options elseNode)
         | None => None
         end)
  end.

(** [children.map(child => blockToAstro(child, options))] and the same after
    [.filter(filterEmptyTextNodes)], the local functions of [blockToAstro] on
    their own. *)
Definition renderAll (options : ToAstroOptions)
  : list MitosisNode -> M (list jsstring) :=
  fix renderAll (cs : list MitosisNode) : M (list jsstring) :=
    match cs with
    | [] => ret []
    | child :: cs' =>
        r <- blockToAstro options child ;;
        rs <- renderAll cs' ;;
        ret (r :: rs)
    end.

Definition renderChildren (options : ToAstroOptions)
  : list MitosisNode -> M (list jsstring) :=
  fix renderChildren (cs : list MitosisNode) : M (list jsstring) :=
    match cs with
    | [] => ret []
    | child :: cs' =>
        if filterEmptyTextNodes child
        then r <- blockToAstro options child ;;
             rs <- renderChildren cs' ;;
             ret (r :: rs)
        else renderChildren cs'
    end.

End Earlier.

End Legacy.

(* ------------------------------------------------------------------ *)
(** * Notions of the statements *)

(** No binding of the node or of a descendant is named in
    [INTERACTIVE_EVENTS]. *)
Fixpoint noInteractiveEvents (node : MitosisNode) : bool :=
  match node with
  | MkNode _ _ nodeBindings nodeChildren _ _ =>
      negb (existsb (fun kv => has INTERACTIVE_EVENTS (fst kv)) nodeBindings)
      && forallb noInteractiveEvents nodeChildren
  end.

(** The warning that the catch block of [processBinding] prints. *)
Definition bindingWarning (code error : jsstring) : jsstring :=
  js "Astro: Failed to process binding " ++ quote ++ code ++ quote ++ js ":"
  ++ js " " ++ error.

(** The world after one more line on the console. *)
Definition warned (w : World) (message : jsstring) : World :=
  {| heap := heap w; cssInJs := cssInJs w; console := console w ++ [message] |}.

(** The text is empty or starts with a character that is not a word
    character. *)
Definition headNonWord (s : jsstring) : bool :=
  match s with
  | [] => true
  | y :: _ => negb (isWordChar y)
  end.

(** The text is empty or ends with a character that is neither a word
    character nor a dot: what follows is not a member of what precedes. *)
Definition endsBare (s : jsstring) : bool :=
  match rev s with
  | [] => true
  | y :: _ => negb (isWordChar y) && negb (y =? 46)%N
  end.

(** The scan of the global replace as a relation between the flag
    [prevWord], the text and the result: the text ends, or a character is
    copied because no match starts at it, or a match is replaced. *)
Inductive Scan (container : jsstring) (keep : bool)
  : bool -> jsstring -> jsstring -> Prop :=
| Scan_end (prevWord : bool) : Scan container keep prevWord [] []
| Scan_copy (prevWord : bool) (x : N) (s out : jsstring) :
    (if prevWord then None else matchRef container (x :: s)) = None ->
    Scan container keep (isWordChar x) s out ->
    Scan container keep prevWord (x :: s) (x :: out)
| Scan_match (x : N) (s name rest out : jsstring) :
    matchRef container (x :: s) = Some (name, rest) ->
    Scan container keep true rest out ->
    Scan container keep false (x :: s)
         ((if keep then container ++ js "." else []) ++ name ++ out).

(** Does a match of [\b<container>\.\w+] start somewhere in the text? *)
Fixpoint containsRef (container : jsstring) (prevWord : bool) (s : jsstring)
  : bool :=
  match s with
  | [] => false
  | x :: s' =>
      negb prevWord
      && match matchRef container s with Some _ => true | None => false end
      || containsRef container (isWordChar x) s'
  end.

(** The code has no member chain through a member called like a container
    that the context substitutes: no [.state.], and in the template context no
    [.props.] either. *)
Definition noChain (context : Context) (code : jsstring) : bool :=
  match context with
  | Template =>
      negb (includes (js ".state.") code) && negb (includes (js ".props.") code)
  | Frontmatter => negb (includes (js ".state.") code)
  end.

(** The text has no reference that the context rewrites. *)
Definition refFree (context : Context) (text : jsstring) : bool :=
  match context with
  | Template =>
      negb (containsRef (js "state") false text)
      && negb (containsRef (js "props") false text)
  | Frontmatter => negb (containsRef (js "state") false text)
  end.

(** What the fixed point needs of the expression transform: it accepts and
    keeps its own results, it brings no reference about, and its result for a
    text that is not blank is not blank either, unless it is empty. *)
Definition stableTransform
    (transform : jsstring -> Context -> completion jsstring) : Prop :=
  forall text context result,
    transform text context = Normal result ->
    transform result context = Normal result
    /\ (refFree context text = true -> refFree context result = true)
    /\ (truthy (trim text) = true -> result = [] \/ truthy (trim result) = true).

(** The component objects that were there when the heap had [size] objects
    are still there, unchanged. *)
Definition keepsOld (size : nat) (w w' : World) : Prop :=
  (size <= length (heap w'))%nat
  /\ forall r, (r < size)%nat -> nth_error (heap w') r = nth_error (heap w) r.

(** A computation that leaves the first [size] objects alone, and whose
    result satisfies [post] when it completes normally. *)
Definition frames {A : Type} (size : nat) (c : M A) (post : A -> Prop) : Prop :=
  forall w,
    (size <= length (heap w))%nat ->
    keepsOld size w (snd (c w))
    /\ match fst (c w) with
       | Normal a => post a
       | Throw _ => True
       end.

(** A computation that does not touch the heap at all. *)
Definition heapNeutral {A : Type} (c : M A) : Prop :=
  forall w, heap (snd (c w)) = heap w.

(** The test holds of the node and of every descendant through [children]. *)
Fixpoint everyNode (test : MitosisNode -> bool) (node : MitosisNode) : bool :=
  match node with
  | MkNode _ _ _ nodeChildren _ _ =>
      test node && forallb (everyNode test) nodeChildren
  end.

(** A decimal digit. *)
Definition isDigit (c : N) : bool := ((48 <=? c) && (c <=? 57))%N.

(** The class name under which [collectClassString] registers the style
    object of a node. *)
Definition scopedClassName {collaborators : Collaborators} (node : MitosisNode)
  : jsstring :=
  kebabCase (if truthy (name node) then name node else js "element")
  ++ js "-" ++ hash (bindingCode node (js "css")).

(** The entries of the style registry [options.cssInJs]; none when the map is
    absent. *)
Definition registry (w : World) : list (jsstring * jsstring) :=
  match cssInJs w with Some m => m | None => [] end.

(** The reference is to an object of the heap. *)
Definition valid (r : ref) (w : World) : Prop := (r < length (heap w))%nat.

(** A computation that completes normally from every world that satisfies
    [pre], with a result and a world that satisfy [post]. *)
Definition completes {A : Type} (pre : World -> Prop) (c : M A)
    (post : A -> World -> Prop) : Prop :=
  forall w, pre w -> exists a w', c w = (Normal a, w') /\ post a w'.

(** A computation that completes normally from every world and leaves the
    heap as it is. *)
Definition steady {A : Type} (c : M A) : Prop :=
  forall w, exists a w', c w = (Normal a, w') /\ heap w' = heap w.

(** A computation that only ever appends to the console. *)
Definition consoleGrows {A : Type} (c : M A) : Prop :=
  forall w, exists more, console (snd (c w)) = console w ++ more.

(* ------------------------------------------------------------------ *)
(** * Induction over a node and its descendants *)

Section NodeInduction.

Variable P : MitosisNode -> Prop.
Hypothesis step :
  forall nodeName nodeProperties nodeBindings nodeChildren nodeMetaElse nodeScope,
    Forall P nodeChildren ->
    match nodeMetaElse with Some elseNode => P elseNode | None => True end ->
    P (MkNode nodeName nodeProperties nodeBindings nodeChildren nodeMetaElse nodeScope).

Fixpoint MitosisNode_tree_ind (node : MitosisNode) : P node :=
  match node with
  | MkNode n p b cs me sc =>
      step n p b cs me sc
        ((fix all (l : list MitosisNode) : Forall P l :=
            match l with
            | [] => Forall_nil P
            | c :: l' => Forall_cons c (MitosisNode_tree_ind c) (all l')
            end) cs)
        (match me as o return match o with Some e => P e | None => True end with
         | Some e => MitosisNode_tree_ind e
         | None => I
         end)
  end.

End NodeInduction.

(* ------------------------------------------------------------------ *)
(** * A reference set of collaborators *)

(** All [ref] bindings of a forest, in document order. *)
Fixpoint refCodes (node : MitosisNode) : list jsstring :=
  match node with
  | MkNode _ _ nodeBindings nodeChildren _ _ =>
      match lookup (js "ref") nodeBindings with
      | Some b => [code b]
      | None => []
      end ++ flat_map refCodes nodeChildren
  end.

Fixpoint dedupe (xs : list jsstring) : list jsstring :=
  match xs with
  | [] => []
  | x :: xs' => x :: filter (fun y => negb (jseqb x y)) (dedupe xs')
  end.

(** Modelled from the spec: the collaborators, whose sources are elsewhere
    in the package, in the simplest form that meets the contracts of the
    spec's section on external interfaces.  The expression transform primitive
    "applies the single structural rewrite (style-object key hyphenation)" and
    is otherwise a black box: here it returns every text as it is, which is
    right for text without object literals.  An event-style name starts with
    [on]; an empty text node is one whose literal text is blank; the
    repetition marker is [For]; the refs are the [ref] bindings of the tree;
    the self-closing set is that of the void elements of HTML; the option
    merge, the import renderer, the CSS collector, the metadata stripper and
    the plugin hooks do nothing (no imports, no rules, no annotations, no
    plugins).  [hash], [kebabCase] and [camelCase] stand for the library
    functions of these names on arguments that they leave alone.  These
    collaborators serve the instances and the concrete runs only; the general
    statements are about arbitrary collaborators. *)
Definition referenceCollaborators : Collaborators := {|
  babelTransformExpression := fun code _ => Normal code;
  checkIsEvent := fun key => startsWith (js "on") key;
  filterEmptyTextNodes := fun node =>
    negb (match lookup (js "_text") (properties node) with
          | Some text => negb (truthy (trim text))
          | None => false
          end);
  checkIsForNode := fun node => jseqb (name node) (js "For");
  getForArguments := fun node =>
    filter truthy
      [ match forName (scope node) with
        | Some x => if truthy x then x else js "item"
        | None => js "item"
        end;
        match indexName (scope node) with Some x => x | None => [] end;
        match collectionName (scope node) with Some x => x | None => [] end ];
  getRefs := fun json => dedupe (flat_map refCodes (componentChildren json));
  SELF_CLOSING_HTML_TAGS := map js
    [ "area"; "base"; "br"; "col"; "embed"; "hr"; "img"; "input"; "keygen";
      "link"; "meta"; "param"; "source"; "track"; "wbr" ]%string;
  hash := fun s => ofNat (length s);
  kebabCase := fun s => s;
  camelCase := fun s => s;
  initializeOptions := fun _ defaults => defaults;
  hasProps := fun json => (0 <? length (props json))%nat;
  hashComponent := fun _ => js "0";
  renderPreComponent := fun _ _ => [];
  collectCss := fun json _ => ([], json);
  stripMetaProperties := fun json => json;
  runPreJsonPlugins := fun _ json => (json, None);
  runPostJsonPlugins := fun _ json => (json, None);
  runPreCodePlugins := fun _ _ output => output;
  runPostCodePlugins := fun _ _ output => output;
  evalObjectEntries := fun _ => Throw (js "SyntaxError")
|}.

(** The same collaborators with an expression transform that rejects every
    text. *)
Definition rejectingCollaborators : Collaborators := {|
  babelTransformExpression := fun _ _ => Throw (js "SyntaxError");
  checkIsEvent := @checkIsEvent referenceCollaborators;
  filterEmptyTextNodes := @filterEmptyTextNodes referenceCollaborators;
  checkIsForNode := @checkIsForNode referenceCollaborators;
  getForArguments := @getForArguments referenceCollaborators;
  getRefs := @getRefs referenceCollaborators;
  SELF_CLOSING_HTML_TAGS := @SELF_CLOSING_HTML_TAGS referenceCollaborators;
  hash := @hash referenceCollaborators;
  kebabCase := @kebabCase referenceCollaborators;
  camelCase := @camelCase referenceCollaborators;
  initializeOptions := @initializeOptions referenceCollaborators;
  hasProps := @hasProps referenceCollaborators;
  hashComponent := @hashComponent referenceCollaborators;
  renderPreComponent := @renderPreComponent referenceCollaborators;
  collectCss := @collectCss referenceCollaborators;
  stripMetaProperties := @stripMetaProperties referenceCollaborators;
  runPreJsonPlugins := @runPreJsonPlugins referenceCollaborators;
  runPostJsonPlugins := @runPostJsonPlugins referenceCollaborators;
  runPreCodePlugins := @runPreCodePlugins referenceCollaborators;
  runPostCodePlugins := @runPostCodePlugins referenceCollaborators;
  evalObjectEntries := @evalObjectEntries referenceCollaborators
|}.

(** Sample values. *)
Definition emptyWorld : World := {| heap := []; cssInJs := None; console := [] |}.

Definition noScope : ForScope :=
  {| forName := None; indexName := None; collectionName := None |}.

Definition element (tag : string) (properties : list (jsstring * jsstring))
    (bindings : list (jsstring * Binding)) (children : list MitosisNode)
  : MitosisNode :=
  MkNode (js tag) properties bindings children None noScope.

Definition binding (source : string) : Binding :=
  {| code := js source; arguments := None; type := single; async := false |}.

Definition defaultOptions : ToAstroOptions :=
  {| clientDirective := None; typescript := None; prettier := None;
     plugins := None; explicitImportFileExtension := None |}.

Definition componentOf (mount : list Hook) (update : option (list Hook))
    (nodes : list MitosisNode) : MitosisComponent :=
  {| state := []; props := [];
     hooks := {| onInit := None; onMount := mount; onUpdate := update |};
     componentChildren := nodes; propsTypeRef := None; others := [] |}.

(* ================================================================== *)
(** * Properties *)

Example replaceRefs_state :
  replaceRefs (js "state") false
    (js "state.count + mystate.x + a.state.b1 - state. state.$")
  = js "count + mystate.x + a.b1 - state. state.$".
Proof. reflexivity. Qed.

Example replaceRefs_props_kept :
  replaceRefs (js "props") true (js "props.a(props.b)") = js "props.a(props.b)".
Proof. reflexivity. Qed.

Example blockToAstro_button :
  fst (@blockToAstro referenceCollaborators defaultOptions
         (element "button" [(js "class", js " primary ")]
            [(js "onClick", binding "state.count++")]
            [element "div" [(js "_text", js "Add")] [] []])
         emptyWorld)
  = Normal (js "<button class=" ++ quote ++ js "primary" ++ quote
            ++ js " onClick={(event) => count++} client:idle>Add</button>").
Proof. reflexivity. Qed.

Example legacy_processBinding_blank :
  Legacy.processBinding (js "  ") Template = js "  ".
Proof. reflexivity. Qed.

Example componentToAstro_button :
  @componentToAstro referenceCollaborators defaultOptions 0
    {| heap := [componentOf [] None
                  [element "button" [] [(js "onClick", binding "props.go()")] []]];
       cssInJs := None; console := [] |}
  = (Normal (js "<button onClick={(event) => go()} client:idle>" ++ nl
             ++ js "</button>" ++ nl ++ js "<script>" ++ nl ++ js "</script>"),
     {| heap := [componentOf [] None
                   [element "button" [] [(js "onClick", binding "props.go()")] []];
                 componentOf [] None
                   [element "button" [] [(js "onClick", binding "props.go()")] []]];
        cssInJs := Some []; console := [] |}).
Proof. reflexivity. Qed.

Example blockToAstro_show :
  fst (@blockToAstro referenceCollaborators defaultOptions
         (MkNode (js "Show") [] [(js "when", binding "state.count > 0")]
            [element "div" [(js "_text", js "yes")] [] []]
            (Some (element "div" [(js "_text", js "no")] [] [])) noScope)
         emptyWorld)
  = Normal (js "{count > 0 ? (" ++ nl ++ js "      yes" ++ nl
            ++ js "    ) : (no)}").
Proof. reflexivity. Qed.

Example blockToAstro_for :
  fst (@blockToAstro referenceCollaborators defaultOptions
         (MkNode (js "For") [] [(js "each", binding "props.items")]
            [element "li" [] [] [element "div" [] [(js "_text", binding "item")] []]]
            None
            {| forName := Some (js "item"); indexName := None;
               collectionName := None |})
         emptyWorld)
  = Normal (js "{items.map((item) => (" ++ nl ++ js "      <li>{item}</li>" ++ nl
            ++ js "    ))}").
Proof. reflexivity. Qed.

Example blockToAstro_input :
  fst (@blockToAstro referenceCollaborators defaultOptions
         (element "input" [(js "type", js "text")]
            [(js "onChange", binding "props.update(event)")] [])
         emptyWorld)
  = Normal (js "<input type=" ++ quote ++ js "text" ++ quote
            ++ js " onInput={(event) => update(event)} client:idle />").
Proof. reflexivity. Qed.

(* ------------------------------------------------------------------ *)
(** ** Strings *)

Lemma jseqb_refl (a : jsstring) : jseqb a a = true.
Proof.
  induction a as [|x a IH]; simpl; [reflexivity|].
  now rewrite N.eqb_refl, IH.
Qed.

Lemma jseqb_eq (a b : jsstring) : jseqb a b = true <-> a = b.
Proof.
  split; [|intros ->; apply jseqb_refl].
  revert b; induction a as [|x a IH]; intros [|y b]; simpl; try easy.
  intros H. apply andb_true_iff in H as [Hx Hab].
  apply N.eqb_eq in Hx. f_equal; auto.
Qed.

Lemma startsWith_app (p s : jsstring) : startsWith p (p ++ s) = true.
Proof.
  induction p as [|x p IH]; simpl; [reflexivity|].
  now rewrite N.eqb_refl, IH.
Qed.

Lemma includes_startsWith (p s : jsstring) :
  startsWith p s = true -> includes p s = true.
Proof. intros H. destruct s; simpl; now rewrite H. Qed.

Lemma includes_app (p a b : jsstring) : includes p (a ++ p ++ b) = true.
Proof.
  induction a as [|x a IH]; simpl.
  - apply includes_startsWith, startsWith_app.
  - rewrite IH. apply orb_true_r.
Qed.

Lemma dropWhile_all (f : N -> bool) (s : jsstring) :
  forallb f s = true -> dropWhile f s = [].
Proof.
  induction s as [|c s IH]; simpl; [reflexivity|].
  intros H. apply andb_true_iff in H as [Hc Hs]. now rewrite Hc, IH.
Qed.

Lemma trim_whitespace (s : jsstring) :
  forallb isWhiteSpace s = true -> trim s = [].
Proof.
  intros H. unfold trim. now rewrite (dropWhile_all _ _ H).
Qed.

Lemma dropWhile_nil_iff (f : N -> bool) (s : jsstring) :
  dropWhile f s = [] <-> forallb f s = true.
Proof.
  split; [|apply dropWhile_all].
  induction s as [|c s IH]; simpl; [trivial|].
  destruct (f c); [exact IH|discriminate].
Qed.

Lemma forallb_dropWhile (f : N -> bool) (s : jsstring) :
  forallb f (dropWhile f s) = forallb f s.
Proof.
  induction s as [|c s IH]; simpl; [reflexivity|].
  destruct (f c) eqn:E; simpl; [exact IH|now rewrite E].
Qed.

Lemma forallb_rev (f : N -> bool) (s : jsstring) :
  forallb f (rev s) = forallb f s.
Proof.
  induction s as [|c s IH]; simpl; [reflexivity|].
  rewrite forallb_app, IH. simpl. rewrite andb_true_r. apply andb_comm.
Qed.

(** A text is blank exactly when all its characters are white space. *)
Lemma blank_iff (s : jsstring) :
  truthy (trim s) = false <-> forallb isWhiteSpace s = true.
Proof.
  unfold trim.
  rewrite <- (forallb_dropWhile isWhiteSpace s).
  rewrite <- (forallb_rev isWhiteSpace (dropWhile isWhiteSpace s)).
  rewrite <- dropWhile_nil_iff.
  destruct (dropWhile isWhiteSpace (rev (dropWhile isWhiteSpace s))) eqn:E.
  - simpl. tauto.
  - split; [|discriminate]. intros H.
    destruct (rev (n :: j)) eqn:Er; [|discriminate].
    apply (f_equal (@length N)) in Er. rewrite length_rev in Er. discriminate.
Qed.

Lemma wordChar_not_space (c : N) : isWordChar c = true -> isWhiteSpace c = false.
Proof.
  unfold isWordChar, isWhiteSpace. intros H.
  apply not_true_is_false. intros Hs.
  repeat rewrite ?orb_true_iff, ?andb_true_iff, ?N.leb_le, ?N.eqb_eq in H.
  repeat rewrite ?orb_true_iff, ?andb_true_iff, ?N.leb_le, ?N.eqb_eq in Hs.
  lia.
Qed.

(* ------------------------------------------------------------------ *)
(** ** The substitutions *)

Lemma stripPrefix_app (p t : jsstring) : stripPrefix p (p ++ t) = Some t.
Proof.
  induction p as [|a p IH]; simpl; [reflexivity|]. now rewrite N.eqb_refl.
Qed.

Lemma stripPrefix_spec (p s t : jsstring) :
  stripPrefix p s = Some t -> s = p ++ t.
Proof.
  revert s; induction p as [|a p IH]; intros [|b s]; simpl; try congruence.
  destruct (N.eqb_spec a b); [|discriminate].
  intros H. subst b. f_equal. now apply IH.
Qed.

Lemma stripPrefix_more (p s t z : jsstring) :
  stripPrefix p s = Some t -> stripPrefix p (s ++ z) = Some (t ++ z).
Proof.
  intros H. apply stripPrefix_spec in H. subst s.
  rewrite <- app_assoc. apply stripPrefix_app.
Qed.

Lemma spanWord_spec (s w rest : jsstring) :
  spanWord s = (w, rest) ->
  s = w ++ rest /\ forallb isWordChar w = true /\ headNonWord rest = true.
Proof.
  revert w rest; induction s as [|c s IH]; intros w rest; simpl.
  - intros [= <- <-]. auto.
  - destruct (isWordChar c) eqn:E.
    + destruct (spanWord s) as [w' rest'] eqn:Es. intros [= <- <-].
      destruct (IH _ _ eq_refl) as (-> & Hw & Hr).
      simpl. rewrite E, Hw. auto.
    + intros [= <- <-]. simpl. rewrite E. auto.
Qed.

Lemma spanWord_app (w rest : jsstring) :
  forallb isWordChar w = true -> headNonWord rest = true ->
  spanWord (w ++ rest) = (w, rest).
Proof.
  intros Hw Hr. induction w as [|c w IH]; simpl.
  - destruct rest as [|y rest]; [reflexivity|].
    simpl in Hr. apply negb_true_iff in Hr. simpl. now rewrite Hr.
  - simpl in Hw. apply andb_true_iff in Hw as [Hc Hw].
    now rewrite Hc, (IH Hw).
Qed.

Lemma spanWord_length (s w rest : jsstring) :
  spanWord s = (w, rest) -> (length rest <= length s)%nat.
Proof.
  intros H. apply spanWord_spec in H as (-> & _ & _).
  rewrite length_app. lia.
Qed.

Section OneContainer.

Variable container : jsstring.
Hypothesis container_word : forallb isWordChar container = true.
Hypothesis container_nonempty : container <> [].

Lemma matchRef_spec (s name rest : jsstring) :
  matchRef container s = Some (name, rest) ->
  s = container ++ js "." ++ name ++ rest
  /\ name <> [] /\ forallb isWordChar name = true /\ headNonWord rest = true.
Proof.
  unfold matchRef. destruct (stripPrefix _ s) as [t|] eqn:Et; [|discriminate].
  apply stripPrefix_spec in Et. rewrite <- app_assoc in Et.
  destruct (spanWord t) as [w r] eqn:Es.
  apply spanWord_spec in Es as (-> & Hw & Hr).
  destruct w as [|c w]; [discriminate|]. intros [= <- <-].
  repeat split; auto. discriminate.
Qed.

Lemma matchRef_intro (name rest : jsstring) :
  name <> [] -> forallb isWordChar name = true -> headNonWord rest = true ->
  matchRef container (container ++ js "." ++ name ++ rest) = Some (name, rest).
Proof.
  intros Hn Hw Hr. unfold matchRef.
  rewrite app_assoc, stripPrefix_app, (spanWord_app _ _ Hw Hr).
  destruct name; [contradiction|reflexivity].
Qed.

Lemma matchRef_length (s name rest : jsstring) :
  matchRef container s = Some (name, rest) -> (length rest < length s)%nat.
Proof.
  intros H. apply matchRef_spec in H as (-> & Hn & _).
  rewrite !length_app. destruct name; [contradiction|]. simpl. lia.
Qed.

(** No match starts at a character that is not a word character. *)
Lemma matchRef_nonword (x : N) (s : jsstring) :
  isWordChar x = false -> matchRef container (x :: s) = None.
Proof.
  intros Hx. destruct (matchRef container (x :: s)) as [[name rest]|] eqn:E;
    [|reflexivity].
  apply matchRef_spec in E as (E & _).
  destruct container as [|c0 c']; [contradiction|].
  simpl in E, container_word. injection E as <- _.
  apply andb_true_iff in container_word as [Hc _]. congruence.
Qed.

(** The function computes the scan, whenever the fuel covers the text. *)
Lemma replaceRefsFrom_Scan (keep : bool) (fuel : nat) :
  forall prevWord s,
    (length s <= fuel)%nat ->
    Scan container keep prevWord s (replaceRefsFrom fuel container keep prevWord s).
Proof.
  induction fuel as [|fuel IH]; intros prevWord s Hlen.
  - destruct s; [constructor|simpl in Hlen; lia].
  - destruct s as [|x s]; [constructor|]. simpl in Hlen.
    cbn [replaceRefsFrom].
    destruct (if prevWord then None else matchRef container (x :: s))
      as [[name rest]|] eqn:E.
    + destruct prevWord; [discriminate|].
      apply Scan_match with (rest := rest); [exact E|].
      apply IH. apply matchRef_length in E. simpl in E. lia.
    + apply Scan_copy; [exact E|]. apply IH. lia.
Qed.

Lemma Scan_functional (keep : bool) (prevWord : bool) (s out1 out2 : jsstring) :
  Scan container keep prevWord s out1 ->
  Scan container keep prevWord s out2 ->
  out1 = out2.
Proof.
  intros H1; revert out2.
  induction H1 as [p|p x s out Hm H IH|x s name rest out Hm H IH];
    intros out2 H2; inversion H2; subst; try congruence.
  - f_equal. now apply IH.
  - match goal with
    | Ha : matchRef _ _ = Some _, Hb : matchRef _ _ = Some _ |- _ =>
        rewrite Ha in Hb; injection Hb as <- <-
    end.
    do 2 f_equal. now apply IH.
Qed.

Lemma replaceRefs_Scan (keep : bool) (s : jsstring) :
  Scan container keep false s (replaceRefs container keep s).
Proof. apply replaceRefsFrom_Scan. apply Nat.le_refl. Qed.

Lemma Scan_replaceRefs (keep : bool) (s out : jsstring) :
  Scan container keep false s out -> replaceRefs container keep s = out.
Proof.
  intros H. apply (Scan_functional _ _ _ _ _ (replaceRefs_Scan keep s) H).
Qed.

(** *** Splitting the text at a bare character *)

Lemma spanWord_more (t : jsstring) (x : N) (z : jsstring) :
  isWordChar x = false ->
  spanWord (t ++ x :: z) = (fst (spanWord t), snd (spanWord t) ++ x :: z).
Proof.
  intros Hx. induction t as [|c t IH]; simpl.
  - now rewrite Hx.
  - destruct (isWordChar c); [|reflexivity].
    rewrite IH. now destruct (spanWord t).
Qed.

Lemma stripPrefix_none_more (q s : jsstring) (x : N) (z : jsstring) :
  forallb (fun c => isWordChar c || (c =? 46)%N) q = true ->
  isWordChar x = false -> x <> 46%N ->
  stripPrefix q s = None -> stripPrefix q (s ++ x :: z) = None.
Proof.
  intros Hq Hx Hdot. revert s. induction q as [|a q IH]; intros s; simpl.
  - discriminate.
  - simpl in Hq. apply andb_true_iff in Hq as [Ha Hq].
    destruct s as [|b s]; simpl.
    + intros _. destruct (N.eqb_spec a x); [|reflexivity]. subst a.
      rewrite Hx in Ha. simpl in Ha. apply N.eqb_eq in Ha. contradiction.
    + destruct (a =? b)%N; [now apply IH|reflexivity].
Qed.

Lemma pattern_chars :
  forallb (fun c => isWordChar c || (c =? 46)%N) (container ++ js ".") = true.
Proof.
  rewrite forallb_app. apply andb_true_iff. split; [|reflexivity].
  rewrite forallb_forall in container_word |- *.
  intros c Hc. now rewrite (container_word _ Hc).
Qed.

Lemma matchRef_more (s : jsstring) (x : N) (z : jsstring) :
  isWordChar x = false -> x <> 46%N ->
  matchRef container (s ++ x :: z) =
  match matchRef container s with
  | Some (name, rest) => Some (name, rest ++ x :: z)
  | None => None
  end.
Proof.
  intros Hx Hdot. unfold matchRef.
  destruct (stripPrefix (container ++ js ".") s) as [t|] eqn:Et.
  - rewrite (stripPrefix_more _ _ _ _ Et), (spanWord_more _ _ _ Hx).
    destruct (spanWord t) as [[|c w] r]; reflexivity.
  - now rewrite (stripPrefix_none_more _ _ _ _ pattern_chars Hx Hdot Et).
Qed.

(** A character that is neither a word character nor a dot cuts the scan in
    two independent scans. *)
Lemma Scan_split (keep : bool) (prevWord : bool) (s out : jsstring) :
  Scan container keep prevWord s out ->
  forall x z outz,
    isWordChar x = false -> x <> 46%N ->
    Scan container keep false z outz ->
    Scan container keep prevWord (s ++ x :: z) (out ++ x :: outz).
Proof.
  induction 1 as [p|p y s out Hm H IH|y s name rest out Hm H IH];
    intros x z outz Hx Hdot Hz.
  - simpl. apply Scan_copy.
    + destruct p; [reflexivity|]. now apply matchRef_nonword.
    + rewrite Hx. exact Hz.
  - simpl. apply Scan_copy; [|now apply IH].
    destruct p; [reflexivity|].
    change (y :: s ++ x :: z) with ((y :: s) ++ x :: z).
    now rewrite (matchRef_more _ _ _ Hx Hdot), Hm.
  - rewrite <- !app_assoc.
    apply Scan_match with (rest := rest ++ x :: z); [|now apply IH].
    change (matchRef container ((y :: s) ++ x :: z) = Some (name, rest ++ x :: z)).
    now rewrite (matchRef_more _ _ _ Hx Hdot), Hm.
Qed.

Lemma endsBare_inv (s : jsstring) :
  endsBare s = true ->
  s = [] \/ exists init x, s = init ++ [x] /\ isWordChar x = false /\ x <> 46%N.
Proof.
  unfold endsBare. intros H.
  destruct (rev s) as [|y l] eqn:E.
  - left. apply (f_equal (@rev N)) in E. now rewrite rev_involutive in E.
  - right. exists (rev l), y.
    apply andb_true_iff in H as [Hw Hd].
    apply negb_true_iff in Hw. apply negb_true_iff in Hd.
    apply N.eqb_neq in Hd.
    split; [|auto].
    apply (f_equal (@rev N)) in E. now rewrite rev_involutive in E.
Qed.

Lemma endsBare_snoc (init : jsstring) (x : N) :
  isWordChar x = false -> x <> 46%N -> endsBare (init ++ [x]) = true.
Proof.
  intros Hx Hdot. unfold endsBare. rewrite rev_app_distr. simpl.
  rewrite Hx. apply N.eqb_neq in Hdot. now rewrite Hdot.
Qed.

(** The substitution distributes over a concatenation whose left part ends
    bare. *)
Lemma replaceRefs_split (keep : bool) (pre z : jsstring) :
  endsBare pre = true ->
  replaceRefs container keep (pre ++ z)
  = replaceRefs container keep pre ++ replaceRefs container keep z.
Proof.
  intros H. apply endsBare_inv in H as [->|(init & x & -> & Hx & Hdot)].
  - reflexivity.
  - apply Scan_replaceRefs. rewrite <- app_assoc. simpl.
    rewrite (Scan_replaceRefs keep (init ++ [x])
               (replaceRefs container keep init ++ [x])).
    + rewrite <- app_assoc. simpl.
      apply Scan_split; auto using replaceRefs_Scan.
    + apply Scan_split; auto using replaceRefs_Scan, Scan_end.
Qed.

Lemma replaceRefs_endsBare (keep : bool) (pre : jsstring) :
  endsBare pre = true -> endsBare (replaceRefs container keep pre) = true.
Proof.
  intros H. apply endsBare_inv in H as [->|(init & x & -> & Hx & Hdot)].
  - reflexivity.
  - rewrite (Scan_replaceRefs keep (init ++ [x])
               (replaceRefs container keep init ++ [x])).
    + now apply endsBare_snoc.
    + apply Scan_split; auto using replaceRefs_Scan, Scan_end.
Qed.

(** *** Words and references at the head of the text *)

Lemma Scan_prevWord (keep : bool) (p q : bool) (s out : jsstring) :
  headNonWord s = true ->
  Scan container keep p s out -> Scan container keep q s out.
Proof.
  intros Hh H. destruct s as [|x s].
  - inversion H; subst. constructor.
  - simpl in Hh. apply negb_true_iff in Hh.
    inversion H; subst.
    + apply Scan_copy; [|assumption].
      destruct q; [reflexivity|]. now apply matchRef_nonword.
    + rewrite (matchRef_nonword _ _ Hh) in *. discriminate.
Qed.

Lemma Scan_word (keep : bool) (w t out : jsstring) :
  forallb isWordChar w = true ->
  Scan container keep true t out ->
  Scan container keep true (w ++ t) (w ++ out).
Proof.
  intros Hw Ht. induction w as [|c w IH]; simpl; [assumption|].
  simpl in Hw. apply andb_true_iff in Hw as [Hc Hw].
  apply Scan_copy; [reflexivity|]. rewrite Hc. now apply IH.
Qed.

Lemma replaceRefs_headNonWord (keep : bool) (s : jsstring) :
  headNonWord s = true -> headNonWord (replaceRefs container keep s) = true.
Proof.
  intros H. destruct s as [|x s]; [reflexivity|].
  simpl in H. pose proof (replaceRefs_Scan keep (x :: s)) as HS.
  apply negb_true_iff in H.
  inversion HS; subst.
  - simpl. now rewrite H.
  - rewrite (matchRef_nonword _ _ H) in *. discriminate.
Qed.

(** A reference at the head of the text is replaced. *)
Lemma replaceRefs_ref (keep : bool) (name post : jsstring) :
  name <> [] -> forallb isWordChar name = true -> headNonWord post = true ->
  replaceRefs container keep (container ++ js "." ++ name ++ post)
  = (if keep then container ++ js "." else []) ++ name
    ++ replaceRefs container keep post.
Proof.
  intros Hn Hw Hp. apply Scan_replaceRefs.
  pose proof (matchRef_intro _ _ Hn Hw Hp) as Hm.
  destruct (container ++ js "." ++ name ++ post) as [|x s] eqn:E.
  - destruct container; [contradiction|discriminate].
  - apply Scan_match with (rest := post); [exact Hm|].
    apply (Scan_prevWord keep false); [exact Hp|apply replaceRefs_Scan].
Qed.

(** A word at the head of the text that is not the container is copied. *)
Lemma replaceRefs_other_word (keep : bool) (w post : jsstring) :
  w <> container -> forallb isWordChar w = true -> headNonWord post = true ->
  replaceRefs container keep (w ++ post) = w ++ replaceRefs container keep post.
Proof.
  intros Hne Hw Hp. apply Scan_replaceRefs.
  destruct w as [|c w]; [apply replaceRefs_Scan|].
  simpl. simpl in Hw. apply andb_true_iff in Hw as [Hc Hw'].
  apply Scan_copy.
  - destruct (matchRef container (c :: w ++ post)) as [[name rest]|] eqn:E;
      [|reflexivity].
    exfalso. apply Hne.
    apply matchRef_spec in E as (E & _ & _ & _).
    assert (H1 : spanWord (c :: w ++ post) = (c :: w, post)).
    { apply (spanWord_app (c :: w)); [simpl; now rewrite Hc, Hw'|exact Hp]. }
    rewrite E in H1.
    rewrite (spanWord_app container (js "." ++ name ++ rest) container_word eq_refl) in H1.
    now injection H1.
  - rewrite Hc. apply Scan_word; [exact Hw'|].
    apply (Scan_prevWord keep false); [exact Hp|apply replaceRefs_Scan].
Qed.

Lemma replaceRefs_nonword (keep : bool) (x : N) (t : jsstring) :
  isWordChar x = false ->
  replaceRefs container keep (x :: t) = x :: replaceRefs container keep t.
Proof.
  intros Hx. apply Scan_replaceRefs. apply Scan_copy.
  - now apply matchRef_nonword.
  - rewrite Hx. apply replaceRefs_Scan.
Qed.

(** The replacement ['<container>.$1'] changes nothing. *)
Lemma Scan_keep_id (n : nat) :
  forall prevWord s, (length s <= n)%nat -> Scan container true prevWord s s.
Proof.
  induction n as [|n IH]; intros prevWord s Hlen.
  - destruct s; [constructor|simpl in Hlen; lia].
  - destruct s as [|x s]; [constructor|]. simpl in Hlen.
    destruct (if prevWord then None else matchRef container (x :: s))
      as [[name rest]|] eqn:E.
    + destruct prevWord; [discriminate|].
      pose proof (matchRef_length _ _ _ E) as Hl. simpl in Hl.
      pose proof (matchRef_spec _ _ _ E) as (Es & _).
      rewrite Es at 2. rewrite app_assoc.
      apply Scan_match with (rest := rest); [exact E|].
      apply IH. lia.
    + apply Scan_copy; [exact E|]. apply IH. lia.
Qed.

Lemma replaceRefs_keep (s : jsstring) : replaceRefs container true s = s.
Proof. apply Scan_replaceRefs. apply (Scan_keep_id (length s)). lia. Qed.

(** The substitution does not make a text blank. *)
Lemma Scan_nonblank (keep : bool) (p : bool) (s out : jsstring) :
  Scan container keep p s out ->
  forallb isWhiteSpace s = false -> forallb isWhiteSpace out = false.
Proof.
  induction 1 as [p|p x s out Hm H IH|x s name rest out Hm H IH]; intros Hs.
  - discriminate.
  - simpl in Hs |- *. destruct (isWhiteSpace x); [now apply IH|reflexivity].
  - apply matchRef_spec in Hm as (_ & Hn & Hw & _).
    destruct name as [|e name]; [contradiction|].
    simpl in Hw. apply andb_true_iff in Hw as [He _].
    rewrite forallb_app. apply andb_false_iff. right.
    simpl. now rewrite (wordChar_not_space _ He).
Qed.

Lemma replaceRefs_nonblank (keep : bool) (s : jsstring) :
  truthy (trim s) = true -> truthy (trim (replaceRefs container keep s)) = true.
Proof.
  intros H. apply not_false_is_true. intros Hb.
  apply blank_iff in Hb.
  assert (Hs : forallb isWhiteSpace s = false).
  { apply not_true_is_false. intros Hs. apply blank_iff in Hs. congruence. }
  rewrite (Scan_nonblank keep false s _ (replaceRefs_Scan keep s) Hs) in Hb.
  discriminate.
Qed.

End OneContainer.

(** *** References in the result of a substitution *)

Lemma startsWith_spec (p s : jsstring) :
  startsWith p s = true -> exists t, s = p ++ t.
Proof.
  revert s; induction p as [|a p IH]; intros s H.
  - now exists s.
  - destruct s as [|b s]; [discriminate|]. simpl in H.
    apply andb_true_iff in H as [Hab H]. apply N.eqb_eq in Hab. subst b.
    destruct (IH _ H) as [t ->]. now exists t.
Qed.

Lemma includes_cons_false (p : jsstring) (x : N) (s : jsstring) :
  includes p (x :: s) = false ->
  startsWith p (x :: s) = false /\ includes p s = false.
Proof. simpl. intros H. now apply orb_false_iff in H. Qed.

Lemma includes_suffix (p a b : jsstring) :
  includes p (a ++ b) = false -> includes p b = false.
Proof.
  induction a as [|x a IH]; simpl; [trivial|].
  intros H. apply orb_false_iff in H as [_ H]. now apply IH.
Qed.

Lemma includes_skip_word (y : N) (p w t : jsstring) :
  isWordChar y = false -> forallb isWordChar w = true ->
  includes (y :: p) (w ++ t) = includes (y :: p) t.
Proof.
  intros Hy Hw. induction w as [|c w IH]; [reflexivity|].
  simpl in Hw. apply andb_true_iff in Hw as [Hc Hw].
  change ((c :: w) ++ t) with (c :: (w ++ t)).
  cbn [includes startsWith]. rewrite (IH Hw).
  destruct (N.eqb_spec y c); [congruence|reflexivity].
Qed.

Section TwoContainers.

(** [scanned] is the container that the substitution replaces, [sought] the
    one whose references are looked for in the result. *)
Variables scanned sought : jsstring.
Hypothesis scanned_word : forallb isWordChar scanned = true.
Hypothesis scanned_nonempty : scanned <> [].
Hypothesis sought_word : forallb isWordChar sought = true.
Hypothesis sought_nonempty : sought <> [].

Lemma matchRef_started (e : N) (t : jsstring) :
  isWordChar e = true ->
  matchRef sought (sought ++ js "." ++ e :: t) <> None.
Proof.
  intros He. unfold matchRef. rewrite app_assoc, stripPrefix_app.
  cbn [spanWord]. rewrite He. now destruct (spanWord t).
Qed.

(** A word character at the head of the result stands for one at the head
    of the text. *)
Lemma Scan_head_word (keep q : bool) (t : jsstring) (e : N) (o : jsstring) :
  Scan scanned keep q t (e :: o) -> isWordChar e = true ->
  exists e' t', t = e' :: t' /\ isWordChar e' = true.
Proof.
  intros H He. inversion H; subst.
  - eauto.
  - match goal with Hm : matchRef _ (?x :: ?s) = Some _ |- _ =>
      exists x, s; split; [reflexivity|];
      destruct (isWordChar x) eqn:Ex; [reflexivity|];
      rewrite (matchRef_nonword _ scanned_word scanned_nonempty _ _ Ex) in Hm;
      discriminate
    end.
Qed.

(** Inside a word the scan copies; so a word and a dot at the head of the
    result are at the head of the text. *)
Lemma Scan_word_dot (keep : bool) (w : jsstring) :
  forallb isWordChar w = true ->
  forall t o,
    Scan scanned keep true t (w ++ 46%N :: o) ->
    exists t', t = w ++ 46%N :: t' /\ Scan scanned keep false t' o.
Proof.
  intros Hw. induction w as [|c w IH]; intros t o H.
  - simpl in H. inversion H; subst.
    match goal with HS : Scan _ _ (isWordChar 46) ?s _ |- _ =>
      exists s; split; [reflexivity|exact HS]
    end.
  - simpl in Hw. apply andb_true_iff in Hw as [Hc Hw].
    simpl in H. inversion H; subst.
    match goal with HS : Scan _ _ (isWordChar c) _ _ |- _ =>
      rewrite Hc in HS; destruct (IH Hw _ _ HS) as (t' & -> & Ht')
    end.
    exists t'. split; [reflexivity|assumption].
Qed.

(** A reference to [sought] at the head of the result, after a copied
    character, is one at the head of the text. *)
Lemma Scan_head_ref (keep : bool) (x : N) (s out : jsstring) :
  Scan scanned keep (isWordChar x) s out ->
  matchRef sought (x :: out) <> None ->
  matchRef sought (x :: s) <> None.
Proof.
  intros HS Hm.
  destruct (matchRef sought (x :: out)) as [[name rest]|] eqn:E; [|contradiction].
  apply matchRef_spec in E
    as (E & Hn & Hw & _).
  destruct sought as [|c0 c'] eqn:Ec; [contradiction|].
  simpl in E. injection E as <- ->.
  simpl in sought_word. apply andb_true_iff in sought_word as [Hc0 Hc'].
  rewrite Hc0 in HS.
  destruct name as [|e name]; [contradiction|].
  simpl in Hw. apply andb_true_iff in Hw as [He _].
  change (c' ++ js "." ++ (e :: name) ++ rest)
    with (c' ++ 46%N :: e :: name ++ rest) in HS.
  destruct (Scan_word_dot keep c' Hc' _ _ HS) as (t' & -> & Ht').
  destruct (Scan_head_word _ _ _ _ _ Ht' He) as (e' & t'' & -> & He').
  change (x :: c' ++ 46%N :: e' :: t'')
    with ((x :: c') ++ js "." ++ e' :: t'').
  rewrite <- Ec. apply (matchRef_started e' t'' He').
Qed.

Lemma containsRef_word (w t : jsstring) :
  forallb isWordChar w = true ->
  containsRef sought true (w ++ t) = containsRef sought true t.
Proof.
  intros Hw. induction w as [|c w IH]; [reflexivity|].
  simpl in Hw. apply andb_true_iff in Hw as [Hc Hw].
  change ((c :: w) ++ t) with (c :: (w ++ t)).
  cbn [containsRef negb andb orb]. rewrite Hc. now apply IH.
Qed.

Lemma containsRef_drop (a b : jsstring) :
  forall p, containsRef sought p (a ++ b) = false ->
            exists q, containsRef sought q b = false.
Proof.
  induction a as [|x a IH]; intros p H.
  - now exists p.
  - change ((x :: a) ++ b) with (x :: (a ++ b)) in H. cbn [containsRef] in H.
    apply orb_false_iff in H as [_ H]. now apply (IH _ H).
Qed.

(** The result of a replaced match does not start with a reference to
    [sought] unless the text has [.<sought>.] in it. *)
Lemma replaced_head (keep : bool) (x : N) (s name rest out : jsstring) :
  matchRef scanned (x :: s) = Some (name, rest) ->
  Scan scanned keep true rest out ->
  includes (js "." ++ sought ++ js ".") (x :: s) = false ->
  matchRef sought (name ++ out) = None.
Proof.
  intros Hm HS Hinc.
  destruct (matchRef sought (name ++ out)) as [[n r]|] eqn:E; [|reflexivity].
  exfalso.
  apply matchRef_spec in Hm
    as (Es & Hn & Hw & Hr).
  apply matchRef_spec in E as (E & _).
  assert (Ho : headNonWord out = true).
  { destruct rest as [|y rest]; inversion HS; subst; [reflexivity|].
    exact Hr. }
  pose proof (spanWord_app name out Hw Ho) as H1.
  rewrite E in H1.
  rewrite (spanWord_app sought (js "." ++ n ++ r) sought_word eq_refl) in H1.
  injection H1 as <- Hout.
  assert (Hrest : exists rest', rest = 46%N :: rest').
  { rewrite <- Hout in HS. inversion HS; subst. eauto. }
  destruct Hrest as [rest' ->].
  rewrite Es in Hinc.
  change (scanned ++ js "." ++ sought ++ 46%N :: rest')
    with (scanned ++ js "." ++ sought ++ js "." ++ rest') in Hinc.
  assert (Heq : scanned ++ js "." ++ sought ++ js "." ++ rest'
                = scanned ++ (js "." ++ sought ++ js ".") ++ rest')
    by now rewrite <- !app_assoc.
  rewrite Heq, includes_app in Hinc. discriminate.
Qed.

(** The substitution of [scanned] brings no reference to another container
    [sought] about, unless the text has [.<sought>.] in it. *)
Lemma Scan_no_new_ref (p : bool) (s out : jsstring) :
  Scan scanned false p s out ->
  containsRef sought p s = false ->
  includes (js "." ++ sought ++ js ".") s = false ->
  containsRef sought p out = false.
Proof.
  induction 1 as [p|p x s out Hm H IH|x s name rest out Hm H IH];
    intros Hc Hinc.
  - reflexivity.
  - cbn [containsRef] in Hc |- *.
    apply orb_false_iff in Hc as [Hhead Htail].
    apply includes_cons_false in Hinc as [_ Hinc].
    rewrite (IH Htail Hinc), orb_false_r.
    destruct p; [reflexivity|]. cbn [negb andb] in Hhead |- *.
    destruct (matchRef sought (x :: out)) eqn:E; [|reflexivity].
    exfalso.
    assert (Hs : matchRef sought (x :: s) <> None).
    { apply (Scan_head_ref false x s out H). congruence. }
    destruct (matchRef sought (x :: s)); [discriminate|contradiction].
  - cbn [app].
    assert (Hrest : containsRef sought true out = false).
    { apply IH.
      - apply matchRef_spec in Hm
          as (Es & Hn & Hw & _).
        rewrite Es, !app_assoc, <- app_assoc in Hc.
        apply containsRef_drop in Hc as [q Hc].
        destruct name as [|e name]; [contradiction|].
        simpl in Hw. apply andb_true_iff in Hw as [He Hw].
        change ((e :: name) ++ rest) with (e :: (name ++ rest)) in Hc.
        cbn [containsRef] in Hc. apply orb_false_iff in Hc as [_ Hc].
        rewrite He in Hc. now rewrite (containsRef_word _ _ Hw) in Hc.
      - apply matchRef_spec in Hm
          as (Es & _).
        rewrite Es, !app_assoc in Hinc. now apply includes_suffix in Hinc. }
    pose proof (replaced_head false x s name rest out Hm H Hinc) as Hhead.
    pose proof (matchRef_spec _ _ _ _ Hm)
      as (_ & Hn & Hw & _).
    destruct name as [|e name]; [contradiction|].
    simpl in Hw. apply andb_true_iff in Hw as [He Hw].
    change ((e :: name) ++ out) with (e :: (name ++ out)) in Hhead |- *.
    cbn [containsRef negb andb]. rewrite Hhead, He. cbn [orb].
    now rewrite (containsRef_word _ _ Hw).
Qed.

(** The substitution does not bring [.<sought>.] about, unless the text has
    it or has [.<scanned>.] in it. *)
Lemma Scan_no_new_chain (p : bool) (s out : jsstring) :
  Scan scanned false p s out ->
  includes (js "." ++ scanned ++ js ".") s = false ->
  includes (js "." ++ sought ++ js ".") s = false ->
  includes (js "." ++ sought ++ js ".") out = false.
Proof.
  induction 1 as [p|p x s out Hm H IH|x s name rest out Hm H IH];
    intros Hscanned Hsought.
  - reflexivity.
  - apply includes_cons_false in Hscanned as [Hs1 Hs2].
    apply includes_cons_false in Hsought as [Ht1 Ht2].
    cbn [includes]. rewrite (IH Hs2 Ht2), orb_false_r.
    destruct (startsWith (js "." ++ sought ++ js ".") (x :: out)) eqn:E;
      [|reflexivity].
    exfalso.
    apply startsWith_spec in E as [t E].
    destruct sought as [|c0 c'] eqn:Ec; [contradiction|].
    change (js "." ++ (c0 :: c') ++ js ".") with (46%N :: c0 :: c' ++ js ".") in E.
    cbn [app] in E. injection E as -> ->.
    rewrite <- app_assoc in H. change (js "." ++ t) with (46%N :: t) in H.
    change (isWordChar 46) with false in H.
    simpl in sought_word. apply andb_true_iff in sought_word as [Hc0 Hc'].
    inversion H; subst.
    + (* the word after the dot is copied *)
      match goal with HS : Scan _ _ (isWordChar c0) _ _ |- _ =>
        rewrite Hc0 in HS;
        destruct (Scan_word_dot false c' Hc' _ _ HS) as (t' & -> & _)
      end.
      assert (Heq : 46%N :: c0 :: c' ++ 46%N :: t'
                    = (js "." ++ (c0 :: c') ++ js ".") ++ t').
      { change (js ".") with [46%N]. cbn [app]. now rewrite <- app_assoc. }
      rewrite Heq, startsWith_app in Ht1. discriminate.
    + (* the word after the dot is the name of a replaced reference *)
      match goal with
      | Hm' : matchRef scanned (?y :: ?s') = Some (?name, ?rest) |- _ =>
          apply matchRef_spec in Hm' as (Es & _);
          rewrite Es in Hs1;
          assert (Heq : 46%N :: scanned ++ js "." ++ name ++ rest
                        = (js "." ++ scanned ++ js ".") ++ name ++ rest)
            by (change (js ".") with [46%N]; cbn [app];
                now rewrite <- app_assoc);
          rewrite Heq, startsWith_app in Hs1; discriminate
      end.
  - cbn [app].
    pose proof (matchRef_spec _ _ _ _ Hm)
      as (Es & Hn & Hw & _).
    change (js "." ++ sought ++ js ".") with (46%N :: sought ++ js ".").
    rewrite (includes_skip_word 46 _ name out eq_refl Hw).
    apply IH.
    + rewrite Es, !app_assoc in Hscanned. now apply includes_suffix in Hscanned.
    + rewrite Es, !app_assoc in Hsought. now apply includes_suffix in Hsought.
Qed.

End TwoContainers.

Section References.

Variable container : jsstring.
Hypothesis container_word : forallb isWordChar container = true.
Hypothesis container_nonempty : container <> [].

(** A text without references is left alone. *)
Lemma containsRef_Scan (keep : bool) (s : jsstring) :
  forall p, containsRef container p s = false -> Scan container keep p s s.
Proof.
  induction s as [|x s IH]; intros p H; [constructor|].
  cbn [containsRef] in H. apply orb_false_iff in H as [Hhead Htail].
  apply Scan_copy; [|now apply IH].
  destruct p; [reflexivity|]. cbn [negb andb] in Hhead.
  now destruct (matchRef container (x :: s)).
Qed.

Lemma replaceRefs_fixed (keep : bool) (s : jsstring) :
  containsRef container false s = false -> replaceRefs container keep s = s.
Proof. intros H. apply Scan_replaceRefs. now apply containsRef_Scan. Qed.

(** After the substitution no reference is left, unless the text has
    [.<container>.] in it. *)
Lemma Scan_no_ref_left (p : bool) (s out : jsstring) :
  Scan container false p s out ->
  includes (js "." ++ container ++ js ".") s = false ->
  containsRef container p out = false.
Proof.
  induction 1 as [p|p x s out Hm H IH|x s name rest out Hm H IH]; intros Hinc.
  - reflexivity.
  - cbn [containsRef].
    apply includes_cons_false in Hinc as [_ Hinc].
    rewrite (IH Hinc), orb_false_r.
    destruct p; [reflexivity|]. cbn [negb andb].
    destruct (matchRef container (x :: out)) eqn:E; [|reflexivity].
    exfalso.
    apply (Scan_head_ref container container container_word container_nonempty
             container_word container_nonempty false x s out H);
      congruence.
  - cbn [app].
    pose proof (matchRef_spec _ _ _ _ Hm) as (Es & Hn & Hw & _).
    assert (Hrest : containsRef container true out = false).
    { apply IH. rewrite Es, !app_assoc in Hinc.
      now apply includes_suffix in Hinc. }
    pose proof (replaced_head container container container_word
                  false x s name rest out Hm H Hinc) as Hhead.
    destruct name as [|e name]; [contradiction|].
    simpl in Hw. apply andb_true_iff in Hw as [He Hw].
    change ((e :: name) ++ out) with (e :: (name ++ out)) in Hhead |- *.
    cbn [containsRef negb andb]. rewrite Hhead, He. cbn [orb].
    now rewrite (containsRef_word _ _ _ Hw).
Qed.

End References.

(** The two containers of [processBinding]. *)
Lemma state_word : forallb isWordChar (js "state") = true.
Proof. reflexivity. Qed.

Lemma props_word : forallb isWordChar (js "props") = true.
Proof. reflexivity. Qed.

Lemma state_nonempty : js "state" <> [].
Proof. discriminate. Qed.

Lemma props_nonempty : js "props" <> [].
Proof. discriminate. Qed.

Lemma substituteRefs_Frontmatter (code : jsstring) :
  substituteRefs Frontmatter code = replaceRefs (js "state") false code.
Proof. unfold substituteRefs. apply replaceRefs_keep. Qed.

(** A bare reference to a state member, in either context. *)
Lemma replaceRefs_state_ref (pre name post : jsstring) :
  endsBare pre = true -> name <> [] -> forallb isWordChar name = true ->
  headNonWord post = true ->
  replaceRefs (js "state") false (pre ++ js "state." ++ name ++ post)
  = replaceRefs (js "state") false pre ++ name
    ++ replaceRefs (js "state") false post.
Proof.
  intros Hpre Hn Hw Hpost.
  rewrite (replaceRefs_split _ state_word state_nonempty _ _ _ Hpre).
  change (js "state.") with (js "state" ++ js "."). rewrite <- app_assoc.
  now rewrite (replaceRefs_ref _ state_word state_nonempty false _ _ Hn Hw Hpost).
Qed.

(** The state substitution leaves a bare reference to a prop alone, unless
    the prop is called [state]. *)
Lemma replaceRefs_state_skips_props (pre name post : jsstring) :
  endsBare pre = true -> name <> js "state" -> forallb isWordChar name = true ->
  headNonWord post = true ->
  replaceRefs (js "state") false (pre ++ js "props." ++ name ++ post)
  = replaceRefs (js "state") false pre ++ js "props." ++ name
    ++ replaceRefs (js "state") false post.
Proof.
  intros Hpre Hn Hw Hpost.
  rewrite (replaceRefs_split _ state_word state_nonempty _ _ _ Hpre).
  f_equal.
  change (js "props.") with (js "props" ++ js "."). rewrite <- !app_assoc.
  rewrite (replaceRefs_other_word _ state_word state_nonempty false (js "props"));
    [|discriminate|reflexivity|reflexivity].
  f_equal. change (js "." ++ name ++ post) with (46%N :: name ++ post).
  rewrite (replaceRefs_nonword _ state_word state_nonempty); [|reflexivity].
  change (js "." ++ name ++ replaceRefs (js "state") false post)
    with (46%N :: name ++ replaceRefs (js "state") false post).
  f_equal.
  now apply (replaceRefs_other_word _ state_word state_nonempty).
Qed.

(** One pass leaves no reference behind, for a code without chains. *)
Lemma substituteRefs_refFree (context : Context) (code : jsstring) :
  noChain context code = true ->
  refFree context (substituteRefs context code) = true.
Proof.
  destruct context; unfold noChain, refFree; intros H.
  - rewrite substituteRefs_Frontmatter.
    apply negb_true_iff in H. apply negb_true_iff.
    apply (Scan_no_ref_left (js "state") state_word state_nonempty
             false code _ (replaceRefs_Scan _ _ _)).
    exact H.
  - apply andb_true_iff in H as [Hs Hp].
    apply negb_true_iff in Hs. apply negb_true_iff in Hp.
    unfold substituteRefs.
    pose proof (replaceRefs_Scan (js "state") false code) as HS.
    set (s1 := replaceRefs (js "state") false code) in *.
    assert (H1 : containsRef (js "state") false s1 = false)
      by exact (Scan_no_ref_left (js "state") state_word state_nonempty
                  false code s1 HS Hs).
    assert (H2 : includes (js ".state.") s1 = false)
      by exact (Scan_no_new_chain (js "state") (js "state") state_word
                  state_nonempty false code s1 HS Hs Hs).
    assert (H3 : includes (js ".props.") s1 = false)
      by exact (Scan_no_new_chain (js "state") (js "props") props_word
                  props_nonempty false code s1 HS Hs Hp).
    pose proof (replaceRefs_Scan (js "props") false s1) as HP.
    apply andb_true_iff. split; apply negb_true_iff.
    + exact (Scan_no_new_ref (js "props") (js "state") props_word
               props_nonempty state_word state_nonempty false s1 _ HP H1 H2).
    + exact (Scan_no_ref_left (js "props") props_word props_nonempty
               false s1 _ HP H3).
Qed.

(** A text without references is a fixed point of the substitution. *)
Lemma substituteRefs_fixed (context : Context) (text : jsstring) :
  refFree context text = true -> substituteRefs context text = text.
Proof.
  destruct context; unfold refFree; intros H.
  - rewrite substituteRefs_Frontmatter.
    apply negb_true_iff in H. now apply replaceRefs_fixed.
  - apply andb_true_iff in H as [Hs Hp].
    apply negb_true_iff in Hs. apply negb_true_iff in Hp.
    unfold substituteRefs.
    now rewrite (replaceRefs_fixed _ false _ Hs), (replaceRefs_fixed _ false _ Hp).
Qed.

(** The substitutions reach a fixed point in one pass, for a code without
    chains. *)
Lemma substituteRefs_idempotent (context : Context) (code : jsstring) :
  noChain context code = true ->
  substituteRefs context (substituteRefs context code)
  = substituteRefs context code.
Proof.
  intros H. apply substituteRefs_fixed. now apply substituteRefs_refFree.
Qed.

Lemma substituteRefs_nonblank (context : Context) (code : jsstring) :
  truthy (trim code) = true -> truthy (trim (substituteRefs context code)) = true.
Proof.
  intros H. destruct context; unfold substituteRefs;
    now do 2 apply replaceRefs_nonblank.
Qed.

(* ------------------------------------------------------------------ *)
(** ** Effects on the heap *)

Lemma keepsOld_refl (size : nat) (w : World) :
  (size <= length (heap w))%nat -> keepsOld size w w.
Proof. intros H. split; auto. Qed.

Lemma keepsOld_trans (size : nat) (w1 w2 w3 : World) :
  keepsOld size w1 w2 -> keepsOld size w2 w3 -> keepsOld size w1 w3.
Proof.
  intros [H1 H1'] [H2 H2']. split; [assumption|].
  intros r Hr. now rewrite H2', H1'.
Qed.

Lemma frames_ret {A : Type} (size : nat) (a : A) (post : A -> Prop) :
  post a -> frames size (ret a) post.
Proof. intros H w Hw. split; [now apply keepsOld_refl|exact H]. Qed.

Lemma frames_bind {A B : Type} (size : nat) (c : M A) (k : A -> M B)
    (mid : A -> Prop) (post : B -> Prop) :
  frames size c mid ->
  (forall a, mid a -> frames size (k a) post) ->
  frames size (bind c k) post.
Proof.
  intros Hc Hk w Hw. unfold bind.
  destruct (Hc w Hw) as [Hkeep Hmid].
  destruct (c w) as [[a|e] w1]; cbn [fst snd] in *.
  - destruct (Hk a Hmid w1 (proj1 Hkeep)) as [Hkeep2 Hpost].
    split; [now apply (keepsOld_trans _ _ _ _ Hkeep)|exact Hpost].
  - split; [exact Hkeep|exact I].
Qed.

Lemma frames_weaken {A : Type} (size : nat) (c : M A) (post post' : A -> Prop) :
  frames size c post -> (forall a, post a -> post' a) -> frames size c post'.
Proof.
  intros Hc Himp w Hw. destruct (Hc w Hw) as [Hkeep Hpost].
  split; [exact Hkeep|]. destruct (fst (c w)); auto.
Qed.

Lemma frames_neutral {A : Type} (size : nat) (c : M A) :
  heapNeutral c -> frames size c (fun _ => True).
Proof.
  intros Hc w Hw. split.
  - split; rewrite Hc; auto.
  - now destruct (fst (c w)).
Qed.

Lemma frames_deref (size : nat) (r : ref) :
  frames size (deref r) (fun _ => True).
Proof.
  apply frames_neutral. intros w. unfold deref.
  now destruct (nth_error (heap w) r).
Qed.

Lemma length_writeAt (r : ref) (v : MitosisComponent) (h : list MitosisComponent) :
  length (writeAt r v h) = length h.
Proof.
  revert r; induction h as [|x h IH]; intros [|r]; simpl; auto.
Qed.

Lemma nth_error_writeAt_other (r i : ref) (v : MitosisComponent)
    (h : list MitosisComponent) :
  i <> r -> nth_error (writeAt r v h) i = nth_error h i.
Proof.
  revert r i; induction h as [|x h IH]; intros [|r] [|i] H; simpl;
    try reflexivity; try contradiction.
  apply IH. congruence.
Qed.

(** An assignment through a reference at or beyond [size] leaves the first
    [size] objects alone. *)
Lemma frames_assign (size : nat) (r : ref) (v : MitosisComponent) :
  (size <= r)%nat -> frames size (assign r v) (fun _ => True).
Proof.
  intros Hr w Hw. unfold assign, keepsOld. cbn [fst snd heap].
  split; [|exact I]. split.
  - now rewrite length_writeAt.
  - intros i Hi. apply nth_error_writeAt_other. lia.
Qed.

(** A new object lies beyond the first [size] ones. *)
Lemma frames_alloc (size : nat) (v : MitosisComponent) :
  frames size (alloc v) (fun r => (size <= r)%nat).
Proof.
  intros w Hw. unfold alloc, keepsOld. cbn [fst snd heap].
  split; [|exact Hw]. split.
  - rewrite length_app. lia.
  - intros i Hi. apply nth_error_app1. lia.
Qed.

Lemma heapNeutral_ret {A : Type} (a : A) : heapNeutral (ret a).
Proof. intros w. reflexivity. Qed.

Lemma heapNeutral_bind {A B : Type} (c : M A) (k : A -> M B) :
  heapNeutral c -> (forall a, heapNeutral (k a)) -> heapNeutral (bind c k).
Proof.
  intros Hc Hk w. unfold bind. specialize (Hc w).
  destruct (c w) as [[a|e] w1]; cbn [snd] in *; [|exact Hc].
  now rewrite Hk.
Qed.

Lemma heapNeutral_tryCatch {A : Type} (body : M A) (handler : jsstring -> M A) :
  heapNeutral body -> (forall e, heapNeutral (handler e)) ->
  heapNeutral (tryCatch body handler).
Proof.
  intros Hb Hh w. unfold tryCatch. specialize (Hb w).
  destruct (body w) as [[a|e] w1]; cbn [snd] in *; [exact Hb|].
  now rewrite Hh.
Qed.

Lemma heapNeutral_call {A : Type} (r : completion A) : heapNeutral (call r).
Proof. intros w. reflexivity. Qed.

Lemma heapNeutral_consoleWarn (message error : jsstring) :
  heapNeutral (consoleWarn message error).
Proof. intros w. reflexivity. Qed.

Lemma heapNeutral_cssInJsSet (k v : jsstring) : heapNeutral (cssInJsSet k v).
Proof. intros w. reflexivity. Qed.

Lemma heapNeutral_cssInJsInit (m : option (list (jsstring * jsstring))) :
  heapNeutral (cssInJsInit m).
Proof. intros w. reflexivity. Qed.

Lemma heapNeutral_cssInJsGet : heapNeutral cssInJsGet.
Proof. intros w. reflexivity. Qed.

Lemma heapNeutral_forEachM {A X : Type} (step : A -> X -> M A) (xs : list X) :
  (forall acc x, heapNeutral (step acc x)) ->
  forall acc, heapNeutral (forEachM step xs acc).
Proof.
  intros Hstep. induction xs as [|x xs IH]; intros acc; cbn [forEachM].
  - apply heapNeutral_ret.
  - apply heapNeutral_bind; auto.
Qed.

(** Goals [heapNeutral c] for a computation built from the heap-neutral
    primitives. *)
Ltac neutral :=
  repeat first
    [ assumption
    | match goal with H : _ |- heapNeutral _ => solve [apply H] end
    | progress cbv zeta
    | apply heapNeutral_ret
    | apply heapNeutral_call
    | apply heapNeutral_consoleWarn
    | apply heapNeutral_cssInJsSet
    | apply heapNeutral_cssInJsInit
    | apply heapNeutral_cssInJsGet
    | apply heapNeutral_bind; [|intros ?]
    | apply heapNeutral_tryCatch; [|intros ?]
    | apply heapNeutral_forEachM; intros ? ?
    | match goal with
      | |- heapNeutral (if ?b then _ else _) => destruct b
      | |- heapNeutral (match ?x with _ => _ end) => destruct x
      | |- heapNeutral (let (_, _) := ?x in _) => destruct x
      end ].

Section Properties.

Context {collaborators : Collaborators}.

(* ------------------------------------------------------------------ *)
(** ** processBinding: blank input, failure *)

Lemma processBinding_nonblank (code : jsstring) (context : Context) (w : World) :
  truthy (trim code) = true ->
  processBinding code context w =
  match babelTransformExpression (substituteRefs context code) context with
  | Normal processed => (Normal processed, w)
  | Throw error => (Normal code, warned w (bindingWarning code error))
  end.
Proof.
  intros H. unfold processBinding. rewrite H.
  unfold negb, tryCatch, bind, call, consoleWarn, ret, warned, bindingWarning.
  destruct (babelTransformExpression _ _); [reflexivity|].
  cbn [heap cssInJs console]. now rewrite <- !app_assoc.
Qed.

(** C10.  A code string that is empty or made of whitespace only is answered
    with the empty string, in the frontmatter context and in the template
    context alike; nothing is logged and nothing else changes. *)
Theorem processBinding_blank (code : jsstring) (context : Context) (w : World) :
  forallb isWhiteSpace code = true ->
  processBinding code context w = (Normal [], w).
Proof.
  intros H. unfold processBinding.
  now rewrite (trim_whitespace _ H).
Qed.

(** C4.  [processBinding] never throws: whatever the expression transform
    does, the call completes normally; and when the transform throws, the
    answer is the code that was passed in, unchanged, after one warning on the
    console. *)
Theorem processBinding_never_throws
    (code : jsstring) (context : Context) (w : World) :
  (exists text w', processBinding code context w = (Normal text, w'))
  /\ (forall error,
        truthy (trim code) = true ->
        babelTransformExpression (substituteRefs context code) context
          = Throw error ->
        processBinding code context w
          = (Normal code, warned w (bindingWarning code error))).
Proof.
  split.
  - destruct (truthy (trim code)) eqn:E.
    + rewrite (processBinding_nonblank _ _ _ E).
      destruct (babelTransformExpression _ _); eauto.
    + unfold processBinding. rewrite E. simpl. unfold ret. eauto.
  - intros error E H. rewrite (processBinding_nonblank _ _ _ E). now rewrite H.
Qed.

(* ------------------------------------------------------------------ *)
(** ** analyzeHydrationNeeds *)

(** The tree walk only ever appends to the reasons. *)
Lemma checkNodeForInteractivity_appends (node : MitosisNode) :
  forall st, exists more, snd (checkNodeForInteractivity node st) = snd st ++ more.
Proof.
  induction node as [n p b cs me sc IHcs _] using MitosisNode_tree_ind.
  intros st. simpl.
  destruct (find _ b) as [[key _]|].
  - simpl. eauto.
  - revert st. induction IHcs as [|c cs Hc _ IH]; intros st; simpl.
    + exists []. now rewrite app_nil_r.
    + destruct (IH (checkNodeForInteractivity c st)) as [m2 H2].
      destruct (Hc st) as [m1 H1].
      exists (m1 ++ m2). rewrite H2, H1. now rewrite app_assoc.
Qed.

Lemma forest_appends (nodes : list MitosisNode) :
  forall st, exists more,
    snd (fold_left (fun st' child => checkNodeForInteractivity child st') nodes st)
    = snd st ++ more.
Proof.
  induction nodes as [|c cs IH]; intros st; simpl.
  - exists []. now rewrite app_nil_r.
  - destruct (IH (checkNodeForInteractivity c st)) as [m2 H2].
    destruct (checkNodeForInteractivity_appends c st) as [m1 H1].
    exists (m1 ++ m2). rewrite H2, H1. now rewrite app_assoc.
Qed.

(** C1.  With at least one [onMount] hook the suggested directive is
    [client:load], whatever refs and interactive events the component has. *)
Theorem onMount_forces_load (json : MitosisComponent) :
  (0 < length (onMount (hooks json)))%nat ->
  suggestedDirective (analyzeHydrationNeeds json) = CLIENT_DIRECTIVES_load.
Proof.
  intros Hmount. unfold analyzeHydrationNeeds.
  apply Nat.ltb_lt in Hmount. rewrite Hmount.
  set (mountReason := js "Component has " ++ ofNat (length (onMount (hooks json)))
                      ++ js " onMount hook(s)").
  assert (Hinc : includes (js "onMount") mountReason = true).
  { unfold mountReason.
    change (js " onMount hook(s)") with (js " " ++ js "onMount" ++ js " hook(s)").
    rewrite !app_assoc. rewrite <- (app_assoc _ (js "onMount")).
    apply includes_app. }
  destruct (0 <? length (getRefs json))%nat;
    destruct (onUpdate (hooks json)) as [updates|];
    cbv zeta;
    match goal with
    | |- context [fold_left ?f ?l (false, ?rs)] =>
        destruct (forest_appends l (false, rs)) as [more Hmore];
        destruct (fold_left f l (false, rs)) as [hasEvents reasons] eqn:E
    end;
    cbn [snd] in Hmore; subst reasons; cbn [suggestedDirective];
    match goal with
    | |- (if existsb ?g ?l then _ else _) = _ =>
        assert (Hex : existsb g l = true)
          by (apply existsb_exists; exists mountReason; split;
              [ rewrite !in_app_iff; simpl; tauto | exact Hinc ]);
        rewrite Hex; reflexivity
    end.
Qed.

Lemma find_existsb_false {A : Type} (f : A -> bool) (l : list A) :
  existsb f l = false -> find f l = None.
Proof.
  induction l as [|x l IH]; simpl; [reflexivity|].
  destruct (f x); simpl; [discriminate|exact IH].
Qed.

(** A subtree without interactive events leaves the walk's state alone. *)
Lemma checkNodeForInteractivity_static (node : MitosisNode) :
  noInteractiveEvents node = true ->
  forall st, checkNodeForInteractivity node st = st.
Proof.
  induction node as [n p b cs me sc IHcs _] using MitosisNode_tree_ind.
  simpl. intros H st.
  apply andb_true_iff in H as [Hb Hcs].
  apply negb_true_iff in Hb. rewrite (find_existsb_false _ _ Hb).
  revert st. induction IHcs as [|c cs Hc _ IH]; intros st; simpl; [reflexivity|].
  simpl in Hcs. apply andb_true_iff in Hcs as [H1 H2].
  rewrite (Hc H1). now apply IH.
Qed.

Lemma forest_static (nodes : list MitosisNode) :
  forallb noInteractiveEvents nodes = true ->
  forall st,
    fold_left (fun st' child => checkNodeForInteractivity child st') nodes st = st.
Proof.
  induction nodes as [|c cs IH]; simpl; intros H st; [reflexivity|].
  apply andb_true_iff in H as [H1 H2].
  rewrite (checkNodeForInteractivity_static _ H1). now apply IH.
Qed.

(** C3.  A component without refs, without [onMount] hooks, without an
    [onUpdate] declaration and without a binding named in the interactive
    allow-list anywhere below its children needs no hydration. *)
Theorem static_component_needs_no_hydration (json : MitosisComponent) :
  getRefs json = [] ->
  onMount (hooks json) = [] ->
  onUpdate (hooks json) = None ->
  forallb noInteractiveEvents (componentChildren json) = true ->
  needsHydration (analyzeHydrationNeeds json) = false.
Proof.
  intros Hrefs Hmount Hupdate Hstatic. unfold analyzeHydrationNeeds.
  rewrite Hrefs, Hmount, Hupdate. cbn [length Nat.ltb Nat.leb].
  now rewrite (forest_static _ Hstatic).
Qed.

(* ------------------------------------------------------------------ *)
(** ** processBinding: what is rewritten *)

(** C5, as amended.  Outside the blank and the failing case the processor
    answers with the expression transform's result on the substituted text.
    The substitution rewrites a reference [state.<name>] or [props.<name>]
    that starts the text or follows a character that is neither a word
    character nor a dot, and whose name ends where the next word character
    run ends, as follows, while the text before and after it is substituted on
    its own: in the template context both become [<name>], provided the member
    of [state] is not called [props] and the member of [props] is not called
    [state]; in the frontmatter context [state.<name>] becomes [<name>], and
    [props.<name>] stays, provided the prop is not called [state]. *)
Theorem processBinding_rewrites_references :
  (forall code context w processed,
     truthy (trim code) = true ->
     babelTransformExpression (substituteRefs context code) context
       = Normal processed ->
     processBinding code context w = (Normal processed, w))
  /\ (forall pre name post,
        endsBare pre = true -> name <> [] ->
        forallb isWordChar name = true -> headNonWord post = true ->
        (name <> js "props" ->
         substituteRefs Template (pre ++ js "state." ++ name ++ post)
         = substituteRefs Template pre ++ name ++ substituteRefs Template post)
        /\ (name <> js "state" ->
            substituteRefs Template (pre ++ js "props." ++ name ++ post)
            = substituteRefs Template pre ++ name ++ substituteRefs Template post)
        /\ substituteRefs Frontmatter (pre ++ js "state." ++ name ++ post)
           = substituteRefs Frontmatter pre ++ name
             ++ substituteRefs Frontmatter post
        /\ (name <> js "state" ->
            substituteRefs Frontmatter (pre ++ js "props." ++ name ++ post)
            = substituteRefs Frontmatter pre ++ js "props." ++ name
              ++ substituteRefs Frontmatter post)).
Proof.
  split.
  { intros code context w processed Hcode Hok.
    now rewrite (processBinding_nonblank _ _ _ Hcode), Hok. }
  intros pre name post Hpre Hn Hw Hpost.
  assert (HpreS : endsBare (replaceRefs (js "state") false pre) = true)
    by now apply replaceRefs_endsBare.
  assert (HpostS : headNonWord (replaceRefs (js "state") false post) = true)
    by now apply replaceRefs_headNonWord.
  repeat split.
  - intros Hne. unfold substituteRefs.
    rewrite (replaceRefs_state_ref _ _ _ Hpre Hn Hw Hpost).
    rewrite (replaceRefs_split _ props_word props_nonempty _ _ _ HpreS).
    now rewrite (replaceRefs_other_word _ props_word props_nonempty false
                   _ _ Hne Hw HpostS).
  - intros Hne. unfold substituteRefs.
    rewrite (replaceRefs_state_skips_props _ _ _ Hpre Hne Hw Hpost).
    rewrite (replaceRefs_split _ props_word props_nonempty _ _ _ HpreS).
    change (js "props.") with (js "props" ++ js "."). rewrite <- app_assoc.
    now rewrite (replaceRefs_ref _ props_word props_nonempty false
                   _ _ Hn Hw HpostS).
  - rewrite !substituteRefs_Frontmatter.
    now apply replaceRefs_state_ref.
  - intros Hne. rewrite !substituteRefs_Frontmatter.
    now apply replaceRefs_state_skips_props.
Qed.

(* ------------------------------------------------------------------ *)
(** ** processBinding: a second run *)

Lemma processBinding_empty (context : Context) (w : World) :
  processBinding [] context w = (Normal [], w).
Proof. reflexivity. Qed.

(** C2, as amended.  For a code in which no [.state.] occurs (and, in the
    template context, no [.props.]), a second run of the processor on the
    result of a first run returns that result again: always so in the earlier
    revision, which only substitutes, and in the later revision whenever the
    expression transform is stable (it keeps its own results, brings no
    reference about and does not answer with blank text). *)
Theorem processBinding_second_run (code : jsstring) (context : Context) :
  noChain context code = true ->
  Legacy.processBinding (Legacy.processBinding code context) context
    = Legacy.processBinding code context
  /\ (stableTransform babelTransformExpression ->
      forall w, exists text w1 w2,
        processBinding code context w = (Normal text, w1)
        /\ processBinding text context w1 = (Normal text, w2)).
Proof.
  intros Hchain. split.
  - exact (substituteRefs_idempotent context code Hchain).
  - intros Hstable w.
    destruct (truthy (trim code)) eqn:Hcode.
    + rewrite (processBinding_nonblank _ _ _ Hcode).
      destruct (babelTransformExpression (substituteRefs context code) context)
        as [result|error] eqn:Hrun.
      * destruct (Hstable _ _ _ Hrun) as (Hkeep & Hfree & Hblank).
        exists result, w.
        destruct (Hblank (substituteRefs_nonblank _ _ Hcode)) as [->|Hblank'].
        -- exists w. split; [reflexivity|apply processBinding_empty].
        -- exists w. split; [reflexivity|].
           rewrite (processBinding_nonblank _ _ _ Hblank').
           rewrite (substituteRefs_fixed context result
                      (Hfree (substituteRefs_refFree context code Hchain))).
           now rewrite Hkeep.
      * eexists code, _, _. split; [reflexivity|].
        rewrite (processBinding_nonblank _ _ _ Hcode). now rewrite Hrun.
    + exists [], w, w. split; [|apply processBinding_empty].
      unfold processBinding. now rewrite Hcode.
Qed.

(* ------------------------------------------------------------------ *)
(** ** collectClassString *)

Lemma processBinding_run (code : jsstring) (context : Context) (w : World) :
  processBinding code context w
  = (Normal (processBindingText code context), processBindingWorld code context w).
Proof.
  unfold processBinding, processBindingText, processBindingWorld.
  destruct (negb (truthy (trim code))); [reflexivity|].
  unfold tryCatch, bind, call, consoleWarn, ret.
  now destruct (babelTransformExpression _ _).
Qed.

Lemma bind_run {A B : Type} (c : M A) (k : A -> M B) (w w' : World) (a : A) :
  c w = (Normal a, w') -> bind c k w = k a w'.
Proof. intros H. unfold bind. now rewrite H. Qed.

(** [collectClassString] collects the entries of the spec and never throws. *)
Lemma collectClassString_run (node : MitosisNode) (w : World) :
  exists w',
    collectClassString node w = (Normal (classAttribute (classEntries node)), w').
Proof.
  unfold collectClassString, classEntries, classAttribute, filterJoin.
  destruct (truthy (trim (prop node (js "class"))));
    destruct (truthy (trim (prop node (js "className"))));
    destruct (truthy (trim (bindingCode node (js "class"))));
    destruct (truthy (trim (bindingCode node (js "className"))));
    destruct (truthy (trim (bindingCode node (js "css"))));
    unfold bind, ret, cssInJsSet; rewrite ?processBinding_run;
    cbn [app length Nat.eqb andb nth];
    repeat match goal with
           | |- context [if ?b then _ else _] => destruct b
           end;
    eexists; reflexivity.
Qed.

Lemma endsWith_app (p s : jsstring) : endsWith p (s ++ p) = true.
Proof. unfold endsWith. rewrite rev_app_distr. apply startsWith_app. Qed.

Lemma classAttribute_quoted (value : jsstring) :
  classAttribute [quote ++ value ++ quote]
  = js "class=" ++ quote ++ value ++ quote.
Proof.
  unfold classAttribute. cbn [length Nat.eqb andb nth].
  rewrite startsWith_app, app_assoc, endsWith_app. reflexivity.
Qed.

Lemma classAttribute_many (classes : list jsstring) :
  (2 <= length classes)%nat -> classAttribute classes = filterJoin classes.
Proof.
  intros H. unfold classAttribute.
  destruct classes as [|a [|b l]]; simpl in H; try lia. reflexivity.
Qed.

Lemma classAttribute_dynamic (text : jsstring) :
  classAttribute [js "(" ++ text ++ js ")"] = filterJoin [js "(" ++ text ++ js ")"].
Proof. reflexivity. Qed.

(** C6, as amended.  When the literal [class] is the only class source that
    is not blank, the attribute is [class="<value>"] with the value trimmed
    and no expression around it.  When two or more sources are not blank, or
    the [class] or the [className] binding is not blank, the attribute is the
    expression that joins all collected entries after filtering out the falsy
    ones.  When every source is blank there is no attribute. *)
Theorem collectClassString_forms (node : MitosisNode) (w : World) :
  (truthy (trim (prop node (js "class"))) = true ->
   truthy (trim (prop node (js "className"))) = false ->
   truthy (trim (bindingCode node (js "class"))) = false ->
   truthy (trim (bindingCode node (js "className"))) = false ->
   truthy (trim (bindingCode node (js "css"))) = false ->
   fst (collectClassString node w)
   = Normal (js "class=" ++ quote ++ trim (prop node (js "class")) ++ quote))
  /\ ((2 <= length (classEntries node))%nat
      \/ truthy (trim (bindingCode node (js "class"))) = true
      \/ truthy (trim (bindingCode node (js "className"))) = true ->
      fst (collectClassString node w) = Normal (filterJoin (classEntries node)))
  /\ (classEntries node = [] -> fst (collectClassString node w) = Normal []).
Proof.
  destruct (collectClassString_run node w) as [w' ->]. cbn [fst].
  repeat split.
  - intros H1 H2 H3 H4 H5. unfold classEntries.
    rewrite H1, H2, H3, H4, H5. cbn [app].
    now rewrite classAttribute_quoted.
  - intros H. f_equal.
    destruct (Nat.le_gt_cases 2 (length (classEntries node))) as [Hlen|Hlen];
      [now apply classAttribute_many|].
    destruct H as [H|H]; [lia|].
    revert Hlen. unfold classEntries.
    destruct (truthy (trim (prop node (js "class"))));
      destruct (truthy (trim (prop node (js "className"))));
      destruct (truthy (trim (bindingCode node (js "class"))));
      destruct (truthy (trim (bindingCode node (js "className"))));
      destruct (truthy (trim (bindingCode node (js "css"))));
      cbn [app length]; intros Hlen; try lia;
      try apply classAttribute_dynamic;
      destruct H; discriminate.
  - intros ->. reflexivity.
Qed.

(* ------------------------------------------------------------------ *)
(** ** blockToAstro *)

Lemma blockToAstro_eq (options : ToAstroOptions) (node : MitosisNode) :
  blockToAstro options node
  = blockToAstroBody options node
      (renderChildren options (children node))
      (option_map (blockToAstro options) (metaElse node)).
Proof. destruct node as [n p b cs [e|] sc]; reflexivity. Qed.

(** The names of the allow-list are not among the reserved binding names. *)
Lemma interactive_not_reserved (key : jsstring) :
  has INTERACTIVE_EVENTS key = true ->
  jseqb key (js "class") = false /\ jseqb key (js "className") = false
  /\ jseqb key (js "css") = false /\ jseqb key (js "_text") = false
  /\ jseqb key (js "ref") = false.
Proof.
  intros H. apply existsb_exists in H as (x & Hin & Hx).
  apply jseqb_eq in Hx. subst x.
  unfold INTERACTIVE_EVENTS in Hin. cbn [map In] in Hin.
  repeat (destruct Hin as [<-|Hin]; [repeat split; reflexivity|]).
  contradiction.
Qed.

(** One step of the loop over the bindings never throws, and never resets
    the flag. *)
Lemma dynamicBinding_run (node : MitosisNode) (acc : jsstring * bool)
    (kv : jsstring * Binding) (w : World) :
  exists acc' w',
    dynamicBinding node acc kv w = (Normal acc', w')
    /\ (snd acc = true -> snd acc' = true).
Proof.
  destruct acc as [elementString needs], kv as [key b].
  unfold dynamicBinding.
  destruct (negb (truthy (trim (code b)))); [unfold ret; eauto|].
  destruct (jseqb key (js "class") || jseqb key (js "className")
            || jseqb key (js "css") || jseqb key (js "_text"));
    [unfold ret; eauto|].
  destruct (type b).
  - destruct (jseqb key (js "ref")); [unfold ret; cbn; eauto|].
    destruct (checkIsEvent key).
    + unfold bind, ret. rewrite processBinding_run.
      do 2 eexists. split; [reflexivity|]. cbn [snd].
      intros ->. now destruct (has INTERACTIVE_EVENTS key).
    + destruct (jseqb key (js "innerHTML"));
        [|destruct (jseqb key (js "style"))];
        unfold bind, ret; rewrite processBinding_run; eauto.
  - unfold bind, ret. rewrite processBinding_run. eauto.
Qed.

(** The step for an interactive event sets the flag. *)
Lemma dynamicBinding_marks (node : MitosisNode) (acc : jsstring * bool)
    (key : jsstring) (b : Binding) (w : World) :
  has INTERACTIVE_EVENTS key = true -> checkIsEvent key = true ->
  truthy (trim (code b)) = true -> type b = single ->
  exists acc' w',
    dynamicBinding node acc (key, b) w = (Normal acc', w') /\ snd acc' = true.
Proof.
  intros Hkey Hevent Hcode Htype.
  destruct (interactive_not_reserved key Hkey) as (H1 & H2 & H3 & H4 & H5).
  destruct acc as [elementString needs]. unfold dynamicBinding.
  rewrite Hcode, H1, H2, H3, H4, H5, Htype, Hevent, Hkey. cbn [negb orb].
  unfold bind, ret. rewrite processBinding_run. eauto.
Qed.

Lemma forEachM_dynamicBinding_run (node : MitosisNode)
    (bs : list (jsstring * Binding)) :
  forall acc w, exists acc' w',
    forEachM (dynamicBinding node) bs acc w = (Normal acc', w')
    /\ (snd acc = true -> snd acc' = true).
Proof.
  induction bs as [|kv bs IH]; intros acc w; cbn [forEachM].
  - unfold ret. eauto.
  - destruct (dynamicBinding_run node acc kv w) as (acc1 & w1 & H1 & Hflag1).
    destruct (IH acc1 w1) as (acc2 & w2 & H2 & Hflag2).
    exists acc2, w2. rewrite (bind_run _ _ _ _ _ H1). auto.
Qed.

Lemma forEachM_dynamicBinding_marks (node : MitosisNode)
    (bs : list (jsstring * Binding)) (key : jsstring) (b : Binding) :
  In (key, b) bs ->
  has INTERACTIVE_EVENTS key = true -> checkIsEvent key = true ->
  truthy (trim (code b)) = true -> type b = single ->
  forall acc w, exists acc' w',
    forEachM (dynamicBinding node) bs acc w = (Normal acc', w')
    /\ snd acc' = true.
Proof.
  intros Hin Hkey Hevent Hcode Htype.
  induction bs as [|kv bs IH]; [contradiction|].
  intros acc w. cbn [forEachM]. destruct Hin as [->|Hin].
  - destruct (dynamicBinding_marks node acc key b w Hkey Hevent Hcode Htype)
      as (acc1 & w1 & H1 & Hflag1).
    destruct (forEachM_dynamicBinding_run node bs acc1 w1)
      as (acc2 & w2 & H2 & Hflag2).
    exists acc2, w2. rewrite (bind_run _ _ _ _ _ H1). auto.
  - destruct (dynamicBinding_run node acc kv w) as (acc1 & w1 & H1 & _).
    destruct (IH Hin acc1 w1) as (acc2 & w2 & H2 & Hflag2).
    exists acc2, w2. rewrite (bind_run _ _ _ _ _ H1). auto.
Qed.

(** The start of an element never throws. *)
Lemma elementStart_run (options : ToAstroOptions) (node : MitosisNode) (w : World) :
  exists text w', elementStart options node w = (Normal text, w').
Proof.
  unfold elementStart.
  destruct (collectClassString_run node w) as [w1 H1].
  rewrite (bind_run _ _ _ _ _ H1).
  match goal with
  | |- context [forEachM ?f ?bs ?acc] =>
      destruct (forEachM_dynamicBinding_run node bs acc w1)
        as ([elementString needs] & w2 & H2 & _)
  end.
  rewrite (bind_run _ _ _ _ _ H2).
  destruct (needs && _); unfold ret; eauto.
Qed.

(** With an interactive event among the bindings, and unless the directives
    are disabled, the start of the element ends with the marker. *)
Lemma elementStart_marked (options : ToAstroOptions) (node : MitosisNode)
    (key : jsstring) (b : Binding) (w : World) :
  In (key, b) (bindings node) ->
  has INTERACTIVE_EVENTS key = true -> checkIsEvent key = true ->
  truthy (trim (code b)) = true -> type b = single ->
  clientDirective options <> Some (js "none") ->
  exists before w',
    elementStart options node w
    = (Normal (before ++ js " " ++ directiveOf options), w').
Proof.
  intros Hin Hkey Hevent Hcode Htype Hnone.
  unfold elementStart.
  destruct (collectClassString_run node w) as [w1 H1].
  rewrite (bind_run _ _ _ _ _ H1).
  match goal with
  | |- context [forEachM ?f ?bs ?acc] =>
      destruct (forEachM_dynamicBinding_marks node bs key b Hin Hkey Hevent
                  Hcode Htype acc w1)
        as ([elementString needs] & w2 & H2 & Hflag)
  end.
  rewrite (bind_run _ _ _ _ _ H2). cbn [snd] in Hflag. subst needs.
  assert (Hd : match clientDirective options with
               | Some d => jseqb d (js "none")
               | None => false
               end = false).
  { destruct (clientDirective options) as [d|]; [|reflexivity].
    destruct (jseqb d (js "none")) eqn:E; [|reflexivity].
    apply jseqb_eq in E. subst d. contradiction. }
  rewrite Hd. cbn [andb negb]. unfold ret, directiveOf. eauto.
Qed.

Lemma renderChildren_cons (options : ToAstroOptions) (child : MitosisNode)
    (cs : list MitosisNode) :
  renderChildren options (child :: cs)
  = if filterEmptyTextNodes child
    then bind (blockToAstro options child)
           (fun r => bind (renderChildren options cs) (fun rs => ret (r :: rs)))
    else renderChildren options cs.
Proof. reflexivity. Qed.

(** The plain-element case of the dispatch. *)
Lemma blockToAstroBody_element (options : ToAstroOptions) (node : MitosisNode)
    (renderedChildren : M (list jsstring)) (renderedElse : option (M jsstring)) :
  truthy (prop node (js "_text")) = false ->
  truthy (bindingCode node (js "_text")) = false ->
  jseqb (name node) (js "Fragment") = false ->
  checkIsForNode node = false ->
  jseqb (name node) (js "Show") = false ->
  blockToAstroBody options node renderedChildren renderedElse
  = bind (elementStart options node)
      (fun elementString =>
         if has SELF_CLOSING_HTML_TAGS (name node)
         then ret (elementString ++ js " />")
         else
           bind
             (if truthy (bindingCode node (js "innerHTML")) then
                bind (processBinding (bindingCode node (js "innerHTML")) Template)
                  (fun htmlCode =>
                     ret ((elementString ++ js ">") ++ js "{" ++ htmlCode ++ js "}"))
              else if (0 <? length (children node))%nat then
                bind renderedChildren
                  (fun rs => ret ((elementString ++ js ">") ++ join nl rs))
              else ret (elementString ++ js ">"))
             (fun elementString' =>
                ret (elementString' ++ js "</" ++ name node ++ js ">"))).
Proof.
  intros H1 H2 H3 H4 H5. unfold blockToAstroBody.
  now rewrite H1, H2, H3, H4, H5.
Qed.

Lemma renderChildren_run (options : ToAstroOptions) (cs : list MitosisNode) :
  Forall (fun node => forall w, exists text w',
            blockToAstro options node w = (Normal text, w')) cs ->
  forall w, exists rs w', renderChildren options cs w = (Normal rs, w').
Proof.
  induction 1 as [|c cs Hc _ IH]; intros w.
  - unfold renderChildren, ret. eauto.
  - rewrite renderChildren_cons.
    destruct (filterEmptyTextNodes c); [|apply IH].
    destruct (Hc w) as (r & w1 & H1). destruct (IH w1) as (rs & w2 & H2).
    rewrite (bind_run _ _ _ _ _ H1), (bind_run _ _ _ _ _ H2).
    unfold ret. eauto.
Qed.

(** The renderer never throws. *)
Lemma blockToAstro_run (options : ToAstroOptions) (node : MitosisNode) :
  forall w, exists text w', blockToAstro options node w = (Normal text, w').
Proof.
  induction node as [n p b cs me sc IHcs IHelse] using MitosisNode_tree_ind.
  intros w. rewrite blockToAstro_eq. cbn [children metaElse].
  pose proof (renderChildren_run options cs IHcs) as Hcs.
  set (node := MkNode n p b cs me sc).
  unfold blockToAstroBody.
  destruct (truthy (prop node (js "_text"))); [unfold ret; eauto|].
  destruct (truthy (bindingCode node (js "_text"))).
  { unfold bind, ret. rewrite processBinding_run. eauto. }
  destruct (jseqb (name node) (js "Fragment")).
  { destruct (Hcs w) as (rs & w1 & H1). rewrite (bind_run _ _ _ _ _ H1).
    unfold ret. eauto. }
  destruct (checkIsForNode node).
  { rewrite (bind_run _ _ _ _ _ (processBinding_run _ _ _)).
    destruct (Hcs (processBindingWorld (bindingCode node (js "each")) Template w))
      as (rs & w1 & H1).
    rewrite (bind_run _ _ _ _ _ H1). unfold ret. eauto. }
  destruct (jseqb (name node) (js "Show")).
  { rewrite (bind_run _ _ _ _ _ (processBinding_run _ _ _)).
    destruct (Hcs (processBindingWorld (bindingCode node (js "when")) Template w))
      as (rs & w1 & H1).
    rewrite (bind_run _ _ _ _ _ H1).
    destruct me as [e|]; cbn [option_map].
    - destruct (IHelse w1) as (text & w2 & H2).
      rewrite (bind_run _ _ _ _ _ H2). unfold ret. eauto.
    - unfold bind, ret. eauto. }
  destruct (elementStart_run options node w) as (start & w1 & H1).
  rewrite (bind_run _ _ _ _ _ H1).
  destruct (has SELF_CLOSING_HTML_TAGS (name node)); [unfold ret; eauto|].
  destruct (truthy (bindingCode node (js "innerHTML"))).
  { unfold bind, ret. rewrite processBinding_run. eauto. }
  destruct (0 <? length (children node))%nat.
  - destruct (Hcs w1) as (rs & w2 & H2).
    unfold bind at 1. rewrite (bind_run _ _ _ _ _ H2). unfold ret. eauto.
  - unfold bind, ret. eauto.
Qed.

Lemma bind_ext_l {A B : Type} (c1 c2 : M A) (k : A -> M B) :
  (forall w, c1 w = c2 w) -> forall w, bind c1 k w = bind c2 k w.
Proof. intros H w. unfold bind. now rewrite H. Qed.

Lemma bind_ext_r {A B : Type} (c : M A) (k1 k2 : A -> M B) :
  (forall a w, k1 a w = k2 a w) -> forall w, bind c k1 w = bind c k2 w.
Proof. intros H w. unfold bind. destruct (c w) as [[a|e] w']; auto. Qed.

(** Of the options, the renderer reads [clientDirective] only. *)
Lemma elementStart_options (o1 o2 : ToAstroOptions) (node : MitosisNode) :
  clientDirective o1 = clientDirective o2 ->
  elementStart o1 node = elementStart o2 node.
Proof. intros H. unfold elementStart. now rewrite H. Qed.

Lemma blockToAstro_options (o1 o2 : ToAstroOptions) (node : MitosisNode) :
  clientDirective o1 = clientDirective o2 ->
  forall w, blockToAstro o1 node w = blockToAstro o2 node w.
Proof.
  intros Ho.
  induction node as [n p b cs me sc IHcs IHelse] using MitosisNode_tree_ind.
  intros w. rewrite !blockToAstro_eq. cbn [children metaElse].
  assert (Hcs : forall w, renderChildren o1 cs w = renderChildren o2 cs w).
  { clear w. induction IHcs as [|c cs Hc _ IH]; intros w; [reflexivity|].
    rewrite !renderChildren_cons.
    destruct (filterEmptyTextNodes c); [|apply IH].
    unfold bind. rewrite Hc. destruct (blockToAstro o2 c w) as [[r|e] w1];
      [|reflexivity].
    now rewrite IH. }
  set (node := MkNode n p b cs me sc).
  unfold blockToAstroBody. rewrite (elementStart_options o1 o2 node Ho).
  destruct (truthy (prop node (js "_text"))); [reflexivity|].
  destruct (truthy (bindingCode node (js "_text"))); [reflexivity|].
  destruct (jseqb (name node) (js "Fragment")); [now apply bind_ext_l|].
  destruct (checkIsForNode node).
  { apply bind_ext_r. intros eachCode w'. now apply bind_ext_l. }
  destruct (jseqb (name node) (js "Show")).
  { apply bind_ext_r. intros whenCode w'.
    unfold bind. rewrite Hcs.
    destruct (renderChildren o2 cs w') as [[rs|e] w1]; [|reflexivity].
    destruct me as [elseNode|]; cbn [option_map]; [|reflexivity].
    now rewrite IHelse. }
  apply bind_ext_r. intros elementString w'.
  destruct (has SELF_CLOSING_HTML_TAGS (name node)); [reflexivity|].
  apply bind_ext_l. intros w''.
  destruct (truthy (bindingCode node (js "innerHTML"))); [reflexivity|].
  destruct (0 <? length (children node))%nat; [|reflexivity].
  now apply bind_ext_l.
Qed.

(** C7, as amended.  A plain element (no literal text, no text binding, not
    a [Fragment], [For] or [Show] node) that carries a binding named in the
    interactive allow-list, with code that is not blank and not of the spread
    type, is rendered with the marker of the configured directive, or of
    [client:idle] when none is configured, unless the directives are disabled
    with ['none']; the [typescript] option has no part in it. *)
Theorem interactive_element_has_directive
    (options : ToAstroOptions) (node : MitosisNode)
    (key : jsstring) (b : Binding) (w : World) :
  truthy (prop node (js "_text")) = false ->
  truthy (bindingCode node (js "_text")) = false ->
  jseqb (name node) (js "Fragment") = false ->
  checkIsForNode node = false ->
  jseqb (name node) (js "Show") = false ->
  In (key, b) (bindings node) ->
  has INTERACTIVE_EVENTS key = true -> checkIsEvent key = true ->
  truthy (trim (code b)) = true -> type b = single ->
  clientDirective options <> Some (js "none") ->
  (exists text w',
      blockToAstro options node w = (Normal text, w')
      /\ includes (js " " ++ directiveOf options) text = true)
  /\ (forall typed,
        blockToAstro
          {| clientDirective := clientDirective options;
             typescript := typed;
             prettier := prettier options;
             plugins := plugins options;
             explicitImportFileExtension := explicitImportFileExtension options |}
          node w
        = blockToAstro options node w).
Proof.
  intros H1 H2 H3 H4 H5 Hin Hkey Hevent Hcode Htype Hnone.
  split; [|intros typed; now apply blockToAstro_options].
  rewrite blockToAstro_eq, (blockToAstroBody_element _ _ _ _ H1 H2 H3 H4 H5).
  destruct (elementStart_marked options node key b w Hin Hkey Hevent Hcode
              Htype Hnone) as (before & w1 & Hstart).
  rewrite (bind_run _ _ _ _ _ Hstart).
  set (marker := js " " ++ directiveOf options).
  destruct (has SELF_CLOSING_HTML_TAGS (name node)).
  { unfold ret. do 2 eexists. split; [reflexivity|].
    rewrite <- !app_assoc. apply includes_app. }
  destruct (truthy (bindingCode node (js "innerHTML"))).
  { unfold bind, ret. rewrite processBinding_run.
    do 2 eexists. split; [reflexivity|].
    rewrite <- !app_assoc. apply includes_app. }
  destruct (0 <? length (children node))%nat.
  - destruct (renderChildren_run options (children node)
                (proj2 (Forall_forall _ _) (fun c _ => blockToAstro_run options c)) w1)
      as (rs & w2 & Hrs).
    unfold bind at 1. rewrite (bind_run _ _ _ _ _ Hrs). unfold ret.
    do 2 eexists. split; [reflexivity|].
    rewrite <- !app_assoc. apply includes_app.
  - unfold bind, ret. do 2 eexists. split; [reflexivity|].
    rewrite <- !app_assoc. apply includes_app.
Qed.


(* ------------------------------------------------------------------ *)
(** ** componentToAstro and the caller's component *)

Lemma processBinding_heap (code : jsstring) (context : Context) :
  heapNeutral (processBinding code context).
Proof. unfold processBinding. neutral. Qed.

Lemma collectClassString_heap (node : MitosisNode) :
  heapNeutral (collectClassString node).
Proof.
  pose proof processBinding_heap as Hp.
  unfold collectClassString. neutral.
Qed.

Lemma dynamicBinding_heap (node : MitosisNode) (acc : jsstring * bool)
    (kv : jsstring * Binding) :
  heapNeutral (dynamicBinding node acc kv).
Proof.
  destruct acc as [elementString needs], kv as [key b].
  pose proof processBinding_heap as Hp.
  unfold dynamicBinding. neutral.
Qed.

Lemma elementStart_heap (options : ToAstroOptions) (node : MitosisNode) :
  heapNeutral (elementStart options node).
Proof.
  unfold elementStart.
  apply heapNeutral_bind; [apply collectClassString_heap|intros classAttr].
  apply heapNeutral_bind.
  - apply heapNeutral_forEachM. intros acc kv. apply dynamicBinding_heap.
  - intros [elementString needs]. neutral.
Qed.

Lemma renderChildren_heap (options : ToAstroOptions) (cs : list MitosisNode) :
  Forall (fun node => heapNeutral (blockToAstro options node)) cs ->
  heapNeutral (renderChildren options cs).
Proof.
  induction 1 as [|c cs Hc _ IH].
  - apply heapNeutral_ret.
  - rewrite renderChildren_cons. neutral.
Qed.

Lemma blockToAstro_heap (options : ToAstroOptions) (node : MitosisNode) :
  heapNeutral (blockToAstro options node).
Proof.
  induction node as [n p b cs me sc IHcs IHelse] using MitosisNode_tree_ind.
  rewrite blockToAstro_eq. cbn [children metaElse].
  pose proof (renderChildren_heap options cs IHcs) as Hcs.
  pose proof processBinding_heap as Hp.
  pose proof (elementStart_heap options) as He.
  unfold blockToAstroBody.
  destruct me as [elseNode|]; cbn [option_map]; neutral.
Qed.

Lemma cssObjectToString_heap (cssCode : jsstring) :
  heapNeutral (cssObjectToString cssCode).
Proof. unfold cssObjectToString. neutral. Qed.

(** The clone is a new object. *)
Lemma frames_fastClone (size : nat) (component : ref) :
  frames size (fastClone component) (fun json => (size <= json)%nat).
Proof.
  unfold fastClone.
  eapply frames_bind; [apply frames_deref|intros v _]. apply frames_alloc.
Qed.

(** A JSON hook runner mutates the object it is given and answers with it or
    with a new object. *)
Lemma frames_runJsonPlugins (size : nat)
    (run : MitosisComponent -> MitosisComponent * option MitosisComponent)
    (json : ref) :
  (size <= json)%nat ->
  frames size (runJsonPlugins run json) (fun json' => (size <= json')%nat).
Proof.
  intros Hjson. unfold runJsonPlugins.
  eapply frames_bind; [apply frames_deref|intros v _].
  destruct (run v) as [v' returned].
  eapply frames_bind; [now apply frames_assign|intros _ _].
  destruct returned; [apply frames_alloc|now apply frames_ret].
Qed.

(** One step of a sequence in [frames]: the first computation is a read, an
    assignment through a reference beyond the frame, a run of JSON hooks, or
    does not touch the heap. *)
Ltac frame_step :=
  eapply frames_bind;
  [ first
      [ apply frames_deref
      | apply frames_fastClone
      | apply frames_assign; assumption
      | match goal with
        | |- frames _ (match ?o with Some _ => _ | None => _ end) _ =>
            destruct o;
            [ apply frames_runJsonPlugins; assumption
            | apply frames_ret; assumption ]
        end
      | apply frames_neutral; neutral ]
  | intros ? ? ].

Lemma frames_componentToAstro (size : nat) (userOptions : ToAstroOptions)
    (component : ref) :
  frames size (componentToAstro userOptions component) (fun _ => True).
Proof.
  pose proof processBinding_heap as Hbinding.
  pose proof blockToAstro_heap as Hblock.
  pose proof cssObjectToString_heap as Hcss.
  unfold componentToAstro.
  frame_step. frame_step. cbv zeta. frame_step. frame_step. frame_step.
  match goal with
  | |- frames _ (let (_, _) := ?x in _) _ => destruct x as [css v']
  end.
  do 12 frame_step.
  now apply frames_ret.
Qed.

(** C9.  One compilation leaves every component object that exists before
    the call, the caller's among them, as it is: the hooks of the plugins, the
    CSS collector and the metadata stripper only ever get the clone (or an
    object that a hook has returned), and what else the generator mutates is
    the accumulator of the options and the console. *)
Theorem componentToAstro_keeps_component
    (userOptions : ToAstroOptions) (component : ref) (w : World) :
  let w' := snd (componentToAstro userOptions component w) in
  nth_error (heap w') component = nth_error (heap w) component
  /\ forall r v, nth_error (heap w) r = Some v -> nth_error (heap w') r = Some v.
Proof.
  intros w'.
  destruct (frames_componentToAstro (length (heap w)) userOptions component w
              (Nat.le_refl _)) as [[Hlen Hold] _].
  fold w' in Hlen, Hold.
  assert (Hall : forall r v, nth_error (heap w) r = Some v ->
                             nth_error (heap w') r = Some v).
  { intros r v Hr. rewrite Hold; [exact Hr|].
    apply nth_error_Some. congruence. }
  split; [|exact Hall].
  destruct (nth_error (heap w) component) as [v|] eqn:E; [now apply Hall|].
  (* a dangling reference: the clone fails at once *)
  subst w'. unfold componentToAstro, fastClone, bind, deref. now rewrite E.
Qed.

End Properties.

(* ------------------------------------------------------------------ *)
(** ** Instances of the conditional statements *)

Lemma processBinding_blank_witness :
  forallb isWhiteSpace [32; 9; 10; 160]%N = true
  /\ @processBinding referenceCollaborators [32; 9; 10; 160]%N Frontmatter emptyWorld
     = (Normal [], emptyWorld).
Proof.
  split; [reflexivity|].
  apply (@processBinding_blank referenceCollaborators). reflexivity.
Defined.

Lemma processBinding_never_throws_witness :
  @processBinding rejectingCollaborators (js "state.count +") Template emptyWorld
  = (Normal (js "state.count +"),
     warned emptyWorld (bindingWarning (js "state.count +") (js "SyntaxError"))).
Proof.
  apply (proj2 (@processBinding_never_throws rejectingCollaborators
                  (js "state.count +") Template emptyWorld));
    reflexivity.
Defined.

Lemma onMount_forces_load_witness :
  suggestedDirective
    (@analyzeHydrationNeeds referenceCollaborators
       (componentOf [{| hookCode := js "start()" |}] None
          [element "button" [] [(js "onClick", binding "state.n++")] []]))
  = js "client:load".
Proof.
  apply (@onMount_forces_load referenceCollaborators). simpl. lia.
Defined.

Lemma static_component_needs_no_hydration_witness :
  needsHydration
    (@analyzeHydrationNeeds referenceCollaborators
       (componentOf [] None
          [element "div" [(js "class", js "box")] [(js "title", binding "props.title")]
             [element "span" [] [(js "onCustom", binding "state.go()")] []]]))
  = false.
Proof.
  apply (@static_component_needs_no_hydration referenceCollaborators);
    reflexivity.
Defined.

Lemma referenceTransform_stable :
  stableTransform (@babelTransformExpression referenceCollaborators).
Proof.
  intros text context result H. injection H as <-. repeat split; auto.
Qed.

Lemma processBinding_second_run_witness :
  noChain Template (js "state.count + props.step") = true
  /\ exists text w1 w2,
       @processBinding referenceCollaborators (js "state.count + props.step")
         Template emptyWorld = (Normal text, w1)
       /\ @processBinding referenceCollaborators text Template w1
          = (Normal text, w2).
Proof.
  split; [reflexivity|].
  apply (proj2 (@processBinding_second_run referenceCollaborators
                  (js "state.count + props.step") Template eq_refl)
           referenceTransform_stable emptyWorld).
Defined.

Lemma processBinding_rewrites_references_witness :
  @processBinding referenceCollaborators (js "a + state.count * 2") Template emptyWorld
    = (Normal (js "a + count * 2"), emptyWorld)
  /\ substituteRefs Template (js "a + " ++ js "state." ++ js "count" ++ js " * 2")
     = substituteRefs Template (js "a + ") ++ js "count"
       ++ substituteRefs Template (js " * 2")
  /\ substituteRefs Template (js "a + " ++ js "props." ++ js "count" ++ js " * 2")
     = substituteRefs Template (js "a + ") ++ js "count"
       ++ substituteRefs Template (js " * 2")
  /\ substituteRefs Frontmatter (js "a + " ++ js "props." ++ js "count" ++ js " * 2")
     = substituteRefs Frontmatter (js "a + ") ++ js "props." ++ js "count"
       ++ substituteRefs Frontmatter (js " * 2").
Proof.
  pose proof (@processBinding_rewrites_references referenceCollaborators)
    as [Hrun Hrefs].
  split.
  - apply Hrun; reflexivity.
  - destruct (Hrefs (js "a + ") (js "count") (js " * 2"))
      as (Hstate & Hprops & _ & Hkept);
      try reflexivity; try discriminate.
    split; [apply Hstate; discriminate|].
    split; [apply Hprops; discriminate|apply Hkept; discriminate].
Defined.

Lemma collectClassString_forms_witness :
  fst (@collectClassString referenceCollaborators
         (element "div" [(js "class", js " box ")] [] []) emptyWorld)
    = Normal (js "class=" ++ quote ++ js "box" ++ quote)
  /\ fst (@collectClassString referenceCollaborators
            (element "div" [(js "class", js "box")]
               [(js "class", binding "state.open ? 'open' : ''")] [])
            emptyWorld)
     = Normal (js "class={[" ++ quote ++ js "box" ++ quote
               ++ js ", (open ? 'open' : '')].filter(Boolean).join(' ')}")
  /\ fst (@collectClassString referenceCollaborators
            (element "div" [(js "id", js "x")] [] []) emptyWorld)
     = Normal [].
Proof.
  split; [|split].
  - apply (proj1 (@collectClassString_forms referenceCollaborators
                    (element "div" [(js "class", js " box ")] [] []) emptyWorld));
      reflexivity.
  - apply (proj1 (proj2 (@collectClassString_forms referenceCollaborators
                           (element "div" [(js "class", js "box")]
                              [(js "class", binding "state.open ? 'open' : ''")] [])
                           emptyWorld))).
    left. simpl. lia.
  - apply (proj2 (proj2 (@collectClassString_forms referenceCollaborators
                           (element "div" [(js "id", js "x")] [] []) emptyWorld))).
    reflexivity.
Defined.

Lemma interactive_element_has_directive_witness :
  exists text w',
    @blockToAstro referenceCollaborators
      {| clientDirective := Some (js "client:visible"); typescript := Some false;
         prettier := None; plugins := None; explicitImportFileExtension := None |}
      (element "button" [] [(js "onClick", binding "state.go()")]
         [element "div" [(js "_text", js "Go")] [] []])
      emptyWorld = (Normal text, w')
    /\ includes (js " " ++ js "client:visible") text = true.
Proof.
  apply (proj1 (@interactive_element_has_directive referenceCollaborators
                  {| clientDirective := Some (js "client:visible");
                     typescript := Some false; prettier := None; plugins := None;
                     explicitImportFileExtension := None |}
                  (element "button" [] [(js "onClick", binding "state.go()")]
                     [element "div" [(js "_text", js "Go")] [] []])
                  (js "onClick") (binding "state.go()") emptyWorld
                  eq_refl eq_refl eq_refl eq_refl eq_refl
                  (or_introl eq_refl) eq_refl eq_refl eq_refl eq_refl
                  ltac:(discriminate))).
Defined.


(* ------------------------------------------------------------------ *)
(** ** Where the sentences of the spec fail *)

(** C2 fails for a state member that is itself called [state]: the first run
    answers [state.x], the second run [x], in both revisions and in both
    contexts. *)
Lemma processBinding_second_run_differs :
  @processBinding referenceCollaborators (js "state.state.x") Template emptyWorld
    = (Normal (js "state.x"), emptyWorld)
  /\ @processBinding referenceCollaborators (js "state.x") Template emptyWorld
     = (Normal (js "x"), emptyWorld)
  /\ @processBinding referenceCollaborators (js "state.state.x") Frontmatter emptyWorld
     = (Normal (js "state.x"), emptyWorld)
  /\ @processBinding referenceCollaborators (js "state.x") Frontmatter emptyWorld
     = (Normal (js "x"), emptyWorld)
  /\ Legacy.processBinding (js "state.state.x") Template = js "state.x"
  /\ Legacy.processBinding (Legacy.processBinding (js "state.state.x") Template)
       Template = js "x"
  /\ js "x" <> js "state.x".
Proof. repeat split; try reflexivity. discriminate. Qed.

(** C5 fails where a member is called like the other container, and where
    the expression transform rejects the text: [props.state.x] keeps neither
    its qualification in the frontmatter context nor its member in the
    template context, [state.props.x] loses [props] in the template context,
    and a rejected text keeps its reference. *)
Lemma processBinding_nested_member :
  (@processBinding referenceCollaborators (js "props.state.x") Frontmatter emptyWorld
     = (Normal (js "props.x"), emptyWorld)
   /\ js "props.x" <> js "props.state.x")
  /\ (@processBinding referenceCollaborators (js "props.state.x") Template emptyWorld
        = (Normal (js "x"), emptyWorld)
      /\ js "x" <> js "state.x")
  /\ (@processBinding referenceCollaborators (js "state.props.x") Template emptyWorld
        = (Normal (js "x"), emptyWorld)
      /\ js "x" <> js "props.x")
  /\ Legacy.processBinding (js "props.state.x") Frontmatter = js "props.x"
  /\ (fst (@processBinding rejectingCollaborators (js "state.count +") Template
             emptyWorld) = Normal (js "state.count +")
      /\ js "state.count +" <> js "count +").
Proof. repeat split; try reflexivity; discriminate. Qed.

(** C6 fails for a literal [class] that is empty or padded, and for a second
    source that is blank: no attribute at all, the trimmed value, and the
    direct form although two properties are there. *)
Lemma collectClassString_blank_or_padded :
  (fst (@collectClassString referenceCollaborators
          (element "div" [(js "class", [])] [] []) emptyWorld) = Normal []
   /\ [] <> js "class=" ++ quote ++ quote)
  /\ (fst (@collectClassString referenceCollaborators
             (element "div" [(js "class", js " a ")] [] []) emptyWorld)
      = Normal (js "class=" ++ quote ++ js "a" ++ quote)
      /\ js "class=" ++ quote ++ js "a" ++ quote
         <> js "class=" ++ quote ++ js " a " ++ quote)
  /\ fst (@collectClassString referenceCollaborators
            (element "div" [(js "class", js "a"); (js "className", js " ")] [] [])
            emptyWorld)
     = Normal (js "class=" ++ quote ++ js "a" ++ quote).
Proof. repeat split; try reflexivity; discriminate. Qed.

(** C7 fails when the directives are disabled, and for a binding whose code
    is blank: the element carries no marker. *)
Lemma interactive_element_without_directive :
  (fst (@blockToAstro referenceCollaborators
          {| clientDirective := Some (js "none"); typescript := Some false;
             prettier := None; plugins := None;
             explicitImportFileExtension := None |}
          (element "button" [] [(js "onClick", binding "state.go()")] [])
          emptyWorld)
   = Normal (js "<button onClick={(event) => go()}></button>")
   /\ includes (js "none") (js "<button onClick={(event) => go()}></button>") = false
   /\ includes (js "client:") (js "<button onClick={(event) => go()}></button>") = false)
  /\ (fst (@blockToAstro referenceCollaborators defaultOptions
             (element "button" [] [(js "onClick", binding "")] []) emptyWorld)
      = Normal (js "<button></button>")
      /\ includes (js "client:idle") (js "<button></button>") = false).
Proof. repeat split; reflexivity. Qed.

(* ================================================================== *)
(** * Further properties of the generator

    What the code shows beyond the sentences of the spec, function by
    function; the properties are numbered X1, X2, ... *)

Section FurtherProperties.

Context {collaborators : Collaborators}.

(* ------------------------------------------------------------------ *)
(** ** analyzeHydrationNeeds: the flag, the reasons and the directive *)

Lemma find_some_existsb {A : Type} (f : A -> bool) (l : list A) (x : A) :
  find f l = Some x -> existsb f l = true.
Proof.
  intros H. apply existsb_exists. exists x.
  destruct (find_some _ _ H). auto.
Qed.

Lemma find_none_existsb {A : Type} (f : A -> bool) (l : list A) :
  find f l = None -> existsb f l = false.
Proof.
  induction l as [|x l IH]; simpl; [reflexivity|].
  destruct (f x); [discriminate|exact IH].
Qed.

Lemma checkNodeForInteractivity_spec (node : MitosisNode) :
  forall st, exists more,
    checkNodeForInteractivity node st
    = (fst st || negb (noInteractiveEvents node), snd st ++ more)
    /\ (noInteractiveEvents node = negb (0 <? length more)%nat).
Proof.
  induction node as [n p b cs me sc IHcs _] using MitosisNode_tree_ind.
  intros st. cbn [checkNodeForInteractivity noInteractiveEvents].
  destruct (find _ b) as [[key v]|] eqn:E.
  - rewrite (find_some_existsb _ _ _ E). cbn [negb andb].
    rewrite orb_true_r. eexists. split; [reflexivity|reflexivity].
  - rewrite (find_none_existsb _ _ E). cbn [negb andb].
    clear E. revert st.
    induction IHcs as [|c cs Hc _ IH]; intros st.
    + exists []. cbn. rewrite orb_false_r, app_nil_r. now destruct st.
    + cbn [fold_left forallb].
      destruct (Hc st) as [m1 [H1 F1]]. rewrite H1.
      destruct (IH (fst st || negb (noInteractiveEvents c), snd st ++ m1))
        as [m2 [H2 F2]].
      rewrite H2. cbn [fst snd]. exists (m1 ++ m2). split.
      * rewrite negb_andb, orb_assoc, app_assoc. reflexivity.
      * rewrite F1, F2, length_app.
        destruct m1, m2; reflexivity.
Qed.

Lemma forest_spec (nodes : list MitosisNode) :
  forall st, exists more,
    fold_left (fun st' child => checkNodeForInteractivity child st') nodes st
    = (fst st || negb (forallb noInteractiveEvents nodes), snd st ++ more)
    /\ (forallb noInteractiveEvents nodes = negb (0 <? length more)%nat).
Proof.
  induction nodes as [|c cs IH]; intros st.
  - exists []. cbn. rewrite orb_false_r, app_nil_r. now destruct st.
  - cbn [fold_left forallb].
    destruct (checkNodeForInteractivity_spec c st) as [m1 [H1 F1]]. rewrite H1.
    destruct (IH (fst st || negb (noInteractiveEvents c), snd st ++ m1))
      as [m2 [H2 F2]].
    rewrite H2. cbn [fst snd]. exists (m1 ++ m2). split.
    + rewrite negb_andb, orb_assoc, app_assoc. reflexivity.
    + rewrite F1, F2, length_app. destruct m1, m2; reflexivity.
Qed.

(** X1.  A component needs hydration exactly when it has a ref, an [onMount]
    hook, an [onUpdate] declaration (an empty list of hooks counts) or, at
    some node below its children, a binding named in the interactive
    allow-list. *)
Theorem needsHydration_iff (json : MitosisComponent) :
  needsHydration (analyzeHydrationNeeds json)
  = (0 <? length (getRefs json))%nat
    || (0 <? length (onMount (hooks json)))%nat
    || (match onUpdate (hooks json) with Some _ => true | None => false end)
    || negb (forallb noInteractiveEvents (componentChildren json)).
Proof.
  unfold analyzeHydrationNeeds.
  destruct (0 <? length (getRefs json))%nat;
    destruct (0 <? length (onMount (hooks json)))%nat;
    destruct (onUpdate (hooks json)) as [updates|];
    cbv zeta;
    match goal with
    | |- context [fold_left ?f ?l ?st] =>
        destruct (forest_spec l st) as [more [Hmore _]]; rewrite Hmore
    end;
    cbn [fst snd needsHydration orb];
    now destruct (forallb _ _).
Qed.

(** X2.  The flag and the reasons agree: the component needs hydration
    exactly when the analysis gives at least one reason. *)
Theorem needsHydration_has_reason (json : MitosisComponent) :
  needsHydration (analyzeHydrationNeeds json)
  = (0 <? length (reason (analyzeHydrationNeeds json)))%nat.
Proof.
  unfold analyzeHydrationNeeds.
  destruct (0 <? length (getRefs json))%nat;
    destruct (0 <? length (onMount (hooks json)))%nat;
    destruct (onUpdate (hooks json)) as [updates|];
    cbv zeta;
    match goal with
    | |- context [fold_left ?f ?l ?st] =>
        destruct (forest_spec l st) as [more [Hmore Hlen]]; rewrite Hmore
    end;
    cbn [fst snd needsHydration reason orb];
    rewrite Hlen; rewrite ?length_app; cbn [length];
    destruct more; reflexivity.
Qed.

Lemma directives_differ : CLIENT_DIRECTIVES_idle <> CLIENT_DIRECTIVES_load.
Proof. vm_compute. discriminate. Qed.

(** X3.  With at least one ref the suggested directive is [client:load],
    whatever hooks and events the component has. *)
Theorem refs_force_load (json : MitosisComponent) :
  (0 < length (getRefs json))%nat ->
  suggestedDirective (analyzeHydrationNeeds json) = CLIENT_DIRECTIVES_load.
Proof.
  intros Hrefs. apply Nat.ltb_lt in Hrefs.
  unfold analyzeHydrationNeeds. rewrite Hrefs.
  destruct (0 <? length (onMount (hooks json)))%nat;
    destruct (onUpdate (hooks json)) as [updates|];
    cbv zeta;
    match goal with
    | |- context [fold_left ?f ?l ?st] => destruct (fold_left f l st) as [flag rs]
    end;
    cbn [suggestedDirective negb]; rewrite andb_false_r;
    now destruct (existsb _ _).
Qed.

(** A code unit that does not occur in the pattern stops every match. *)
Lemma startsWith_barrier (p a b : jsstring) (c : N) :
  existsb (N.eqb c) p = false ->
  startsWith p (a ++ c :: b) = startsWith p a.
Proof.
  revert a. induction p as [|x p IH]; intros a H; [now destruct a|].
  cbn [existsb] in H. apply orb_false_iff in H as [Hx Hp].
  destruct a as [|y a]; cbn [app startsWith].
  - rewrite N.eqb_sym, Hx. reflexivity.
  - now rewrite IH.
Qed.

Lemma includes_barrier (p a b : jsstring) (c : N) :
  existsb (N.eqb c) p = false ->
  includes p (a ++ c :: b) = includes p a || includes p b.
Proof.
  intros H. induction a as [|y a IH].
  - pose proof (startsWith_barrier p [] b c H) as E. cbn [app] in E.
    cbn [app includes]. rewrite E. now rewrite orb_false_r.
  - pose proof (startsWith_barrier p (y :: a) b c H) as E. cbn [app] in E.
    cbn [app includes]. rewrite E, IH. now rewrite orb_assoc.
Qed.

Lemma has_In (set : list jsstring) (key : jsstring) :
  has set key = true -> In key set.
Proof.
  unfold has. intros H. apply existsb_exists in H as [x [Hin Heq]].
  apply jseqb_eq in Heq. now subst.
Qed.

Lemma event_reason_clean (key nodeName : jsstring) :
  has INTERACTIVE_EVENTS key = true ->
  includes (js "onMount") nodeName = false ->
  includes (js "onMount")
    (js "Found interactive event: " ++ key ++ js " on " ++ nodeName) = false.
Proof.
  intros Hkey Hname.
  assert (Hall : forallb
            (fun k => negb (includes (js "onMount")
                              (js "Found interactive event: " ++ k ++ js " on")))
            INTERACTIVE_EVENTS = true) by (vm_compute; reflexivity).
  rewrite forallb_forall in Hall.
  specialize (Hall key (has_In _ _ Hkey)). apply negb_true_iff in Hall.
  replace (js "Found interactive event: " ++ key ++ js " on " ++ nodeName)
    with ((js "Found interactive event: " ++ key ++ js " on") ++ 32%N :: nodeName).
  - rewrite includes_barrier by (vm_compute; reflexivity).
    now rewrite Hall, Hname.
  - rewrite <- !app_assoc. reflexivity.
Qed.

Lemma includes_head_absent (x : N) (p s : jsstring) :
  existsb (N.eqb x) s = false -> includes (x :: p) s = false.
Proof.
  induction s as [|y s IH]; [reflexivity|].
  cbn [existsb includes startsWith]. intros H.
  apply orb_false_iff in H as [Hy Hs].
  rewrite Hy. cbn [andb orb]. now apply IH.
Qed.

Lemma digits_of_uint (d : Decimal.uint) :
  forallb isDigit (js (DecimalString.NilEmpty.string_of_uint d)) = true.
Proof. induction d; try reflexivity; exact IHd. Qed.

Lemma digits_ofNat (n : nat) : forallb isDigit (ofNat n) = true.
Proof.
  unfold ofNat, DecimalString.NilZero.string_of_uint.
  destruct (Nat.to_uint n) eqn:E; try reflexivity;
    rewrite <- E; apply digits_of_uint.
Qed.

Lemma digits_clean (s : jsstring) :
  forallb isDigit s = true -> includes (js "onMount") s = false.
Proof.
  intros H. apply (includes_head_absent 111%N).
  induction s as [|y s IH]; [reflexivity|].
  cbn [forallb] in H. apply andb_true_iff in H as [Hy Hs].
  cbn [existsb]. rewrite (IH Hs), orb_false_r.
  unfold isDigit in Hy. apply andb_true_iff in Hy as [_ Hy].
  apply N.leb_le in Hy. apply N.eqb_neq. lia.
Qed.

Lemma update_reason_clean (n : nat) :
  includes (js "onMount")
    (js "Component has " ++ ofNat n ++ js " onUpdate hook(s)") = false.
Proof.
  change (js "Component has " ++ ofNat n ++ js " onUpdate hook(s)")
    with (js "Component has" ++ 32%N :: ofNat n ++ 32%N :: js "onUpdate hook(s)").
  rewrite !includes_barrier by (vm_compute; reflexivity).
  rewrite (digits_clean _ (digits_ofNat n)). reflexivity.
Qed.

Lemma mount_reason_marked (n : nat) :
  includes (js "onMount")
    (js "Component has " ++ ofNat n ++ js " onMount hook(s)") = true.
Proof.
  change (js " onMount hook(s)") with (js " " ++ js "onMount" ++ js " hook(s)").
  rewrite !app_assoc. rewrite <- (app_assoc _ (js "onMount")).
  apply includes_app.
Qed.

(** With clean names the walk appends clean reasons only. *)
Lemma checkNodeForInteractivity_clean (node : MitosisNode) :
  everyNode (fun n => negb (includes (js "onMount") (name n))) node = true ->
  forall st,
    existsb (includes (js "onMount")) (snd (checkNodeForInteractivity node st))
    = existsb (includes (js "onMount")) (snd st).
Proof.
  induction node as [n p b cs me sc IHcs _] using MitosisNode_tree_ind.
  cbn [everyNode checkNodeForInteractivity name]. intros H st.
  apply andb_true_iff in H as [Hn Hcs]. apply negb_true_iff in Hn.
  destruct (find _ b) as [[key v]|] eqn:E.
  - cbn [snd]. rewrite existsb_app. cbn [existsb].
    apply find_some in E as [_ E]. cbn [fst] in E.
    rewrite (event_reason_clean _ _ E Hn). now rewrite !orb_false_r.
  - clear E. revert st.
    induction IHcs as [|c cs Hc _ IH]; intros st; [reflexivity|].
    cbn [forallb] in Hcs. apply andb_true_iff in Hcs as [H1 H2].
    cbn [fold_left]. rewrite (IH H2). now apply Hc.
Qed.

Lemma forest_clean (nodes : list MitosisNode) :
  forallb (everyNode (fun n => negb (includes (js "onMount") (name n)))) nodes
  = true ->
  forall st,
    existsb (includes (js "onMount"))
      (snd (fold_left (fun st' child => checkNodeForInteractivity child st')
              nodes st))
    = existsb (includes (js "onMount")) (snd st).
Proof.
  induction nodes as [|c cs IH]; intros H st; [reflexivity|].
  cbn [forallb] in H. apply andb_true_iff in H as [H1 H2].
  cbn [fold_left]. rewrite (IH H2). now apply checkNodeForInteractivity_clean.
Qed.

(** The directive in closed form. *)
Lemma suggestedDirective_spec (json : MitosisComponent) :
  suggestedDirective (analyzeHydrationNeeds json)
  = if negb (forallb noInteractiveEvents (componentChildren json))
       && negb (0 <? length (getRefs json))%nat
       && negb (existsb (includes (js "onMount"))
                  (reason (analyzeHydrationNeeds json)))
    then CLIENT_DIRECTIVES_idle else CLIENT_DIRECTIVES_load.
Proof.
  unfold analyzeHydrationNeeds.
  destruct (0 <? length (getRefs json))%nat;
    destruct (0 <? length (onMount (hooks json)))%nat;
    destruct (onUpdate (hooks json)) as [updates|];
    cbv zeta;
    match goal with
    | |- context [fold_left ?f ?l ?st] =>
        destruct (forest_spec l st) as [more [Hmore _]]; rewrite Hmore
    end;
    cbn [fst snd suggestedDirective reason negb orb];
    destruct (forallb noInteractiveEvents (componentChildren json));
    cbn [negb andb];
    now destruct (existsb _ _).
Qed.

Lemma mount_reason_recorded (json : MitosisComponent) :
  (0 <? length (onMount (hooks json)))%nat = true ->
  existsb (includes (js "onMount")) (reason (analyzeHydrationNeeds json)) = true.
Proof.
  intros Hmount. unfold analyzeHydrationNeeds. rewrite Hmount.
  destruct (0 <? length (getRefs json))%nat;
    destruct (onUpdate (hooks json)) as [updates|];
    cbv zeta;
    match goal with
    | |- context [fold_left ?f ?l ?st] =>
        destruct (forest_spec l st) as [more [Hmore _]]; rewrite Hmore
    end;
    cbn [snd reason]; rewrite !existsb_app; cbn [existsb];
    rewrite mount_reason_marked; now rewrite ?orb_true_r.
Qed.

(** X4.  [client:idle] is suggested only for a component without refs and
    without [onMount] hooks that has a binding named in the interactive
    allow-list at some node below its children. *)
Theorem idle_only_for_events (json : MitosisComponent) :
  suggestedDirective (analyzeHydrationNeeds json) = CLIENT_DIRECTIVES_idle ->
  getRefs json = []
  /\ onMount (hooks json) = []
  /\ forallb noInteractiveEvents (componentChildren json) = false.
Proof.
  rewrite suggestedDirective_spec.
  destruct (forallb noInteractiveEvents (componentChildren json)); cbn [negb andb];
    [intros H; symmetry in H; now destruct (directives_differ)|].
  destruct (getRefs json) as [|r refs]; cbn [length Nat.ltb Nat.leb negb andb];
    [|intros H; symmetry in H; now destruct (directives_differ)].
  destruct (onMount (hooks json)) as [|m mounts] eqn:Emount; [now repeat split|].
  rewrite mount_reason_recorded by (now rewrite Emount).
  intros H; symmetry in H; now destruct (directives_differ).
Qed.

(** X5.  A component without refs and without [onMount] hooks that has an
    interactive event is given [client:idle], provided no node name contains
    the text [onMount]: the test for mount hooks is a substring test on the
    reasons, and the reason for an event quotes the name of its node. *)
Theorem events_alone_suggest_idle (json : MitosisComponent) :
  getRefs json = [] ->
  onMount (hooks json) = [] ->
  forallb noInteractiveEvents (componentChildren json) = false ->
  forallb (everyNode (fun n => negb (includes (js "onMount") (name n))))
    (componentChildren json) = true ->
  suggestedDirective (analyzeHydrationNeeds json) = CLIENT_DIRECTIVES_idle.
Proof.
  intros Hrefs Hmount Hevents Hnames.
  rewrite suggestedDirective_spec, Hevents, Hrefs.
  cbn [length Nat.ltb Nat.leb negb andb].
  unfold analyzeHydrationNeeds. rewrite Hrefs, Hmount.
  cbn [length Nat.ltb Nat.leb]. cbv zeta.
  destruct (onUpdate (hooks json)) as [updates|];
    match goal with
    | |- context [fold_left ?f ?l ?st] =>
        pose proof (forest_clean l Hnames st) as Hclean;
        destruct (fold_left f l st) as [flag rs]
    end;
    cbn [snd reason] in *; rewrite Hclean; cbn [app existsb];
    rewrite ?update_reason_clean; reflexivity.
Qed.

Lemma checkNodeForEvents_interactive (node : MitosisNode) :
  (forall key, has INTERACTIVE_EVENTS key = true -> checkIsEvent key = true) ->
  noInteractiveEvents node = false -> Legacy.checkNodeForEvents node = true.
Proof.
  intros Hall.
  induction node as [n p b cs me sc IHcs _] using MitosisNode_tree_ind.
  cbn [noInteractiveEvents Legacy.checkNodeForEvents]. intros H.
  destruct (existsb (fun kv => checkIsEvent (fst kv)) b) eqn:E; [reflexivity|].
  assert (Hb : existsb (fun kv => has INTERACTIVE_EVENTS (fst kv)) b = false).
  { destruct (existsb (fun kv => has INTERACTIVE_EVENTS (fst kv)) b) eqn:E';
      [|reflexivity].
    apply existsb_exists in E' as [kv [Hin Hkv]].
    assert (existsb (fun kv => checkIsEvent (fst kv)) b = true)
      by (apply existsb_exists; exists kv; auto).
    congruence. }
  rewrite Hb in H. cbn [negb andb] in H.
  induction IHcs as [|c cs Hc _ IH]; [discriminate|].
  cbn [forallb existsb] in *.
  destruct (noInteractiveEvents c); [|now rewrite Hc].
  cbn [andb] in H. rewrite (IH H). apply orb_true_r.
Qed.

(** X6.  When every name of the interactive allow-list is an event name for
    [checkIsEvent], a component that needs hydration for
    [analyzeHydrationNeeds] needs it for [needsHydration] of the earlier
    revision as well. *)
Theorem hydration_needed_in_both_revisions (json : MitosisComponent) :
  (forall key, has INTERACTIVE_EVENTS key = true -> checkIsEvent key = true) ->
  needsHydration (analyzeHydrationNeeds json) = true ->
  Legacy.needsHydration json = true.
Proof.
  intros Hall. unfold analyzeHydrationNeeds, Legacy.needsHydration.
  destruct (0 <? length (getRefs json))%nat;
    destruct (0 <? length (onMount (hooks json)))%nat;
    destruct (onUpdate (hooks json)) as [updates|];
    cbv zeta;
    match goal with
    | |- context [fold_left ?f ?l ?st] =>
        destruct (forest_spec l st) as [more [Hmore _]]; rewrite Hmore
    end;
    cbn [fst snd needsHydration orb];
    try (intros _; now destruct (existsb _ _)).
  destruct (forallb noInteractiveEvents (componentChildren json)) eqn:H;
    [discriminate|intros _]. clear Hmore.
  assert (E : existsb Legacy.checkNodeForEvents (componentChildren json) = true).
  { induction (componentChildren json) as [|c cs IH]; [discriminate|].
    cbn [forallb existsb] in *.
    destruct (noInteractiveEvents c) eqn:Ec.
    - cbn [andb] in H. rewrite (IH H). apply orb_true_r.
    - now rewrite (checkNodeForEvents_interactive c Hall Ec). }
  now rewrite E.
Qed.

(* ------------------------------------------------------------------ *)
(** ** processBinding: size and untouched code *)

Lemma Scan_length (container : jsstring) (prevWord : bool) (s out : jsstring) :
  Scan container false prevWord s out -> (length out <= length s)%nat.
Proof.
  induction 1 as [p|p x s out Hm _ IH|x s name rest out Hm _ IH].
  - apply Nat.le_refl.
  - cbn [length]. lia.
  - apply matchRef_spec in Hm as [Hs _]. rewrite Hs.
    cbn [app]. rewrite !length_app. lia.
Qed.

Lemma replaceRefs_length (container : jsstring) (keep : bool) (s : jsstring) :
  (length (replaceRefs container keep s) <= length s)%nat.
Proof.
  destruct keep.
  - rewrite replaceRefs_keep. apply Nat.le_refl.
  - apply (Scan_length container false). apply replaceRefs_Scan.
Qed.

(** X7.  In both revisions and in both contexts the substitution of
    [processBinding] never makes the code longer. *)
Theorem substituteRefs_never_longer (code : jsstring) (context : Context) :
  (length (substituteRefs context code) <= length code)%nat
  /\ (length (Legacy.processBinding code context) <= length code)%nat.
Proof.
  assert (H : (length (substituteRefs context code) <= length code)%nat).
  { destruct context; unfold substituteRefs;
      (eapply Nat.le_trans; [apply replaceRefs_length|apply replaceRefs_length]). }
  split; [exact H|]. destruct context; exact H.
Qed.

Lemma stripPrefix_startsWith (p s t : jsstring) :
  stripPrefix p s = Some t -> startsWith p s = true.
Proof.
  intros H. apply stripPrefix_spec in H. subst. apply startsWith_app.
Qed.

Lemma containsRef_includes (container : jsstring) (prevWord : bool) (s : jsstring) :
  includes (container ++ js ".") s = false ->
  containsRef container prevWord s = false.
Proof.
  revert prevWord. induction s as [|x s IH]; intros p H; [reflexivity|].
  apply includes_cons_false in H as [Hs Hi].
  cbn [containsRef]. rewrite (IH _ Hi), orb_false_r.
  unfold matchRef.
  destruct (stripPrefix _ _) as [t|] eqn:E.
  - apply stripPrefix_startsWith in E. congruence.
  - now rewrite andb_false_r.
Qed.

(** X8.  Code in which the text [state.] does not occur (nor, for the
    template context, the text [props.]) passes the substitution of both
    revisions unchanged. *)
Theorem unreferenced_code_is_kept (code : jsstring) (context : Context) :
  includes (js "state.") code = false ->
  (context = Template -> includes (js "props.") code = false) ->
  substituteRefs context code = code
  /\ Legacy.processBinding code context = code.
Proof.
  intros Hstate Hprops.
  assert (H : substituteRefs context code = code).
  { apply substituteRefs_fixed. unfold refFree.
    rewrite (containsRef_includes (js "state") false code Hstate).
    destruct context; [reflexivity|].
    now rewrite (containsRef_includes (js "props") false code (Hprops eq_refl)). }
  split; [exact H|]. destruct context; exact H.
Qed.

(* ------------------------------------------------------------------ *)
(** ** collectClassString: the style registry *)

Lemma jseqb_neq (a b : jsstring) : a <> b -> jseqb a b = false.
Proof.
  intros H. destruct (jseqb a b) eqn:E; [|reflexivity].
  apply jseqb_eq in E. contradiction.
Qed.

Lemma lookup_mapSet_same (k v : jsstring) (m : list (jsstring * jsstring)) :
  lookup k (mapSet k v m) = Some v.
Proof.
  induction m as [|[k' v'] m IH]; cbn [mapSet lookup].
  - now rewrite jseqb_refl.
  - destruct (jseqb k' k) eqn:E; cbn [lookup].
    + now rewrite jseqb_refl.
    + now rewrite E.
Qed.

Lemma lookup_mapSet_other (k k0 v : jsstring) (m : list (jsstring * jsstring)) :
  k0 <> k -> lookup k0 (mapSet k v m) = lookup k0 m.
Proof.
  intros H. induction m as [|[k' v'] m IH]; cbn [mapSet lookup].
  - now rewrite (jseqb_neq k k0) by congruence.
  - destruct (jseqb k' k) eqn:E; cbn [lookup].
    + apply jseqb_eq in E. subst k'. now rewrite (jseqb_neq k k0) by congruence.
    + now rewrite IH.
Qed.

Lemma mapSet_again (k v : jsstring) (m : list (jsstring * jsstring)) :
  mapSet k v (mapSet k v m) = mapSet k v m.
Proof.
  induction m as [|[k' v'] m IH]; cbn [mapSet].
  - now rewrite jseqb_refl.
  - destruct (jseqb k' k) eqn:E; cbn [mapSet].
    + now rewrite jseqb_refl.
    + now rewrite E, IH.
Qed.

Lemma processBindingWorld_cssInJs (code : jsstring) (context : Context) (w : World) :
  cssInJs (processBindingWorld code context w) = cssInJs w.
Proof.
  unfold processBindingWorld.
  destruct (negb _); [reflexivity|]. now destruct (babelTransformExpression _ _).
Qed.

(** The style registry after [collectClassString]. *)
Lemma collectClassString_registry (node : MitosisNode) (w : World) :
  cssInJs (snd (collectClassString node w))
  = if truthy (trim (bindingCode node (js "css")))
    then Some (mapSet (scopedClassName node) (bindingCode node (js "css"))
                 (registry w))
    else cssInJs w.
Proof.
  unfold collectClassString, scopedClassName, registry.
  destruct (truthy (trim (prop node (js "class"))));
    destruct (truthy (trim (prop node (js "className"))));
    destruct (truthy (trim (bindingCode node (js "class"))));
    destruct (truthy (trim (bindingCode node (js "className"))));
    destruct (truthy (trim (bindingCode node (js "css"))));
    unfold bind, ret, cssInJsSet; rewrite ?processBinding_run;
    cbn [app length Nat.eqb andb nth];
    repeat match goal with
           | |- context [if ?b then _ else _] => destruct b
           end;
    cbn [snd cssInJs]; rewrite ?processBindingWorld_cssInJs; reflexivity.
Qed.

(** X9.  For a node whose [css] binding is not blank, [collectClassString]
    leaves the code of the binding in the style registry under the scoped
    class name, and every other entry of the registry as it was. *)
Theorem collectClassString_registers_style (node : MitosisNode) (w : World) :
  truthy (trim (bindingCode node (js "css"))) = true ->
  let w' := snd (collectClassString node w) in
  lookup (scopedClassName node) (registry w') = Some (bindingCode node (js "css"))
  /\ (forall className,
        className <> scopedClassName node ->
        lookup className (registry w') = lookup className (registry w)).
Proof.
  intros H w'.
  assert (E : registry w'
              = mapSet (scopedClassName node) (bindingCode node (js "css"))
                  (registry w)).
  { subst w'. unfold registry at 1. now rewrite collectClassString_registry, H. }
  rewrite E. split; [apply lookup_mapSet_same|].
  intros k Hk. now apply lookup_mapSet_other.
Qed.

(** X10.  For a node whose [css] binding is absent or blank,
    [collectClassString] leaves the style registry and the heap as they
    are. *)
Theorem collectClassString_without_style (node : MitosisNode) (w : World) :
  truthy (trim (bindingCode node (js "css"))) = false ->
  cssInJs (snd (collectClassString node w)) = cssInJs w
  /\ heap (snd (collectClassString node w)) = heap w.
Proof.
  intros H. rewrite collectClassString_registry, H.
  split; [reflexivity|apply collectClassString_heap].
Qed.

(** X11.  Collecting the classes of the same node a second time changes
    nothing in the style registry and gives the same attribute. *)
Theorem collectClassString_registers_once (node : MitosisNode) (w : World) :
  let w1 := snd (collectClassString node w) in
  let w2 := snd (collectClassString node w1) in
  cssInJs w2 = cssInJs w1
  /\ fst (collectClassString node w1) = fst (collectClassString node w).
Proof.
  cbv zeta. split.
  - rewrite !collectClassString_registry.
    destruct (truthy _); [|reflexivity].
    unfold registry at 1. rewrite collectClassString_registry.
    destruct (truthy (trim (bindingCode node (js "css")))) eqn:E.
    + now rewrite mapSet_again.
    + reflexivity.
  - destruct (collectClassString_run node w) as [w' ->].
    destruct (collectClassString_run node (snd (Normal (classAttribute (classEntries node)), w'))) as [w'' ->].
    reflexivity.
Qed.

(** X12.  In the earlier revision a literal [class] that is the only class
    source is returned between quotes as it is, padding included, without
    [class=] in front; nothing else changes. *)
Theorem legacy_collectClassString_literal (node : MitosisNode) (w : World) :
  truthy (prop node (js "class")) = true ->
  truthy (prop node (js "className")) = false ->
  truthy (bindingCode node (js "class")) = false ->
  truthy (bindingCode node (js "className")) = false ->
  truthy (bindingCode node (js "css")) = false ->
  Legacy.collectClassString node w
  = (Normal (quote ++ prop node (js "class") ++ quote), w).
Proof.
  intros H1 H2 H3 H4 H5. unfold Legacy.collectClassString.
  rewrite H1, H2, H3, H4, H5. unfold bind, ret.
  cbn [app length Nat.eqb andb nth].
  now rewrite startsWith_app, app_assoc, endsWith_app, <- app_assoc.
Qed.

(* ------------------------------------------------------------------ *)
(** ** blockToAstro *)

Lemma consoleGrows_ret {A : Type} (a : A) : consoleGrows (ret a).
Proof. intros w. exists []. cbn. now rewrite app_nil_r. Qed.

Lemma consoleGrows_bind {A B : Type} (c : M A) (k : A -> M B) :
  consoleGrows c -> (forall a, consoleGrows (k a)) -> consoleGrows (bind c k).
Proof.
  intros Hc Hk w. unfold bind. destruct (Hc w) as [m1 H1].
  destruct (c w) as [[a|e] w1]; cbn [snd] in *.
  - destruct (Hk a w1) as [m2 H2]. exists (m1 ++ m2).
    now rewrite H2, H1, app_assoc.
  - now exists m1.
Qed.

Lemma consoleGrows_tryCatch {A : Type} (body : M A) (handler : jsstring -> M A) :
  consoleGrows body -> (forall e, consoleGrows (handler e)) ->
  consoleGrows (tryCatch body handler).
Proof.
  intros Hc Hk w. unfold tryCatch. destruct (Hc w) as [m1 H1].
  destruct (body w) as [[a|e] w1]; cbn [snd] in *.
  - now exists m1.
  - destruct (Hk e w1) as [m2 H2]. exists (m1 ++ m2).
    now rewrite H2, H1, app_assoc.
Qed.

Lemma consoleGrows_call {A : Type} (r : completion A) : consoleGrows (call r).
Proof. intros w. exists []. cbn. now rewrite app_nil_r. Qed.

Lemma consoleGrows_consoleWarn (message error : jsstring) :
  consoleGrows (consoleWarn message error).
Proof. intros w. eexists. reflexivity. Qed.

Lemma consoleGrows_cssInJsSet (k v : jsstring) : consoleGrows (cssInJsSet k v).
Proof. intros w. exists []. cbn. now rewrite app_nil_r. Qed.

Lemma consoleGrows_forEachM {A X : Type} (step : A -> X -> M A) (xs : list X) :
  (forall acc x, consoleGrows (step acc x)) ->
  forall acc, consoleGrows (forEachM step xs acc).
Proof.
  intros H. induction xs as [|x xs IH]; intros acc; cbn [forEachM].
  - apply consoleGrows_ret.
  - apply consoleGrows_bind; [apply H|exact IH].
Qed.

(** Goals [consoleGrows c] for a computation built from the primitives. *)
Ltac growing :=
  repeat first
    [ assumption
    | match goal with H : _ |- consoleGrows _ => solve [apply H] end
    | progress cbv zeta
    | apply consoleGrows_ret
    | apply consoleGrows_call
    | apply consoleGrows_consoleWarn
    | apply consoleGrows_cssInJsSet
    | apply consoleGrows_bind; [|intros ?]
    | apply consoleGrows_tryCatch; [|intros ?]
    | apply consoleGrows_forEachM; intros ? ?
    | match goal with
      | |- consoleGrows (if ?b then _ else _) => destruct b
      | |- consoleGrows (match ?x with _ => _ end) => destruct x
      | |- consoleGrows (let (_, _) := ?x in _) => destruct x
      end ].

Lemma processBinding_console (code : jsstring) (context : Context) :
  consoleGrows (processBinding code context).
Proof. unfold processBinding. growing. Qed.

Lemma collectClassString_console (node : MitosisNode) :
  consoleGrows (collectClassString node).
Proof.
  pose proof processBinding_console as Hp.
  unfold collectClassString. growing.
Qed.

Lemma dynamicBinding_console (node : MitosisNode) (acc : jsstring * bool)
    (kv : jsstring * Binding) :
  consoleGrows (dynamicBinding node acc kv).
Proof.
  destruct acc as [elementString needs], kv as [key b].
  pose proof processBinding_console as Hp.
  unfold dynamicBinding. growing.
Qed.

Lemma elementStart_console (options : ToAstroOptions) (node : MitosisNode) :
  consoleGrows (elementStart options node).
Proof.
  unfold elementStart.
  apply consoleGrows_bind; [apply collectClassString_console|intros classAttr].
  apply consoleGrows_bind.
  - apply consoleGrows_forEachM. intros acc kv. apply dynamicBinding_console.
  - intros [elementString needs]. growing.
Qed.

Lemma renderChildren_console (options : ToAstroOptions) (cs : list MitosisNode) :
  Forall (fun node => consoleGrows (blockToAstro options node)) cs ->
  consoleGrows (renderChildren options cs).
Proof.
  induction 1 as [|c cs Hc _ IH].
  - apply consoleGrows_ret.
  - rewrite renderChildren_cons. growing.
Qed.

Lemma blockToAstro_console (options : ToAstroOptions) (node : MitosisNode) :
  consoleGrows (blockToAstro options node).
Proof.
  induction node as [n p b cs me sc IHcs IHelse] using MitosisNode_tree_ind.
  rewrite blockToAstro_eq. cbn [children metaElse].
  pose proof (renderChildren_console options cs IHcs) as Hcs.
  pose proof processBinding_console as Hp.
  pose proof (elementStart_console options) as He.
  unfold blockToAstroBody.
  destruct me as [elseNode|]; cbn [option_map]; growing.
Qed.

(** X13.  Rendering a node never throws, whatever the expression transform
    does: it gives a text, leaves the heap as it is and at most appends
    warnings to the console. *)
Theorem blockToAstro_fail_soft
    (options : ToAstroOptions) (node : MitosisNode) (w : World) :
  exists text w',
    blockToAstro options node w = (Normal text, w')
    /\ heap w' = heap w
    /\ exists warnings, console w' = console w ++ warnings.
Proof.
  destruct (blockToAstro_run options node w) as [text [w' E]].
  exists text, w'. split; [exact E|].
  pose proof (blockToAstro_heap options node w) as Hh.
  pose proof (blockToAstro_console options node w) as Hc.
  rewrite E in Hh, Hc. now split.
Qed.

(** Renderers that start elements alike render alike. *)
Lemma blockToAstro_ext (o1 o2 : ToAstroOptions) :
  (forall node, elementStart o1 node = elementStart o2 node) ->
  forall node w, blockToAstro o1 node w = blockToAstro o2 node w.
Proof.
  intros Ho node.
  induction node as [n p b cs me sc IHcs IHelse] using MitosisNode_tree_ind.
  intros w. rewrite !blockToAstro_eq. cbn [children metaElse].
  assert (Hcs : forall w, renderChildren o1 cs w = renderChildren o2 cs w).
  { clear w. induction IHcs as [|c cs Hc _ IH]; intros w; [reflexivity|].
    rewrite !renderChildren_cons.
    destruct (filterEmptyTextNodes c); [|apply IH].
    unfold bind. rewrite Hc. destruct (blockToAstro o2 c w) as [[r|e] w1];
      [|reflexivity].
    now rewrite IH. }
  set (node := MkNode n p b cs me sc).
  unfold blockToAstroBody. rewrite (Ho node).
  destruct (truthy (prop node (js "_text"))); [reflexivity|].
  destruct (truthy (bindingCode node (js "_text"))); [reflexivity|].
  destruct (jseqb (name node) (js "Fragment")); [now apply bind_ext_l|].
  destruct (checkIsForNode node).
  { apply bind_ext_r. intros eachCode w'. now apply bind_ext_l. }
  destruct (jseqb (name node) (js "Show")).
  { apply bind_ext_r. intros whenCode w'.
    unfold bind. rewrite Hcs.
    destruct (renderChildren o2 cs w') as [[rs|e] w1]; [|reflexivity].
    destruct me as [elseNode|]; cbn [option_map]; [|reflexivity].
    now rewrite IHelse. }
  apply bind_ext_r. intros elementString w'.
  destruct (has SELF_CLOSING_HTML_TAGS (name node)); [reflexivity|].
  apply bind_ext_l. intros w''.
  destruct (truthy (bindingCode node (js "innerHTML"))); [reflexivity|].
  destruct (0 <? length (children node))%nat; [|reflexivity].
  now apply bind_ext_l.
Qed.

(** X14.  Without a configured directive, or with the empty string for it,
    every node is rendered as with [client:idle] configured; no other option
    has a part in the rendering. *)
Theorem default_directive_is_idle
    (o1 o2 : ToAstroOptions) (node : MitosisNode) (w : World) :
  clientDirective o1 = None \/ clientDirective o1 = Some [] ->
  clientDirective o2 = Some CLIENT_DIRECTIVES_idle ->
  blockToAstro o1 node w = blockToAstro o2 node w.
Proof.
  intros H1 H2. apply blockToAstro_ext. intros n.
  unfold elementStart. rewrite H2. destruct H1 as [-> | ->]; reflexivity.
Qed.

(** X15.  For a node with an [innerHTML] binding whose code is not empty the
    children are not rendered: the text and the effects are those of the same
    node without children, and an element that is not self-closing has the
    processed code between braces as its content. *)
Theorem innerHTML_replaces_children
    (options : ToAstroOptions)
    (nodeName : jsstring) (nodeProperties : list (jsstring * jsstring))
    (nodeBindings : list (jsstring * Binding))
    (nodeChildren : list MitosisNode) (nodeMetaElse : option MitosisNode)
    (nodeScope : ForScope) (w : World) :
  let node :=
    MkNode nodeName nodeProperties nodeBindings nodeChildren nodeMetaElse nodeScope in
  let childless :=
    MkNode nodeName nodeProperties nodeBindings [] None nodeScope in
  truthy (bindingCode node (js "innerHTML")) = true ->
  jseqb nodeName (js "Fragment") = false ->
  checkIsForNode node = false ->
  checkIsForNode childless = false ->
  jseqb nodeName (js "Show") = false ->
  blockToAstro options node w = blockToAstro options childless w
  /\ (truthy (prop node (js "_text")) = false ->
      truthy (bindingCode node (js "_text")) = false ->
      has SELF_CLOSING_HTML_TAGS nodeName = false ->
      exists start w',
        elementStart options node w = (Normal start, w')
        /\ blockToAstro options node w
           = (Normal (start ++ js ">{"
                      ++ processBindingText (bindingCode node (js "innerHTML")) Template
                      ++ js "}</" ++ nodeName ++ js ">"),
              processBindingWorld (bindingCode node (js "innerHTML")) Template w')).
Proof.
  intros node childless Hhtml H3 H4 H4' H5. split.
  - rewrite !blockToAstro_eq. unfold blockToAstroBody.
    change (prop childless) with (prop node).
    change (bindingCode childless) with (bindingCode node).
    change (name childless) with nodeName. change (name node) with nodeName.
    change (elementStart options childless) with (elementStart options node).
    rewrite H3, H4, H4', H5, Hhtml.
    destruct (truthy (prop node (js "_text"))); [reflexivity|].
    destruct (truthy (bindingCode node (js "_text"))); reflexivity.
  - intros H1 H2 Hself.
    rewrite blockToAstro_eq, (blockToAstroBody_element _ _ _ _ H1 H2 H3 H4 H5).
    destruct (elementStart_run options node w) as (start & w1 & Hstart).
    exists start, w1. split; [exact Hstart|].
    rewrite (bind_run _ _ _ _ _ Hstart).
    cbn [name node]. rewrite Hself, Hhtml.
    unfold bind, ret. rewrite processBinding_run.
    f_equal. f_equal. rewrite <- !app_assoc. reflexivity.
Qed.

(** One step of the loop over the bindings only appends to the text. *)
Lemma dynamicBinding_appends (node : MitosisNode) (acc : jsstring * bool)
    (kv : jsstring * Binding) (w : World) :
  exists acc' w' more,
    dynamicBinding node acc kv w = (Normal acc', w')
    /\ fst acc' = fst acc ++ more
    /\ (snd acc = true -> snd acc' = true).
Proof.
  destruct acc as [elementString needs], kv as [key b].
  unfold dynamicBinding.
  destruct (negb (truthy (trim (code b)))).
  { exists (elementString, needs), w, []. cbn. now rewrite app_nil_r. }
  destruct (jseqb key (js "class") || jseqb key (js "className")
            || jseqb key (js "css") || jseqb key (js "_text")).
  { exists (elementString, needs), w, []. cbn. now rewrite app_nil_r. }
  destruct (type b).
  - destruct (jseqb key (js "ref")).
    { unfold ret. do 3 eexists. split; [reflexivity|]. cbn [fst snd]. auto. }
    destruct (checkIsEvent key).
    + unfold bind, ret. rewrite processBinding_run.
      do 3 eexists. split; [reflexivity|]. cbn [fst snd]. split; [reflexivity|].
      intros ->. now destruct (has INTERACTIVE_EVENTS key).
    + destruct (jseqb key (js "innerHTML"));
        [|destruct (jseqb key (js "style"))];
        unfold bind, ret; rewrite processBinding_run;
        (do 3 eexists; split; [reflexivity|]; cbn [fst snd]; auto).
  - unfold bind, ret. rewrite processBinding_run.
    do 3 eexists. split; [reflexivity|]. cbn [fst snd]. auto.
Qed.

Lemma forEachM_dynamicBinding_appends (node : MitosisNode)
    (bs : list (jsstring * Binding)) :
  forall acc w, exists acc' w' more,
    forEachM (dynamicBinding node) bs acc w = (Normal acc', w')
    /\ fst acc' = fst acc ++ more
    /\ (snd acc = true -> snd acc' = true).
Proof.
  induction bs as [|kv bs IH]; intros acc w; cbn [forEachM].
  - exists acc, w, []. unfold ret. now rewrite app_nil_r.
  - destruct (dynamicBinding_appends node acc kv w) as (acc1 & w1 & m1 & H1 & E1 & F1).
    destruct (IH acc1 w1) as (acc2 & w2 & m2 & H2 & E2 & F2).
    exists acc2, w2, (m1 ++ m2). rewrite (bind_run _ _ _ _ _ H1).
    split; [exact H2|]. rewrite E2, E1, app_assoc. auto.
Qed.

(** A binding whose step appends [piece] and sets the flag leaves both in the
    result of the loop. *)
Lemma forEachM_dynamicBinding_piece (node : MitosisNode)
    (bs : list (jsstring * Binding)) (kv : jsstring * Binding)
    (piece : jsstring) (flag : bool) :
  In kv bs ->
  (forall acc w, exists w',
      dynamicBinding node acc kv w
      = (Normal (fst acc ++ piece, if flag then true else snd acc), w')) ->
  forall acc w, exists acc' w' before after,
    forEachM (dynamicBinding node) bs acc w = (Normal acc', w')
    /\ fst acc' = fst acc ++ before ++ piece ++ after
    /\ (flag = true -> snd acc' = true).
Proof.
  intros Hin Hstep.
  induction bs as [|kv' bs IH]; [contradiction|].
  intros acc w. cbn [forEachM]. destruct Hin as [->|Hin].
  - destruct (Hstep acc w) as [w1 H1].
    destruct (forEachM_dynamicBinding_appends node bs
                (fst acc ++ piece, if flag then true else snd acc) w1)
      as (acc2 & w2 & m2 & H2 & E2 & F2).
    exists acc2, w2, [], m2. rewrite (bind_run _ _ _ _ _ H1).
    split; [exact H2|]. cbn [fst snd app] in *.
    split; [now rewrite E2, <- app_assoc|].
    intros ->. now apply F2.
  - destruct (dynamicBinding_appends node acc kv' w) as (acc1 & w1 & m1 & H1 & E1 & _).
    destruct (IH Hin acc1 w1) as (acc2 & w2 & before & after & H2 & E2 & F2).
    exists acc2, w2, (m1 ++ before), after. rewrite (bind_run _ _ _ _ _ H1).
    split; [exact H2|]. split; [|exact F2].
    rewrite E2, E1, <- !app_assoc. reflexivity.
Qed.

(** The text of an element holds what the loop over the bindings appended. *)
Lemma elementStart_piece (options : ToAstroOptions) (node : MitosisNode)
    (kv : jsstring * Binding) (piece : jsstring) (flag : bool) (w : World) :
  In kv (bindings node) ->
  (forall acc w, exists w',
      dynamicBinding node acc kv w
      = (Normal (fst acc ++ piece, if flag then true else snd acc), w')) ->
  exists before after w',
    elementStart options node w = (Normal (before ++ piece ++ after), w')
    /\ (flag = true -> clientDirective options <> Some (js "none") ->
        exists middle, after = middle ++ js " " ++ directiveOf options).
Proof.
  intros Hin Hstep. unfold elementStart.
  destruct (collectClassString_run node w) as [w1 H1].
  rewrite (bind_run _ _ _ _ _ H1).
  match goal with
  | |- context [forEachM ?f ?bs ?acc] =>
      destruct (forEachM_dynamicBinding_piece node bs kv piece flag Hin Hstep acc w1)
        as ([elementString needs] & w2 & before & after & H2 & E2 & F2);
      set (start := fst acc) in *
  end.
  rewrite (bind_run _ _ _ _ _ H2). cbn [fst snd] in E2, F2. subst elementString.
  destruct (needs && _) eqn:Eneeds; unfold ret.
  - exists (start ++ before), (after ++ js " " ++ directiveOf options). eexists.
    split; [unfold directiveOf; now rewrite <- !app_assoc|]. eauto.
  - exists (start ++ before), after. eexists.
    split; [now rewrite <- !app_assoc|].
    intros Hflag Hnone. rewrite (F2 Hflag) in Eneeds. cbn [andb] in Eneeds.
    apply negb_false_iff in Eneeds.
    destruct (clientDirective options) as [d|]; [|discriminate].
    apply jseqb_eq in Eneeds. subst d. contradiction.
Qed.

(** The text of a plain element holds the start of the element. *)
Lemma blockToAstro_element_start (options : ToAstroOptions) (node : MitosisNode)
    (w : World) :
  truthy (prop node (js "_text")) = false ->
  truthy (bindingCode node (js "_text")) = false ->
  jseqb (name node) (js "Fragment") = false ->
  checkIsForNode node = false ->
  jseqb (name node) (js "Show") = false ->
  exists start rest w1 w',
    elementStart options node w = (Normal start, w1)
    /\ blockToAstro options node w = (Normal (start ++ rest), w').
Proof.
  intros H1 H2 H3 H4 H5.
  rewrite blockToAstro_eq, (blockToAstroBody_element _ _ _ _ H1 H2 H3 H4 H5).
  destruct (elementStart_run options node w) as (start & w1 & Hstart).
  rewrite (bind_run _ _ _ _ _ Hstart). exists start.
  destruct (has SELF_CLOSING_HTML_TAGS (name node)).
  { exists (js " />"), w1, w1. split; [exact Hstart|reflexivity]. }
  destruct (truthy (bindingCode node (js "innerHTML"))).
  { unfold bind, ret. rewrite processBinding_run.
    eexists. exists w1. eexists. split; [exact Hstart|].
    rewrite <- !app_assoc. reflexivity. }
  destruct (0 <? length (children node))%nat.
  - destruct (renderChildren_run options (children node)
                (proj2 (Forall_forall _ _) (fun c _ => blockToAstro_run options c)) w1)
      as (rs & w2 & Hrs).
    unfold bind at 1. rewrite (bind_run _ _ _ _ _ Hrs). unfold ret.
    eexists. exists w1. eexists. split; [exact Hstart|].
    rewrite <- !app_assoc. reflexivity.
  - unfold bind, ret. eexists. exists w1. eexists. split; [exact Hstart|].
    rewrite <- !app_assoc. reflexivity.
Qed.

(** X16.  A plain element with a [ref] binding that is not blank and not of
    the spread type is rendered with [bind:this={<name>}], the name being the
    camel-cased code, and, unless the directives are disabled with ['none'],
    with the marker of the directive. *)
Theorem ref_element_is_bound
    (options : ToAstroOptions) (node : MitosisNode) (b : Binding) (w : World) :
  truthy (prop node (js "_text")) = false ->
  truthy (bindingCode node (js "_text")) = false ->
  jseqb (name node) (js "Fragment") = false ->
  checkIsForNode node = false ->
  jseqb (name node) (js "Show") = false ->
  In (js "ref", b) (bindings node) ->
  truthy (trim (code b)) = true -> type b = single ->
  exists text w',
    blockToAstro options node w = (Normal text, w')
    /\ includes (js " bind:this={" ++ camelCase (code b) ++ js "}") text = true
    /\ (clientDirective options <> Some (js "none") ->
        includes (js " " ++ directiveOf options) text = true).
Proof.
  intros H1 H2 H3 H4 H5 Hin Hcode Htype.
  destruct (blockToAstro_element_start options node w H1 H2 H3 H4 H5)
    as (start & rest & w1 & w' & Hstart & Hblock).
  set (piece := js " bind:this={" ++ camelCase (code b) ++ js "}").
  destruct (elementStart_piece options node (js "ref", b) piece true w Hin)
    as (before & after & w2 & Hpiece & Hmark).
  { intros [elementString needs] w0. exists w0. unfold dynamicBinding.
    rewrite Hcode, Htype. reflexivity. }
  rewrite Hstart in Hpiece. injection Hpiece as -> _.
  exists ((before ++ piece ++ after) ++ rest), w'.
  split; [exact Hblock|]. split.
  - rewrite <- !app_assoc. apply includes_app.
  - intros Hnone. destruct (Hmark eq_refl Hnone) as [middle ->].
    set (marker := js " " ++ directiveOf options).
    rewrite <- !app_assoc.
    rewrite (app_assoc before), (app_assoc (before ++ _)).
    apply includes_app.
Qed.

(** X17.  A plain element with an event binding that is not blank and not
    of the spread type is rendered with the handler as an arrow function: the
    name of the event ([onInput] for [onChange] on an [input] element), the
    parameters of the binding ([event] when it names none), [async] in front
    when the binding is asynchronous, and the processed code as the body. *)
Theorem event_handler_attribute
    (options : ToAstroOptions) (node : MitosisNode)
    (key : jsstring) (b : Binding) (w : World) :
  truthy (prop node (js "_text")) = false ->
  truthy (bindingCode node (js "_text")) = false ->
  jseqb (name node) (js "Fragment") = false ->
  checkIsForNode node = false ->
  jseqb (name node) (js "Show") = false ->
  In (key, b) (bindings node) ->
  checkIsEvent key = true ->
  existsb (jseqb key) (map js ["class"; "className"; "css"; "_text"; "ref"]%string)
  = false ->
  truthy (trim (code b)) = true -> type b = single ->
  let eventName :=
    if jseqb key (js "onChange") && jseqb (name node) (js "input")
    then js "onInput" else key in
  let parameters :=
    match arguments b with Some a => a | None => [js "event"] end in
  exists text w',
    blockToAstro options node w = (Normal text, w')
    /\ includes
         (js " " ++ eventName ++ js "={" ++ (if async b then js "async " else [])
          ++ js "(" ++ join (js ",") parameters ++ js ") => "
          ++ processBindingText (code b) Template ++ js "}")
         text = true.
Proof.
  intros H1 H2 H3 H4 H5 Hin Hevent Hkey Hcode Htype eventName parameters.
  destruct (blockToAstro_element_start options node w H1 H2 H3 H4 H5)
    as (start & rest & w1 & w' & Hstart & Hblock).
  set (piece := js " " ++ eventName ++ js "={" ++ _).
  destruct (elementStart_piece options node (key, b) piece
              (has INTERACTIVE_EVENTS key) w Hin)
    as (before & after & w2 & Hpiece & _).
  { intros [elementString needs] w0. unfold dynamicBinding.
    cbn [map existsb] in Hkey. rewrite orb_false_r in Hkey.
    apply orb_false_iff in Hkey as [Hk1 Hkey].
    apply orb_false_iff in Hkey as [Hk2 Hkey].
    apply orb_false_iff in Hkey as [Hk3 Hkey].
    apply orb_false_iff in Hkey as [Hk4 Hk5].
    rewrite Hcode, Hk1, Hk2, Hk3, Hk4, Hk5, Htype, Hevent. cbn [negb orb].
    unfold bind, ret. rewrite processBinding_run. eexists. reflexivity. }
  rewrite Hstart in Hpiece. injection Hpiece as -> _.
  exists ((before ++ piece ++ after) ++ rest), w'.
  split; [exact Hblock|].
  rewrite <- !app_assoc. apply includes_app.
Qed.

(* ------------------------------------------------------------------ *)
(** ** blockToAstro of the earlier revision *)

Section EarlierRenderer.

Variable transformStyle : jsstring -> completion jsstring.

Lemma legacy_blockToAstro_eq (options : ToAstroOptions) (node : MitosisNode) :
  Legacy.blockToAstro transformStyle options node
  = Legacy.blockToAstroBody transformStyle options node
      (Legacy.renderAll transformStyle options (children node))
      (Legacy.renderChildren transformStyle options (children node))
      (option_map (Legacy.blockToAstro transformStyle options) (metaElse node)).
Proof. destruct node as [n p b cs [e|] sc]; reflexivity. Qed.

Lemma legacy_collectClassString_run (node : MitosisNode) (w : World) :
  exists text w', Legacy.collectClassString node w = (Normal text, w').
Proof.
  unfold Legacy.collectClassString.
  destruct (truthy (bindingCode node (js "css")));
    unfold bind, ret, cssInJsSet;
    repeat match goal with
           | |- context [if ?b then _ else _] => destruct b
           end;
    eauto.
Qed.

Lemma forEachM_throws {A X : Type} (step : A -> X -> M A) (xs : list X) (x : X) :
  In x xs ->
  (forall acc w, exists e w', step acc x w = (Throw e, w')) ->
  forall acc w, exists e w', forEachM step xs acc w = (Throw e, w').
Proof.
  intros Hin Hstep. induction xs as [|y xs IH]; [contradiction|].
  intros acc w. cbn [forEachM]. unfold bind. destruct Hin as [->|Hin].
  - destruct (Hstep acc w) as (e & w' & ->). eauto.
  - destruct (step acc y w) as [[acc'|e] w']; [now apply IH|eauto].
Qed.

(** X18.  In the earlier revision the transform of a [style] binding runs
    outside every try block: when it throws for the [style] binding of a
    plain element, the rendering of the element throws. *)
Theorem legacy_style_failure_escapes
    (options : ToAstroOptions) (node : MitosisNode) (b : Binding)
    (error : jsstring) (w : World) :
  truthy (prop node (js "_text")) = false ->
  truthy (bindingCode node (js "_text")) = false ->
  jseqb (name node) (js "Fragment") = false ->
  checkIsForNode node = false ->
  jseqb (name node) (js "Show") = false ->
  In (js "style", b) (bindings node) ->
  checkIsEvent (js "style") = false ->
  truthy (code b) = true -> type b = single ->
  transformStyle (code b) = Throw error ->
  exists error' w',
    Legacy.blockToAstro transformStyle options node w = (Throw error', w').
Proof.
  intros H1 H2 H3 H4 H5 Hin Hevent Hcode Htype Hthrow.
  rewrite legacy_blockToAstro_eq. unfold Legacy.blockToAstroBody.
  rewrite H1, H2, H3, H4, H5.
  unfold bind at 1. unfold Legacy.elementStart.
  destruct (legacy_collectClassString_run node w) as (classString & w1 & E1).
  rewrite (bind_run _ _ _ _ _ E1).
  match goal with
  | |- context [forEachM ?step ?bs ?start] =>
      assert (Hstep : forall a0 w0, exists e w',
                 step a0 (js "style", b) w0 = (Throw e, w'));
      [|destruct (forEachM_throws step bs (js "style", b) Hin Hstep start w1)
          as (e & w2 & E2)]
  end.
  { intros [str flag] w0. unfold Legacy.dynamicBinding.
    change (jseqb (js "style") (js "class")) with false.
    change (jseqb (js "style") (js "className")) with false.
    change (jseqb (js "style") (js "css")) with false.
    change (jseqb (js "style") (js "ref")) with false.
    change (jseqb (js "style") (js "innerHTML")) with false.
    change (jseqb (js "style") (js "style")) with true.
    cbn [orb]. rewrite Hcode, Htype, Hevent. cbn [negb].
    unfold bind, call. rewrite Hthrow. eauto. }
  unfold bind at 1. rewrite E2. eauto.
Qed.

Lemma legacy_renderChildren_cons (options : ToAstroOptions) (child : MitosisNode)
    (cs : list MitosisNode) :
  Legacy.renderChildren transformStyle options (child :: cs)
  = if filterEmptyTextNodes child
    then bind (Legacy.blockToAstro transformStyle options child)
           (fun r => bind (Legacy.renderChildren transformStyle options cs)
                       (fun rs => ret (r :: rs)))
    else Legacy.renderChildren transformStyle options cs.
Proof. reflexivity. Qed.

Lemma legacy_renderAll_cons (options : ToAstroOptions) (child : MitosisNode)
    (cs : list MitosisNode) :
  Legacy.renderAll transformStyle options (child :: cs)
  = bind (Legacy.blockToAstro transformStyle options child)
      (fun r => bind (Legacy.renderAll transformStyle options cs)
                  (fun rs => ret (r :: rs))).
Proof. reflexivity. Qed.




Lemma legacy_renderAll_ext (o1 o2 : ToAstroOptions) (cs : list MitosisNode) :
  Forall (fun node => forall w,
            Legacy.blockToAstro transformStyle o1 node w
            = Legacy.blockToAstro transformStyle o2 node w) cs ->
  forall w, Legacy.renderAll transformStyle o1 cs w
            = Legacy.renderAll transformStyle o2 cs w.
Proof.
  induction 1 as [|c cs Hc _ IH]; intros w; [reflexivity|].
  rewrite !legacy_renderAll_cons.
  unfold bind. rewrite Hc.
  destruct (Legacy.blockToAstro transformStyle o2 c w) as [[r|e] w1];
    [|reflexivity].
  now rewrite IH.
Qed.

Lemma legacy_renderChildren_ext (o1 o2 : ToAstroOptions) (cs : list MitosisNode) :
  Forall (fun node => forall w,
            Legacy.blockToAstro transformStyle o1 node w
            = Legacy.blockToAstro transformStyle o2 node w) cs ->
  forall w, Legacy.renderChildren transformStyle o1 cs w
            = Legacy.renderChildren transformStyle o2 cs w.
Proof.
  induction 1 as [|c cs Hc _ IH]; intros w; [reflexivity|].
  rewrite !legacy_renderChildren_cons.
  destruct (filterEmptyTextNodes c); [|apply IH].
  unfold bind. rewrite Hc.
  destruct (Legacy.blockToAstro transformStyle o2 c w) as [[r|e] w1];
    [|reflexivity].
  now rewrite IH.
Qed.

Section TotalTransform.

Hypothesis transform_total : forall code, exists result,
  transformStyle code = Normal result.




End TotalTransform.

(** X20.  In the earlier revision, too, a node whose tag is in the
    self-closing set is rendered as the same node without children, and an
    element among them as the start of the element followed by [ />]. *)
Theorem legacy_self_closing_element
    (options : ToAstroOptions)
    (nodeName : jsstring) (nodeProperties : list (jsstring * jsstring))
    (nodeBindings : list (jsstring * Binding))
    (nodeChildren : list MitosisNode) (nodeMetaElse : option MitosisNode)
    (nodeScope : ForScope) (w : World) :
  let node :=
    MkNode nodeName nodeProperties nodeBindings nodeChildren nodeMetaElse nodeScope in
  let childless :=
    MkNode nodeName nodeProperties nodeBindings [] None nodeScope in
  has SELF_CLOSING_HTML_TAGS nodeName = true ->
  jseqb nodeName (js "Fragment") = false ->
  checkIsForNode node = false ->
  checkIsForNode childless = false ->
  jseqb nodeName (js "Show") = false ->
  Legacy.blockToAstro transformStyle options node w
  = Legacy.blockToAstro transformStyle options childless w
  /\ (truthy (prop node (js "_text")) = false ->
      truthy (bindingCode node (js "_text")) = false ->
      forall start w',
        Legacy.elementStart transformStyle options childless w = (Normal start, w') ->
        Legacy.blockToAstro transformStyle options node w
        = (Normal (start ++ js " />"), w')).
Proof.
  intros node childless Hself H3 H4 H4' H5. split.
  - rewrite !legacy_blockToAstro_eq. unfold Legacy.blockToAstroBody.
    change (prop childless) with (prop node).
    change (bindingCode childless) with (bindingCode node).
    change (name childless) with nodeName. change (name node) with nodeName.
    change (Legacy.elementStart transformStyle options childless)
      with (Legacy.elementStart transformStyle options node).
    rewrite H3, H4, H4', H5, Hself.
    destruct (truthy (prop node (js "_text"))); [reflexivity|].
    destruct (truthy (bindingCode node (js "_text"))); reflexivity.
  - intros H1 H2 start w' Hstart.
    rewrite legacy_blockToAstro_eq. unfold Legacy.blockToAstroBody.
    change (name node) with nodeName.
    rewrite H1, H2, H3, H4, H5, Hself.
    change (Legacy.elementStart transformStyle options node)
      with (Legacy.elementStart transformStyle options childless).
    now rewrite (bind_run _ _ _ _ _ Hstart).
Qed.

Lemma legacy_blockToAstro_ext (o1 o2 : ToAstroOptions) :
  (forall node, Legacy.elementStart transformStyle o1 node
                = Legacy.elementStart transformStyle o2 node) ->
  forall node w,
    Legacy.blockToAstro transformStyle o1 node w
    = Legacy.blockToAstro transformStyle o2 node w.
Proof.
  intros Ho node.
  induction node as [n p b cs me sc IHcs IHelse] using MitosisNode_tree_ind.
  intros w. rewrite !legacy_blockToAstro_eq. cbn [children metaElse].
  pose proof (legacy_renderAll_ext o1 o2 cs IHcs) as Hall.
  pose proof (legacy_renderChildren_ext o1 o2 cs IHcs) as Hcs.
  set (node := MkNode n p b cs me sc).
  unfold Legacy.blockToAstroBody. rewrite (Ho node).
  destruct (truthy (prop node (js "_text"))); [reflexivity|].
  destruct (truthy (bindingCode node (js "_text"))); [reflexivity|].
  destruct (jseqb (name node) (js "Fragment")); [now apply bind_ext_l|].
  destruct (checkIsForNode node).
  { apply bind_ext_r. intros eachCode w'. now apply bind_ext_l. }
  destruct (jseqb (name node) (js "Show")).
  { apply bind_ext_r. intros whenCode w'.
    destruct me as [elseNode|]; cbn [option_map].
    - unfold bind at 1 3. rewrite IHelse.
      destruct (Legacy.blockToAstro transformStyle o2 elseNode w') as [[t|e] w1];
        [|reflexivity].
      now apply bind_ext_l.
    - apply bind_ext_r. intros elseBlock w''. now apply bind_ext_l. }
  apply bind_ext_r. intros str w'.
  destruct (has SELF_CLOSING_HTML_TAGS (name node)); [reflexivity|].
  apply bind_ext_l. intros w''.
  destruct (truthy (bindingCode node (js "innerHTML"))); [reflexivity|].
  now apply bind_ext_l.
Qed.

(** X21.  In the earlier revision the directive that stands in for a
    missing or empty one is [client:load]. *)
Theorem legacy_default_directive_is_load
    (o1 o2 : ToAstroOptions) (node : MitosisNode) (w : World) :
  clientDirective o1 = None \/ clientDirective o1 = Some [] ->
  clientDirective o2 = Some CLIENT_DIRECTIVES_load ->
  Legacy.blockToAstro transformStyle o1 node w
  = Legacy.blockToAstro transformStyle o2 node w.
Proof.
  intros H1 H2. apply legacy_blockToAstro_ext. intros n.
  unfold Legacy.elementStart. rewrite H2. destruct H1 as [-> | ->]; reflexivity.
Qed.

End EarlierRenderer.

(* ------------------------------------------------------------------ *)
(** ** cssObjectToString *)

Lemma dropWhile_split (f : N -> bool) (s : jsstring) :
  exists pre, s = pre ++ dropWhile f s /\ forallb f pre = true.
Proof.
  induction s as [|c s [pre [IH Hpre]]]; [now exists []|].
  cbn [dropWhile]. destruct (f c) eqn:E.
  - exists (c :: pre). cbn [app forallb]. rewrite E, Hpre. now rewrite <- IH.
  - now exists [].
Qed.

Lemma dropWhile_app_all (f : N -> bool) (pre t : jsstring) :
  forallb f pre = true -> dropWhile f (pre ++ t) = dropWhile f t.
Proof.
  induction pre as [|c pre IH]; [reflexivity|].
  cbn [forallb app dropWhile]. intros H. apply andb_true_iff in H as [Hc Hp].
  rewrite Hc. now apply IH.
Qed.

Lemma dropWhile_head (f : N -> bool) (s t : jsstring) (c : N) :
  dropWhile f s = c :: t -> f c = false.
Proof.
  induction s as [|x s IH]; [discriminate|].
  cbn [dropWhile]. destruct (f x) eqn:E; [exact IH|].
  intros H. injection H as -> _. exact E.
Qed.

Lemma matchOpen_spec (s t : jsstring) :
  matchOpen s = Some t -> exists pre, s = pre ++ t /\ matchOpen pre = Some [].
Proof.
  unfold matchOpen. intros H.
  destruct (dropWhile_split isWhiteSpace s) as [ws1 [E1 H1]].
  destruct (dropWhile isWhiteSpace s) as [|c u]; [discriminate|].
  destruct (isOpener c) eqn:Ec; [|discriminate].
  injection H as <-.
  destruct (dropWhile_split isWhiteSpace u) as [ws2 [E2 H2]].
  exists (ws1 ++ c :: ws2). split.
  - rewrite E1 at 1. rewrite E2 at 1. rewrite <- app_assoc. reflexivity.
  - rewrite (dropWhile_app_all _ _ _ H1).
    assert (Hc : isWhiteSpace c = false).
    { unfold isOpener in Ec. apply orb_true_iff in Ec as [Ec|Ec];
        apply N.eqb_eq in Ec; subst c; reflexivity. }
    cbn [dropWhile]. rewrite Hc, Ec.
    now rewrite (dropWhile_all _ _ H2).
Qed.

Lemma dropClose_spec (s : jsstring) :
  exists post, s = dropClose s ++ post /\ (post = [] \/ matchClose post = true).
Proof.
  induction s as [|c s [post [IH Hpost]]].
  - exists []. cbn. auto.
  - cbn [dropClose]. destruct (matchClose (c :: s)) eqn:E.
    + exists (c :: s). auto.
    + exists post. cbn [app]. now rewrite <- IH.
Qed.

Lemma dropClose_plain (s : jsstring) :
  forallb (fun c => negb (isCloser c)) s = true -> dropClose s = s.
Proof.
  induction s as [|c s IH]; [reflexivity|].
  intros H. cbn [dropClose].
  assert (E : matchClose (c :: s) = false).
  { unfold matchClose.
    destruct (dropWhile_split isWhiteSpace (c :: s)) as [pre [E1 _]].
    destruct (dropWhile isWhiteSpace (c :: s)) as [|x t]; [reflexivity|].
    rewrite E1 in H. rewrite forallb_app in H.
    apply andb_true_iff in H as [_ H]. cbn [forallb] in H.
    apply andb_true_iff in H as [H _]. apply negb_true_iff in H.
    now rewrite H. }
  rewrite E. cbn [forallb] in H. apply andb_true_iff in H as [_ H].
  now rewrite IH.
Qed.

(** X22.  The cleaning step of [cssObjectToString] removes at most one
    opening bracket at the start and one closing bracket at the end, each with
    the whitespace around it, and nothing else; code without parentheses and
    braces is left as it is. *)
Theorem cleanCss_removes_brackets (cssCode : jsstring) :
  (exists pre post,
      cssCode = pre ++ cleanCss cssCode ++ post
      /\ (pre = [] \/ matchOpen pre = Some [])
      /\ (post = [] \/ matchClose post = true))
  /\ (forallb (fun c => negb (isOpener c) && negb (isCloser c)) cssCode = true ->
      cleanCss cssCode = cssCode).
Proof.
  split.
  - unfold cleanCss. destruct (matchOpen cssCode) as [t|] eqn:E.
    + apply matchOpen_spec in E as [pre [E Hpre]].
      destruct (dropClose_spec t) as [post [Et Hpost]].
      exists pre, post. rewrite <- Et. auto.
    + destruct (dropClose_spec cssCode) as [post [Et Hpost]].
      exists [], post. cbn [app]. auto.
  - intros H. unfold cleanCss.
    assert (Hopen : matchOpen cssCode = None).
    { unfold matchOpen.
      destruct (dropWhile_split isWhiteSpace cssCode) as [pre [E1 _]].
      destruct (dropWhile isWhiteSpace cssCode) as [|x t]; [reflexivity|].
      rewrite E1 in H. rewrite forallb_app in H.
      apply andb_true_iff in H as [_ H]. cbn [forallb] in H.
      apply andb_true_iff in H as [H _]. apply andb_true_iff in H as [H _].
      apply negb_true_iff in H. now rewrite H. }
    rewrite Hopen. apply dropClose_plain.
    rewrite forallb_forall in *. intros c Hc.
    specialize (H c Hc). now apply andb_true_iff in H as [_ H].
Qed.

Lemma declarations_concat (entries : list (jsstring * jsstring)) (start : jsstring) :
  fold_left
    (fun cssString '(property, value) =>
       cssString ++ js "  " ++ kebabCase property ++ js ": " ++ value
       ++ js ";" ++ nl)
    entries start
  = start ++ concat (map (fun entry =>
                            js "  " ++ kebabCase (fst entry) ++ js ": "
                            ++ snd entry ++ js ";" ++ nl) entries).
Proof.
  revert start.
  induction entries as [|[p v] es IH]; intros start; cbn [fold_left map concat].
  - now rewrite app_nil_r.
  - rewrite IH. cbn [fst snd]. now rewrite <- !app_assoc.
Qed.

(** X23.  [cssObjectToString] never throws.  When the evaluation of the
    object fails it warns once and answers with a comment that quotes the
    code, which is not blank; otherwise it answers with one declaration per
    entry, in order, the property names in kebab case. *)
Theorem cssObjectToString_fail_soft (cssCode : jsstring) (w : World) :
  (forall error,
      evalObjectEntries (js "return {" ++ cleanCss cssCode ++ js "}") = Throw error ->
      cssObjectToString cssCode w
      = (Normal (js "  /* Generated from: " ++ cssCode ++ js " */" ++ nl),
         warned w (js "Could not parse CSS-in-JS object:" ++ js " " ++ cssCode))
      /\ truthy (trim (js "  /* Generated from: " ++ cssCode ++ js " */" ++ nl)) = true)
  /\ (forall entries,
        evalObjectEntries (js "return {" ++ cleanCss cssCode ++ js "}")
        = Normal entries ->
        cssObjectToString cssCode w
        = (Normal (concat (map (fun entry =>
                                  js "  " ++ kebabCase (fst entry) ++ js ": "
                                  ++ snd entry ++ js ";" ++ nl) entries)), w)).
Proof.
  split.
  - intros error H. split.
    + unfold cssObjectToString, tryCatch, bind, call, consoleWarn, ret, warned.
      now rewrite H.
    + destruct (truthy (trim _)) eqn:E; [reflexivity|].
      apply blank_iff in E. discriminate.
  - intros entries H.
    unfold cssObjectToString, tryCatch, bind, call, ret. rewrite H.
    now rewrite declarations_concat.
Qed.

(** X24.  In the earlier revision a style object that cannot be evaluated
    gives the empty string, after one warning. *)
Theorem legacy_css_failure_gives_empty
    (toLowerCase : jsstring -> jsstring) (cssCode error : jsstring) (w : World) :
  evalObjectEntries (js "return " ++ cssCode) = Throw error ->
  Legacy.cssObjectToString toLowerCase cssCode w
  = (Normal [], warned w (js "Could not parse CSS-in-JS:" ++ js " " ++ cssCode)).
Proof.
  intros H. unfold Legacy.cssObjectToString, tryCatch, bind, call, consoleWarn, ret.
  now rewrite H.
Qed.

(* ------------------------------------------------------------------ *)
(** ** componentToAstro *)

Lemma dropWhile_suffix (f : N -> bool) (s : jsstring) :
  exists pre, s = pre ++ dropWhile f s.
Proof.
  induction s as [|c s [pre IH]]; [now exists []|].
  cbn [dropWhile]. destruct (f c).
  - exists (c :: pre). cbn [app]. now rewrite <- IH.
  - now exists [].
Qed.

Lemma includes_suffix_true (p a b : jsstring) :
  includes p b = true -> includes p (a ++ b) = true.
Proof.
  intros H. destruct (includes p (a ++ b)) eqn:E; [reflexivity|].
  apply includes_suffix in E. congruence.
Qed.

Theorem arrowHead_includes_arrow (code : jsstring) :
  arrowHead code = true -> includes (js "=>") code = true.
Proof.
  unfold arrowHead. intros H.
  destruct (dropWhile_suffix isWhiteSpace code) as [pre1 E1].
  destruct (dropWhile isWhiteSpace code) as [|c t]; [discriminate|].
  apply andb_true_iff in H as [_ H].
  destruct (dropWhile_suffix (fun x => negb (x =? 41)%N) t) as [pre2 E2].
  destruct (dropWhile (fun x => negb (x =? 41)%N) t) as [|c' t']; [discriminate|].
  destruct (dropWhile_suffix isWhiteSpace t') as [pre3 E3].
  apply includes_startsWith in H.
  rewrite E1, E2, E3.
  apply includes_suffix_true.
  change (c :: pre2 ++ c' :: pre3 ++ dropWhile isWhiteSpace t')
    with ((c :: pre2) ++ (c' :: pre3) ++ dropWhile isWhiteSpace t').
  now do 2 apply includes_suffix_true.
Qed.

(** X25.  The choice between [const] and [let] for a state declaration is
    made by the two substring tests alone: whenever the test for the head of
    an arrow function succeeds, the code includes [=>]. *)
Theorem isFunction_by_substrings (code : jsstring) :
  includes (js "function") code || includes (js "=>") code || arrowHead code
  = includes (js "function") code || includes (js "=>") code.
Proof.
  destruct (arrowHead code) eqn:E; [|now rewrite orb_false_r].
  rewrite (arrowHead_includes_arrow code E). now rewrite !orb_true_r.
Qed.

Lemma matchGap_spec (s rest : jsstring) :
  matchGap s = Some rest ->
  exists pre, s = pre ++ 60%N :: rest /\ forallb isWhiteSpace pre = true.
Proof.
  unfold matchGap. intros H.
  destruct (dropWhile_split isWhiteSpace s) as [pre [E Hpre]].
  destruct (dropWhile isWhiteSpace s) as [|c t]; [discriminate|].
  destruct (c =? 60)%N eqn:Ec; [|discriminate].
  apply N.eqb_eq in Ec. subst c. injection H as <-. now exists pre.
Qed.

Lemma matchGap_length (s rest : jsstring) :
  matchGap s = Some rest -> (length rest < length s)%nat.
Proof.
  intros H. apply matchGap_spec in H as [pre [-> _]].
  rewrite length_app. cbn [length]. lia.
Qed.

Lemma formatFrom_fuel (n m : nat) (s : jsstring) :
  (length s <= n)%nat -> (length s <= m)%nat -> formatFrom n s = formatFrom m s.
Proof.
  revert m s. induction n as [|n IH]; intros m s Hn Hm.
  - destruct s; [|cbn in Hn; lia]. now destruct m.
  - destruct m as [|m]; [destruct s; [reflexivity|cbn in Hm; lia]|].
    destruct s as [|c s]; [reflexivity|]. cbn [formatFrom length] in *.
    destruct (if (c =? 62)%N then matchGap s else None) as [rest|] eqn:E.
    + assert (Hlen : (length rest < length s)%nat).
      { destruct (c =? 62)%N; [now apply matchGap_length|discriminate]. }
      do 3 f_equal. apply IH; lia.
    + f_equal. apply IH; lia.
Qed.

Lemma format_nil : format [] = [].
Proof. reflexivity. Qed.

Lemma format_cons (c : N) (s : jsstring) :
  format (c :: s)
  = match (if (c =? 62)%N then matchGap s else None) with
    | Some rest => js ">" ++ nl ++ js "<" ++ format rest
    | None => c :: format s
    end.
Proof.
  unfold format. cbn [length formatFrom].
  destruct (if (c =? 62)%N then matchGap s else None) as [rest|] eqn:E.
  - assert (Hlen : (length rest < length s)%nat).
    { destruct (c =? 62)%N; [now apply matchGap_length|discriminate]. }
    do 3 f_equal. apply formatFrom_fuel; lia.
  - reflexivity.
Qed.

Lemma format_head (c : N) (s : jsstring) :
  exists t, format (c :: s) = c :: t.
Proof.
  rewrite format_cons. destruct (c =? 62)%N eqn:E.
  - apply N.eqb_eq in E. subst c. destruct (matchGap s); eexists; reflexivity.
  - eexists; reflexivity.
Qed.

Lemma whiteSpace_not_gt (c : N) : isWhiteSpace c = true -> (c =? 62)%N = false.
Proof.
  intros H. destruct (c =? 62)%N eqn:E; [|reflexivity].
  apply N.eqb_eq in E. subst c. discriminate.
Qed.

Lemma format_whitespace (pre t : jsstring) :
  forallb isWhiteSpace pre = true -> format (pre ++ t) = pre ++ format t.
Proof.
  induction pre as [|c pre IH]; [reflexivity|].
  cbn [forallb app]. intros H. apply andb_true_iff in H as [Hc Hp].
  rewrite format_cons, (whiteSpace_not_gt _ Hc). now rewrite IH.
Qed.

Lemma matchGap_format (s : jsstring) :
  matchGap (format s) = option_map format (matchGap s).
Proof.
  unfold matchGap.
  destruct (dropWhile_split isWhiteSpace s) as [pre [E Hpre]].
  rewrite E at 1. rewrite (format_whitespace _ _ Hpre).
  destruct (dropWhile isWhiteSpace s) as [|c t] eqn:Ed.
  - rewrite format_nil, app_nil_r. now rewrite (dropWhile_all _ _ Hpre).
  - pose proof (dropWhile_head _ _ _ _ Ed) as Hc.
    rewrite (dropWhile_app_all _ _ _ Hpre).
    destruct (c =? 60)%N eqn:E60.
    + apply N.eqb_eq in E60. subst c. rewrite format_cons. cbn [N.eqb Pos.eqb].
      cbn [dropWhile]. now rewrite Hc.
    + destruct (format_head c t) as [u ->]. cbn [dropWhile].
      now rewrite Hc, E60.
Qed.

(** X26.  Formatting is idempotent: formatting formatted output changes
    nothing. *)
Theorem format_idempotent (output : jsstring) :
  format (format output) = format output.
Proof.
  remember (length output) as n eqn:Hn.
  revert output Hn. induction n as [n IH] using lt_wf_ind. intros s Hn.
  destruct s as [|c s]; [reflexivity|].
  rewrite (format_cons c s).
  destruct (c =? 62)%N eqn:Ec.
  - destruct (matchGap s) as [rest|] eqn:Eg.
    + change (js ">" ++ nl ++ js "<" ++ format rest)
        with (62%N :: 10%N :: 60%N :: format rest).
      rewrite format_cons. cbn [N.eqb Pos.eqb].
      change (matchGap (10%N :: 60%N :: format rest)) with (Some (format rest)).
      cbv iota.
      change (js ">" ++ nl ++ js "<" ++ format (format rest))
        with (62%N :: 10%N :: 60%N :: format (format rest)).
      rewrite (IH (length rest)); [reflexivity| |reflexivity].
      apply matchGap_length in Eg. subst n. cbn [length]. lia.
    + rewrite format_cons, Ec, matchGap_format, Eg. cbn [option_map].
      rewrite (IH (length s)); [reflexivity| |reflexivity].
      subst n. cbn [length]. lia.
  - rewrite format_cons, Ec.
    rewrite (IH (length s)); [reflexivity| |reflexivity].
    subst n. cbn [length]. lia.
Qed.

Lemma filter_whitespace (pre : jsstring) :
  forallb isWhiteSpace pre = true ->
  filter (fun c => negb (isWhiteSpace c)) pre = [].
Proof.
  induction pre as [|c pre IH]; [reflexivity|].
  cbn [forallb filter]. intros H. apply andb_true_iff in H as [Hc Hp].
  rewrite Hc. cbn [negb]. now apply IH.
Qed.

(** X27.  Formatting changes whitespace only: the output without its
    whitespace is the same before and after. *)
Theorem format_changes_whitespace_only (output : jsstring) :
  filter (fun c => negb (isWhiteSpace c)) (format output)
  = filter (fun c => negb (isWhiteSpace c)) output.
Proof.
  remember (length output) as n eqn:Hn.
  revert output Hn. induction n as [n IH] using lt_wf_ind. intros s Hn.
  destruct s as [|c s]; [reflexivity|].
  rewrite (format_cons c s).
  destruct (if (c =? 62)%N then matchGap s else None) as [rest|] eqn:E.
  - destruct (c =? 62)%N eqn:Ec; [|discriminate].
    apply N.eqb_eq in Ec. subst c.
    pose proof (matchGap_length _ _ E) as Hlen.
    apply matchGap_spec in E as [pre [-> Hpre]].
    change (js ">" ++ nl ++ js "<" ++ format rest)
      with (62%N :: 10%N :: 60%N :: format rest).
    cbn [filter]. change (negb (isWhiteSpace 62)) with true.
    change (negb (isWhiteSpace 10)) with false.
    change (negb (isWhiteSpace 60)) with true. cbv iota.
    rewrite filter_app, (filter_whitespace _ Hpre). cbn [app filter].
    change (negb (isWhiteSpace 60)) with true. cbv iota.
    rewrite (IH (length rest)); [reflexivity| |reflexivity].
    subst n. cbn [length]. rewrite length_app. cbn [length]. lia.
  - cbn [filter]. rewrite (IH (length s)); [reflexivity| |reflexivity].
    subst n. cbn [length]. lia.
Qed.

Lemma steady_ret {A : Type} (a : A) : steady (ret a).
Proof. intros w. now exists a, w. Qed.

Lemma steady_bind {A B : Type} (c : M A) (k : A -> M B) :
  steady c -> (forall a, steady (k a)) -> steady (bind c k).
Proof.
  intros Hc Hk w. destruct (Hc w) as [a [w1 [E1 H1]]].
  destruct (Hk a w1) as [b [w2 [E2 H2]]].
  exists b, w2. unfold bind. rewrite E1. split; [exact E2|congruence].
Qed.

Lemma steady_forEachM {A X : Type} (step : A -> X -> M A) (xs : list X) :
  (forall acc x, steady (step acc x)) ->
  forall acc, steady (forEachM step xs acc).
Proof.
  intros H. induction xs as [|x xs IH]; intros acc; cbn [forEachM].
  - apply steady_ret.
  - apply steady_bind; [apply H|exact IH].
Qed.

Lemma steady_intro {A : Type} (c : M A) :
  (forall w, exists a w', c w = (Normal a, w')) -> heapNeutral c -> steady c.
Proof.
  intros Hrun Hheap w. destruct (Hrun w) as [a [w' E]].
  exists a, w'. split; [exact E|]. specialize (Hheap w). now rewrite E in Hheap.
Qed.

Lemma steady_cssInJsInit (m : option (list (jsstring * jsstring))) :
  steady (cssInJsInit m).
Proof. intros w. eexists _, _. split; reflexivity. Qed.

Lemma steady_cssInJsGet : steady cssInJsGet.
Proof. intros w. eexists _, _. split; reflexivity. Qed.

Lemma completes_bind {A B : Type} (pre : World -> Prop) (c : M A) (k : A -> M B)
    (mid : A -> World -> Prop) (post : B -> World -> Prop) :
  completes pre c mid ->
  (forall a, completes (mid a) (k a) post) ->
  completes pre (bind c k) post.
Proof.
  intros Hc Hk w Hw. destruct (Hc w Hw) as [a [w1 [E1 H1]]].
  destruct (Hk a w1 H1) as [b [w2 [E2 H2]]].
  exists b, w2. unfold bind. rewrite E1. now split.
Qed.

Lemma completes_steady {A : Type} (r : ref) (c : M A) :
  steady c -> completes (valid r) c (fun _ => valid r).
Proof.
  intros Hc w Hw. destruct (Hc w) as [a [w' [E H]]].
  exists a, w'. split; [exact E|]. unfold valid in *. now rewrite H.
Qed.

Lemma completes_ret {A : Type} (pre : World -> Prop) (a : A) :
  completes pre (ret a) (fun _ => pre).
Proof. intros w Hw. now exists a, w. Qed.

Lemma completes_deref (r r' : ref) :
  (r <= r')%nat -> completes (valid r') (deref r) (fun _ => valid r').
Proof.
  intros Hle w Hw. unfold deref.
  destruct (nth_error (heap w) r) as [v|] eqn:E.
  - now exists v, w.
  - apply nth_error_None in E. unfold valid in Hw. lia.
Qed.

Lemma completes_assign (r r' : ref) (v : MitosisComponent) :
  completes (valid r') (assign r v) (fun _ => valid r').
Proof.
  intros w Hw. exists tt. eexists. split; [reflexivity|].
  unfold valid in *. cbn [heap]. now rewrite length_writeAt.
Qed.

Lemma completes_alloc (r : ref) (v : MitosisComponent) :
  completes (valid r) (alloc v) (fun r' w => valid r' w /\ (r <= r')%nat).
Proof.
  intros w Hw. eexists _, _. split; [reflexivity|].
  unfold valid in *. cbn [heap]. rewrite length_app. cbn [length]. lia.
Qed.

Lemma completes_weaken {A : Type} (pre : World -> Prop) (c : M A)
    (post post' : A -> World -> Prop) :
  completes pre c post ->
  (forall a w, post a w -> post' a w) ->
  completes pre c post'.
Proof.
  intros Hc Himp w Hw. destruct (Hc w Hw) as [a [w' [E H]]].
  exists a, w'. auto.
Qed.

Lemma completes_assume {A : Type} (pre : World -> Prop) (P : Prop) (c : M A)
    (post : A -> World -> Prop) :
  (P -> completes pre c post) ->
  completes (fun w => pre w /\ P) c post.
Proof. intros H w [Hw HP]. now apply H. Qed.

Lemma completes_fastClone (component : ref) :
  completes (valid component) (fastClone component)
    (fun json w => valid json w /\ (component <= json)%nat).
Proof.
  unfold fastClone.
  eapply completes_bind; [apply (completes_deref component component); lia|].
  intros v. apply completes_alloc.
Qed.

Lemma completes_runJsonPlugins
    (run : MitosisComponent -> MitosisComponent * option MitosisComponent)
    (json : ref) :
  completes (valid json) (runJsonPlugins run json)
    (fun json' w => valid json' w /\ (json <= json')%nat).
Proof.
  unfold runJsonPlugins.
  eapply completes_bind; [apply (completes_deref json json); lia|intros v].
  destruct (run v) as [v' returned].
  eapply completes_bind; [apply completes_assign|intros ?].
  destruct returned; [apply completes_alloc|].
  intros w Hw. exists json, w. repeat split; auto.
Qed.

Lemma steady_processBinding (code : jsstring) (context : Context) :
  steady (processBinding code context).
Proof.
  apply steady_intro; [|apply processBinding_heap].
  intros w. rewrite processBinding_run. eauto.
Qed.

Lemma steady_blockToAstro (options : ToAstroOptions) (node : MitosisNode) :
  steady (blockToAstro options node).
Proof.
  apply steady_intro; [apply blockToAstro_run|apply blockToAstro_heap].
Qed.

Lemma steady_cssObjectToString (cssCode : jsstring) :
  steady (cssObjectToString cssCode).
Proof.
  apply steady_intro; [|apply cssObjectToString_heap].
  intros w. unfold cssObjectToString, tryCatch, bind, call, consoleWarn, ret.
  destruct (evalObjectEntries _); eauto.
Qed.

(** Goals [steady c] for a computation built from the steady parts of the
    generator. *)
Ltac steadily :=
  repeat first
    [ apply steady_ret
    | apply steady_processBinding
    | apply steady_blockToAstro
    | apply steady_cssObjectToString
    | apply steady_cssInJsInit
    | apply steady_cssInJsGet
    | apply steady_bind; [|intros ?]
    | apply steady_forEachM; intros ? ?
    | progress cbv zeta
    | match goal with
      | |- steady (if ?b then _ else _) => destruct b
      | |- steady (match ?x with _ => _ end) => destruct x
      | |- steady (let (_, _) := ?x in _) => destruct x
      end ].

(** X28.  For a component that exists, [componentToAstro] completes
    normally: the failures of the expression transform and of the evaluation
    of style objects are caught in [processBinding] and [cssObjectToString],
    and nothing else in the generator throws. *)
Theorem componentToAstro_completes
    (userOptions : ToAstroOptions) (component : ref) (w : World) :
  (component < length (heap w))%nat ->
  exists output w',
    componentToAstro userOptions component w = (Normal output, w').
Proof.
  intros Hvalid.
  cut (completes (valid component) (componentToAstro userOptions component)
         (fun _ _ => True)).
  { intros H. destruct (H w Hvalid) as [a [w' [E _]]]. eauto. }
  unfold componentToAstro.
  eapply completes_bind; [apply completes_fastClone|intros json].
  apply completes_assume. intros Hle.
  eapply completes_bind; [now apply completes_deref|intros original].
  cbv zeta.
  eapply completes_bind; [apply completes_steady; steadily|intros ?].
  eapply completes_bind.
  { instantiate (1 := fun json' w => valid json' w).
    destruct (plugins _);
      [ eapply completes_weaken; [apply completes_runJsonPlugins|now intros ? ? [? _]]
      | intros w1 H1; now exists json, w1 ]. }
  clear json Hle. intros json.
  eapply completes_bind; [apply (completes_deref json json); lia|intros v].
  destruct (collectCss _ _) as [css v'].
  eapply completes_bind; [apply completes_assign|intros ?].
  eapply completes_bind.
  { instantiate (1 := fun json' w => valid json' w).
    destruct (plugins _);
      [ eapply completes_weaken; [apply completes_runJsonPlugins|now intros ? ? [? _]]
      | intros w1 H1; now exists json, w1 ]. }
  clear json. intros json.
  eapply completes_bind; [apply (completes_deref json json); lia|intros v1].
  eapply completes_bind; [apply completes_assign|intros ?].
  eapply completes_bind; [apply (completes_deref json json); lia|intros v2].
  cbv zeta.
  do 6 (eapply completes_bind; [apply completes_steady; steadily|intros ?]).
  eapply completes_bind; [apply (completes_deref json json); lia|intros v3].
  intros w1 H1. eexists _, w1. split; [reflexivity|exact I].
Qed.

Lemma fastClone_run (component : ref) (v : MitosisComponent) (w : World) :
  nth_error (heap w) component = Some v ->
  fastClone component w
  = (Normal (length (heap w)),
     {| heap := heap w ++ [v]; cssInJs := cssInJs w; console := console w |}).
Proof. intros H. unfold fastClone, bind, deref, alloc. now rewrite H. Qed.

Lemma deref_run (r : ref) (v : MitosisComponent) (w : World) :
  nth_error (heap w) r = Some v -> deref r w = (Normal v, w).
Proof. intros H. unfold deref. now rewrite H. Qed.

(** X29.  Every compilation starts from an empty style registry: what the
    registry holds before the call has no effect on the output nor on the
    world after the call. *)
Theorem componentToAstro_fresh_registry
    (userOptions : ToAstroOptions) (component : ref) (w : World)
    (styles : option (list (jsstring * jsstring))) :
  (component < length (heap w))%nat ->
  componentToAstro userOptions component
    {| heap := heap w; cssInJs := styles; console := console w |}
  = componentToAstro userOptions component w.
Proof.
  intros Hvalid.
  destruct (nth_error (heap w) component) as [v|] eqn:E;
    [|apply nth_error_None in E; lia].
  assert (E' : nth_error (heap w ++ [v]) component = Some v)
    by (rewrite nth_error_app1; assumption).
  unfold componentToAstro.
  rewrite (bind_run _ _ _ _ _ (fastClone_run component v w E)).
  rewrite (bind_run _ _ _ _ _
             (fastClone_run component v
                {| heap := heap w; cssInJs := styles; console := console w |} E)).
  cbn [heap cssInJs console].
  rewrite (bind_run _ _ _ _ _
             (deref_run component v
                {| heap := heap w ++ [v]; cssInJs := cssInJs w;
                   console := console w |} E')).
  rewrite (bind_run _ _ _ _ _
             (deref_run component v
                {| heap := heap w ++ [v]; cssInJs := styles;
                   console := console w |} E')).
  cbv zeta.
  match goal with
  | |- bind ?c ?k ?w1 = bind ?c ?k ?w2 =>
      change (bind c k w1) with (k tt {| heap := heap w ++ [v]; cssInJs := Some [];
                                         console := console w |});
      change (bind c k w2) with (k tt {| heap := heap w ++ [v]; cssInJs := Some [];
                                         console := console w |})
  end.
  reflexivity.
Qed.

End FurtherProperties.

(* ------------------------------------------------------------------ *)
(** ** Instances of the further properties *)

Lemma refs_force_load_witness :
  (0 < length
         (@getRefs referenceCollaborators
            (componentOf [] None
               [element "input" [] [(js "ref", binding "inputRef")] []])))%nat
  /\ suggestedDirective
       (@analyzeHydrationNeeds referenceCollaborators
          (componentOf [] None
             [element "input" [] [(js "ref", binding "inputRef")] []]))
     = CLIENT_DIRECTIVES_load.
Proof.
  split; [vm_compute; lia|].
  apply (@refs_force_load referenceCollaborators). vm_compute. lia.
Defined.

Lemma idle_only_for_events_witness :
  suggestedDirective
    (@analyzeHydrationNeeds referenceCollaborators
       (componentOf [] None
          [element "button" [] [(js "onClick", binding "state.n++")] []]))
  = CLIENT_DIRECTIVES_idle
  /\ @getRefs referenceCollaborators
       (componentOf [] None
          [element "button" [] [(js "onClick", binding "state.n++")] []]) = []
  /\ onMount (hooks (componentOf [] None
          [element "button" [] [(js "onClick", binding "state.n++")] []])) = []
  /\ forallb noInteractiveEvents
       (componentChildren (componentOf [] None
          [element "button" [] [(js "onClick", binding "state.n++")] []])) = false.
Proof.
  split; [reflexivity|].
  apply (@idle_only_for_events referenceCollaborators). reflexivity.
Defined.

Lemma events_alone_suggest_idle_witness :
  suggestedDirective
    (@analyzeHydrationNeeds referenceCollaborators
       (componentOf [] (Some [{| hookCode := js "sync()" |}])
          [element "form" []
             [] [element "button" [] [(js "onClick", binding "save()")] []]]))
  = CLIENT_DIRECTIVES_idle.
Proof.
  apply (@events_alone_suggest_idle referenceCollaborators); reflexivity.
Defined.

(** The proviso of X5 at work: an interactive node whose name contains
    [onMount] gets [client:load] without any mount hook. *)
Example node_named_onMount_suggests_load :
  suggestedDirective
    (@analyzeHydrationNeeds referenceCollaborators
       (componentOf [] None
          [element "onMountBox" [] [(js "onClick", binding "open()")] []]))
  = CLIENT_DIRECTIVES_load.
Proof. reflexivity. Qed.

Lemma reference_events (key : jsstring) :
  has INTERACTIVE_EVENTS key = true -> @checkIsEvent referenceCollaborators key = true.
Proof.
  intros H. apply has_In in H.
  assert (Hall : forallb (@checkIsEvent referenceCollaborators) INTERACTIVE_EVENTS
                 = true) by reflexivity.
  rewrite forallb_forall in Hall. now apply Hall.
Qed.

Lemma hydration_needed_in_both_revisions_witness :
  needsHydration
    (@analyzeHydrationNeeds referenceCollaborators
       (componentOf [] None
          [element "button" [] [(js "onClick", binding "state.n++")] []]))
  = true
  /\ @Legacy.needsHydration referenceCollaborators
       (componentOf [] None
          [element "button" [] [(js "onClick", binding "state.n++")] []])
     = true.
Proof.
  split; [reflexivity|].
  apply (@hydration_needed_in_both_revisions referenceCollaborators);
    [exact reference_events|reflexivity].
Defined.

Lemma unreferenced_code_is_kept_witness :
  substituteRefs Template (js "items.length + 1") = js "items.length + 1"
  /\ Legacy.processBinding (js "items.length + 1") Template = js "items.length + 1".
Proof.
  apply (unreferenced_code_is_kept (js "items.length + 1") Template);
    [reflexivity|intros _; reflexivity].
Defined.

Lemma collectClassString_registers_style_witness :
  lookup (js "card-16")
    (registry
       (snd (@collectClassString referenceCollaborators
               (element "card" [] [(js "css", binding "{ color: 'red' }")] [])
               emptyWorld)))
  = Some (js "{ color: 'red' }")
  /\ (forall className,
        className <> js "card-16" ->
        lookup className
          (registry
             (snd (@collectClassString referenceCollaborators
                     (element "card" [] [(js "css", binding "{ color: 'red' }")] [])
                     emptyWorld)))
        = lookup className (registry emptyWorld)).
Proof.
  apply (@collectClassString_registers_style referenceCollaborators
           (element "card" [] [(js "css", binding "{ color: 'red' }")] [])
           emptyWorld).
  reflexivity.
Defined.

Lemma collectClassString_without_style_witness :
  cssInJs
    (snd (@collectClassString referenceCollaborators
            (element "p" [(js "class", js "lead")] [] []) emptyWorld))
  = cssInJs emptyWorld
  /\ heap
       (snd (@collectClassString referenceCollaborators
               (element "p" [(js "class", js "lead")] [] []) emptyWorld))
     = heap emptyWorld.
Proof.
  apply (@collectClassString_without_style referenceCollaborators). reflexivity.
Defined.

Lemma legacy_collectClassString_literal_witness :
  @Legacy.collectClassString referenceCollaborators
    (element "p" [(js "class", js " lead ")] [] []) emptyWorld
  = (Normal (quote ++ js " lead " ++ quote), emptyWorld).
Proof.
  apply (@legacy_collectClassString_literal referenceCollaborators
           (element "p" [(js "class", js " lead ")] [] []) emptyWorld);
    reflexivity.
Defined.

Lemma default_directive_is_idle_witness :
  @blockToAstro referenceCollaborators defaultOptions
    (element "button" [] [(js "onClick", binding "state.n++")] []) emptyWorld
  = @blockToAstro referenceCollaborators
      {| clientDirective := Some CLIENT_DIRECTIVES_idle; typescript := Some false;
         prettier := None; plugins := None; explicitImportFileExtension := None |}
      (element "button" [] [(js "onClick", binding "state.n++")] []) emptyWorld.
Proof.
  apply (@default_directive_is_idle referenceCollaborators);
    [left; reflexivity|reflexivity].
Defined.

Lemma innerHTML_replaces_children_witness :
  @blockToAstro referenceCollaborators defaultOptions
    (MkNode (js "div") [] [(js "innerHTML", binding "props.html")]
       [element "span" [(js "_text", js "fallback")] [] []] None noScope)
    emptyWorld
  = (Normal (js "<div set:html={html}>{html}</div>"), emptyWorld).
Proof.
  destruct (@innerHTML_replaces_children referenceCollaborators defaultOptions
              (js "div") [] [(js "innerHTML", binding "props.html")]
              [element "span" [(js "_text", js "fallback")] [] []] None noScope
              emptyWorld eq_refl eq_refl eq_refl eq_refl eq_refl) as [H _].
  rewrite H. reflexivity.
Defined.

Lemma ref_element_is_bound_witness :
  exists text w',
    @blockToAstro referenceCollaborators defaultOptions
      (element "input" [] [(js "ref", binding "inputRef")] []) emptyWorld
    = (Normal text, w')
    /\ includes (js " bind:this={inputRef}") text = true
    /\ (clientDirective defaultOptions <> Some (js "none") ->
        includes (js " client:idle") text = true).
Proof.
  apply (@ref_element_is_bound referenceCollaborators defaultOptions
           (element "input" [] [(js "ref", binding "inputRef")] [])
           (binding "inputRef") emptyWorld);
    try reflexivity.
  left. reflexivity.
Defined.

Lemma event_handler_attribute_witness :
  exists text w',
    @blockToAstro referenceCollaborators defaultOptions
      (element "input" [] [(js "onChange", binding "state.set(event)")] [])
      emptyWorld
    = (Normal text, w')
    /\ includes (js " onInput={(event) => set(event)}") text = true.
Proof.
  apply (@event_handler_attribute referenceCollaborators defaultOptions
           (element "input" [] [(js "onChange", binding "state.set(event)")] [])
           (js "onChange") (binding "state.set(event)") emptyWorld);
    try reflexivity.
  left. reflexivity.
Defined.

Lemma legacy_style_failure_escapes_witness :
  exists error w',
    @Legacy.blockToAstro referenceCollaborators
      (fun _ => Throw (js "SyntaxError")) defaultOptions
      (element "div" [] [(js "style", binding "{ color: ")] []) emptyWorld
    = (Throw error, w').
Proof.
  apply (@legacy_style_failure_escapes referenceCollaborators
           (fun _ => Throw (js "SyntaxError")) defaultOptions
           (element "div" [] [(js "style", binding "{ color: ")] [])
           (binding "{ color: ") (js "SyntaxError") emptyWorld);
    try reflexivity.
  left. reflexivity.
Defined.


Lemma legacy_self_closing_element_witness :
  @Legacy.blockToAstro referenceCollaborators (fun code => Normal code)
    defaultOptions
    (MkNode (js "img") [(js "src", js "a.png")] []
       [element "span" [(js "_text", js "x")] [] []] None noScope)
    emptyWorld
  = (Normal (js "<img src=" ++ quote ++ js "a.png" ++ quote ++ js " />"),
     emptyWorld).
Proof.
  exact (proj2 (@legacy_self_closing_element referenceCollaborators
                  (fun code => Normal code) defaultOptions
                  (js "img") [(js "src", js "a.png")] []
                  [element "span" [(js "_text", js "x")] [] []] None noScope
                  emptyWorld eq_refl eq_refl eq_refl eq_refl eq_refl)
           eq_refl eq_refl
           (js "<img src=" ++ quote ++ js "a.png" ++ quote) emptyWorld eq_refl).
Defined.

Lemma legacy_default_directive_is_load_witness :
  @Legacy.blockToAstro referenceCollaborators (fun code => Normal code)
    defaultOptions
    (element "button" [] [(js "onClick", binding "state.n++")] []) emptyWorld
  = @Legacy.blockToAstro referenceCollaborators (fun code => Normal code)
      {| clientDirective := Some CLIENT_DIRECTIVES_load; typescript := None;
         prettier := None; plugins := None; explicitImportFileExtension := None |}
      (element "button" [] [(js "onClick", binding "state.n++")] []) emptyWorld.
Proof.
  apply (@legacy_default_directive_is_load referenceCollaborators);
    [left; reflexivity|reflexivity].
Defined.

Lemma legacy_css_failure_gives_empty_witness :
  @Legacy.cssObjectToString referenceCollaborators (fun s => s)
    (js "{ color: ") emptyWorld
  = (Normal [],
     warned emptyWorld (js "Could not parse CSS-in-JS: { color: ")).
Proof.
  apply (@legacy_css_failure_gives_empty referenceCollaborators (fun s => s)
           (js "{ color: ") (js "SyntaxError") emptyWorld).
  reflexivity.
Defined.

Lemma componentToAstro_completes_witness :
  exists output w',
    @componentToAstro referenceCollaborators defaultOptions 0
      {| heap := [componentOf [] None
                    [element "button" [] [(js "onClick", binding "state.n++")] []]];
         cssInJs := None; console := [] |}
    = (Normal output, w').
Proof.
  apply (@componentToAstro_completes referenceCollaborators). cbn [heap length]. lia.
Defined.

Lemma componentToAstro_fresh_registry_witness :
  @componentToAstro referenceCollaborators defaultOptions 0
    {| heap := [componentOf [] None
                  [element "button" [] [(js "onClick", binding "state.n++")] []]];
       cssInJs := Some [(js "stale", js "{}")]; console := [] |}
  = @componentToAstro referenceCollaborators defaultOptions 0
      {| heap := [componentOf [] None
                    [element "button" [] [(js "onClick", binding "state.n++")] []]];
         cssInJs := None; console := [] |}.
Proof.
  apply (@componentToAstro_fresh_registry referenceCollaborators defaultOptions 0
           {| heap := [componentOf [] None
                         [element "button" []
                            [(js "onClick", binding "state.n++")] []]];
              cssInJs := None; console := [] |}
           (Some [(js "stale", js "{}")])).
  cbn [heap length]. lia.
Defined.
